(** * Software bfloat16 kernel of ca2025-mycpu: shallow embedding and properties

    The development follows [1-single-cycle/csrc/bf16_implementation.c].
    C integers are modelled as [Z] with the wrap-around of every assignment
    written out; loops are functions with a fuel argument that return [None]
    when the fuel is exhausted, and each operation is shown to return. *)

From Stdlib Require Import ZArith Lia Bool List Permutation.
Import ListNotations.

Local Open Scope Z_scope.

(** ** C integer types *)

Module CInt.

(** Conversion to [uint16_t], [uint32_t], [int16_t] and [int32_t]. *)
Definition u16 (x : Z) : Z := x mod 65536.
Definition u32 (x : Z) : Z := x mod 4294967296.
Definition s16 (x : Z) : Z := (x + 32768) mod 65536 - 32768.
Definition s32 (x : Z) : Z := (x + 2147483648) mod 4294967296 - 2147483648.

End CInt.
Import CInt.

(** ** Option monad for fuel-bounded loops *)

Definition bind {A B : Type} (m : option A) (k : A -> option B) : option B :=
  match m with
  | Some a => k a
  | None => None
  end.

Notation "x <- m ;; k" := (bind m (fun x => k))
  (at level 61, m at next level, right associativity).
Notation "' p <- m ;; k" := (bind m (fun x => match x with p => k end))
  (at level 61, p pattern, m at next level, right associativity).

(** ** Software division of the runtime *)

(** [udiv]: [for (int i = 31; i >= 0; i--) { remainder <<= 1;
       remainder |= (dividend >> i) & 1;
       if (remainder >= divisor) { remainder -= divisor; quotient |= (1UL << i); } }]
    with [unsigned long] the 32-bit type of RV32.  The state is
    [(quotient, remainder)]. *)
Fixpoint udiv_loop (fuel : nat) (i dividend divisor quotient remainder : Z)
  : option (Z * Z) :=
  match fuel with
  | O => None
  | S fuel' =>
      if i >=? 0 then
        let remainder := u32 (Z.shiftl remainder 1) in
        let remainder := Z.lor remainder (Z.land (Z.shiftr dividend i) 1) in
        if remainder >=? divisor then
          udiv_loop fuel' (s32 (i - 1)) dividend divisor
            (Z.lor quotient (u32 (Z.shiftl 1 i))) (u32 (remainder - divisor))
        else udiv_loop fuel' (s32 (i - 1)) dividend divisor quotient remainder
      else Some (quotient, remainder)
  end.

Definition udiv (dividend divisor : Z) : option Z :=
  if divisor =? 0 then Some 0
  else
    '(quotient, _) <- udiv_loop 33 31 dividend divisor 0 0 ;;
    Some quotient.

(** [umod]: the same loop without the quotient. *)
Fixpoint umod_loop (fuel : nat) (i dividend divisor remainder : Z) : option Z :=
  match fuel with
  | O => None
  | S fuel' =>
      if i >=? 0 then
        let remainder := u32 (Z.shiftl remainder 1) in
        let remainder := Z.lor remainder (Z.land (Z.shiftr dividend i) 1) in
        if remainder >=? divisor then
          umod_loop fuel' (s32 (i - 1)) dividend divisor (u32 (remainder - divisor))
        else umod_loop fuel' (s32 (i - 1)) dividend divisor remainder
      else Some remainder
  end.

Definition umod (dividend divisor : Z) : option Z :=
  if divisor =? 0 then Some 0
  else umod_loop 33 31 dividend divisor 0.

(** ** Integer helpers of the runtime *)

(** [umul]: [while (b) { if (b & 1) result += a; a <<= 1; b >>= 1; }]. *)
Fixpoint umul_loop (fuel : nat) (result a b : Z) : option Z :=
  match fuel with
  | O => None
  | S fuel' =>
      if b =? 0 then Some result
      else
        let result' := if Z.land b 1 =? 0 then result else u32 (result + a) in
        umul_loop fuel' result' (u32 (Z.shiftl a 1)) (Z.shiftr b 1)
  end.

Definition umul (a b : Z) : option Z := umul_loop 33 0 a b.

Definition __mulsi3 (a b : Z) : option Z := umul a b.

(** [clz]: the do-while loop over [c = 16, 8, 4, 2, 1]; the state is [(n, x)]. *)
Fixpoint clz_loop (fuel : nat) (n c x : Z) : option (Z * Z) :=
  match fuel with
  | O => None
  | S fuel' =>
      let y := Z.shiftr x c in
      let n' := if y =? 0 then n else s32 (n - c) in
      let x' := if y =? 0 then x else y in
      let c' := Z.shiftr c 1 in
      if c' =? 0 then Some (n', x') else clz_loop fuel' n' c' x'
  end.

Definition clz (x : Z) : option Z :=
  '(n, x') <- clz_loop 5 32 16 x ;;
  Some (u32 (n - x')).

(** ** The bfloat16 type and its constants *)

Record bf16_t : Type := mk_bf16 { bits : Z }.

Definition BF16_EXP_BIAS : Z := 127.
Definition BF16_SIGN_MASK : Z := 0x8000.
Definition BF16_EXP_MASK : Z := 0x7F80.
Definition BF16_MANT_MASK : Z := 0x007F.

Definition BF16_NAN : bf16_t := {| bits := 0x7FC0 |}.
Definition BF16_ZERO : bf16_t := {| bits := 0x0000 |}.

Definition bf16_one : bf16_t := {| bits := 0x3F80 |}.
Definition bf16_two : bf16_t := {| bits := 0x4000 |}.

Definition bf16_isnan (a : bf16_t) : bool :=
  (Z.land (bits a) BF16_EXP_MASK =? BF16_EXP_MASK)
  && negb (Z.land (bits a) BF16_MANT_MASK =? 0).

Definition bf16_isinf (a : bf16_t) : bool :=
  (Z.land (bits a) BF16_EXP_MASK =? BF16_EXP_MASK)
  && (Z.land (bits a) BF16_MANT_MASK =? 0).

Definition bf16_iszero (a : bf16_t) : bool :=
  Z.land (bits a) 0x7FFF =? 0.

(** The three field extractions that open [bf16_add], [bf16_mul] and
    [bf16_div]: [a.bits >> 15 & 1] into a [uint16_t], [a.bits >> 7 & 0xFF]
    into an [int16_t], [a.bits & 0x7F] into a [uint16_t]. *)
Definition bf16_sign (a : bf16_t) : Z := u16 (Z.land (Z.shiftr (bits a) 15) 1).
Definition bf16_exp (a : bf16_t) : Z := s16 (Z.land (Z.shiftr (bits a) 7) 0xFF).
Definition bf16_mant (a : bf16_t) : Z := u16 (Z.land (bits a) 0x7F).

(** The packing expression that closes the three operations:
    [sign << 15 | (exp & 0xFF) << 7 | mant & 0x7F], stored in a [uint16_t]. *)
Definition bf16_pack (result_sign result_exp result_mant : Z) : bf16_t :=
  {| bits := u16 (Z.lor (Z.lor (Z.shiftl result_sign 15)
                               (Z.shiftl (Z.land result_exp 0xFF) 7))
                        (Z.land result_mant 0x7F)) |}.

(** [(bf16_t) {.bits = (result_sign << 15) | 0x7F80}] and
    [(bf16_t) {.bits = result_sign << 15}]. *)
Definition bf16_signed_inf (result_sign : Z) : bf16_t :=
  {| bits := u16 (Z.lor (Z.shiftl result_sign 15) 0x7F80) |}.
Definition bf16_signed_zero (result_sign : Z) : bf16_t :=
  {| bits := u16 (Z.shiftl result_sign 15) |}.

(** A loop body either leaves the function with a value or falls through
    with the updated locals. *)
Inductive flow (A : Type) : Type :=
| Return (r : bf16_t)
| Next (st : A).
Arguments Return {A} r.
Arguments Next {A} st.

(** ** Addition *)

(** [for (unsigned i = 0; i < 32 - lz - 8; i++)
       { result_mant >>= 1; if (++result_exp >= 255) return BF16_NAN(); }]
    The bound is computed in [uint32_t]. *)
Fixpoint add_shift_loop (fuel : nat) (i lz result_mant result_exp : Z)
  : option (flow (Z * Z)) :=
  match fuel with
  | O => None
  | S fuel' =>
      if i <? u32 (u32 (32 - lz) - 8) then
        let result_mant' := Z.shiftr result_mant 1 in
        let result_exp' := s16 (result_exp + 1) in
        if result_exp' >=? 255 then Some (Return BF16_NAN)
        else add_shift_loop fuel' (u32 (i + 1)) lz result_mant' result_exp'
      else Some (Next (result_mant, result_exp))
  end.

(** [while (!(result_mant & 0x80))
       { result_mant <<= 1; if (--result_exp <= 0) return BF16_ZERO(); }] *)
Fixpoint add_norm_loop (fuel : nat) (result_mant result_exp : Z)
  : option (flow (Z * Z)) :=
  match fuel with
  | O => None
  | S fuel' =>
      if Z.land result_mant 0x80 =? 0 then
        let result_mant' := u32 (Z.shiftl result_mant 1) in
        let result_exp' := s16 (result_exp - 1) in
        if result_exp' <=? 0 then Some (Return BF16_ZERO)
        else add_norm_loop fuel' result_mant' result_exp'
      else Some (Next (result_mant, result_exp))
  end.

(** Lines 162-199 of [bf16_add]: the aligned mantissas are combined,
    renormalized and packed. *)
Definition add_aligned (sign_a sign_b mant_a mant_b result_exp : Z)
  : option bf16_t :=
  if sign_a =? sign_b then
    let result_sign := sign_a in
    let result_mant := u32 (mant_a + mant_b) in
    lz <- clz result_mant ;;
    f <- add_shift_loop 256 0 lz result_mant result_exp ;;
    match f with
    | Return r => Some r
    | Next (result_mant, result_exp) =>
        Some (bf16_pack result_sign result_exp result_mant)
    end
  else
    let result_sign := if mant_a >=? mant_b then sign_a else sign_b in
    let result_mant :=
      if mant_a >=? mant_b then u32 (mant_a - mant_b) else u32 (mant_b - mant_a) in
    if result_mant =? 0 then Some BF16_ZERO
    else
      f <- (if result_mant <? 0x80 then add_norm_loop 256 result_mant result_exp
            else
              lz <- clz result_mant ;;
              add_shift_loop 256 0 lz result_mant result_exp) ;;
      match f with
      | Return r => Some r
      | Next (result_mant, result_exp) =>
          Some (bf16_pack result_sign result_exp result_mant)
      end.

Definition bf16_add (a b : bf16_t) : option bf16_t :=
  let sign_a := bf16_sign a in
  let sign_b := bf16_sign b in
  let exp_a := bf16_exp a in
  let exp_b := bf16_exp b in
  let mant_a := bf16_mant a in
  let mant_b := bf16_mant b in
  if exp_a =? 0xFF then
    if negb (mant_a =? 0) then Some a
    else if exp_b =? 0xFF then
      Some (if negb (mant_b =? 0) || (sign_a =? sign_b) then b else BF16_NAN)
    else Some a
  else if exp_b =? 0xFF then Some b
  else if (exp_a =? 0) && (mant_a =? 0) then Some b
  else if (exp_b =? 0) && (mant_b =? 0) then Some a
  else
    let mant_a := if exp_a =? 0 then mant_a else u16 (Z.lor mant_a 0x80) in
    let mant_b := if exp_b =? 0 then mant_b else u16 (Z.lor mant_b 0x80) in
    let exp_diff := s16 (exp_a - exp_b) in
    if exp_diff >? 0 then
      if exp_diff >? 8 then Some a
      else add_aligned sign_a sign_b
             (u16 (Z.shiftl mant_a exp_diff)) mant_b exp_b
    else if exp_diff <? 0 then
      if exp_diff <? -8 then Some b
      else add_aligned sign_a sign_b
             mant_a (u16 (Z.shiftl mant_b (- exp_diff))) exp_a
    else add_aligned sign_a sign_b mant_a mant_b exp_a.

(** [b.bits ^= 0x8000U] *)
Definition bf16_flip_sign (b : bf16_t) : bf16_t :=
  {| bits := u16 (Z.lxor (bits b) 0x8000) |}.

Definition bf16_sub (a b : bf16_t) : option bf16_t :=
  bf16_add a (bf16_flip_sign b).

(** ** Multiplication *)

(** [while (!(mant & 0x80)) { mant <<= 1; exp_adjust--; }] *)
Fixpoint mul_norm_loop (fuel : nat) (mant exp_adjust : Z) : option (Z * Z) :=
  match fuel with
  | O => None
  | S fuel' =>
      if Z.land mant 0x80 =? 0 then
        mul_norm_loop fuel' (u16 (Z.shiftl mant 1)) (s16 (exp_adjust - 1))
      else Some (mant, exp_adjust)
  end.

(** Lines 236-252: both operands brought to an 8-bit mantissa with its
    leading bit set; the result is [(mant_a, exp_a, mant_b, exp_b, exp_adjust)]. *)
Definition mul_normalize (exp_a mant_a exp_b mant_b : Z)
  : option (Z * Z * Z * Z * Z) :=
  let exp_adjust := 0 in
  '(mant_a, exp_a, exp_adjust) <-
    (if exp_a =? 0 then
       '(m, adj) <- mul_norm_loop 16 mant_a exp_adjust ;; Some (m, 1, adj)
     else Some (u16 (Z.lor mant_a 0x80), exp_a, exp_adjust)) ;;
  '(mant_b, exp_b, exp_adjust) <-
    (if exp_b =? 0 then
       '(m, adj) <- mul_norm_loop 16 mant_b exp_adjust ;; Some (m, 1, adj)
     else Some (u16 (Z.lor mant_b 0x80), exp_b, exp_adjust)) ;;
  Some (mant_a, exp_a, mant_b, exp_b, exp_adjust).

(** Lines 254-261: the product and the combined exponent, after the carry
    adjustment; the result is [(result_mant, result_exp)]. *)
Definition mul_product (mant_a exp_a mant_b exp_b exp_adjust : Z) : Z * Z :=
  let result_mant := u32 (mant_a * mant_b) in
  let result_exp := s32 (exp_a + exp_b - BF16_EXP_BIAS + exp_adjust) in
  if negb (Z.land result_mant 0x8000 =? 0) then
    (Z.land (Z.shiftr result_mant 8) 0x7F, s32 (result_exp + 1))
  else
    (Z.land (Z.shiftr result_mant 7) 0x7F, result_exp).

(** Lines 263-273: saturation, flush to zero, denormal result, packing. *)
Definition mul_round (result_sign result_mant result_exp : Z) : bf16_t :=
  if result_exp >=? 0xFF then bf16_signed_inf result_sign
  else if result_exp <=? 0 then
    if result_exp <? -6 then bf16_signed_zero result_sign
    else bf16_pack result_sign 0
           (u32 (Z.shiftr result_mant (s32 (1 - result_exp))))
  else bf16_pack result_sign result_exp result_mant.

Definition bf16_mul (a b : bf16_t) : option bf16_t :=
  let sign_a := bf16_sign a in
  let sign_b := bf16_sign b in
  let exp_a := bf16_exp a in
  let exp_b := bf16_exp b in
  let mant_a := bf16_mant a in
  let mant_b := bf16_mant b in
  let result_sign := u16 (Z.lxor sign_a sign_b) in
  if exp_a =? 0xFF then
    if negb (mant_a =? 0) then Some a
    else if (exp_b =? 0) && (mant_b =? 0) then Some BF16_NAN
    else Some (bf16_signed_inf result_sign)
  else if exp_b =? 0xFF then
    if negb (mant_b =? 0) then Some b
    else if (exp_a =? 0) && (mant_a =? 0) then Some BF16_NAN
    else Some (bf16_signed_inf result_sign)
  else if ((exp_a =? 0) && (mant_a =? 0)) || ((exp_b =? 0) && (mant_b =? 0)) then
    Some (bf16_signed_zero result_sign)
  else
    '(mant_a, exp_a, mant_b, exp_b, exp_adjust) <-
      mul_normalize exp_a mant_a exp_b mant_b ;;
    let '(result_mant, result_exp) :=
      mul_product mant_a exp_a mant_b exp_b exp_adjust in
    Some (mul_round result_sign result_mant result_exp).

(** The locals [result_mant] and [result_exp] of [bf16_mul] on reaching
    line 263, for operands that pass the special cases. *)
Definition mul_fields (a b : bf16_t) : option (Z * Z) :=
  '(mant_a, exp_a, mant_b, exp_b, exp_adjust) <-
    mul_normalize (bf16_exp a) (bf16_mant a) (bf16_exp b) (bf16_mant b) ;;
  Some (mul_product mant_a exp_a mant_b exp_b exp_adjust).

(** ** Division *)

(** [for (int i = 0; i < 16; i++) { quotient <<= 1;
       if (dividend >= (divisor << (15 - i)))
         { dividend -= (divisor << (15 - i)); quotient |= 1; } }]
    The state is [(dividend, quotient)]. *)
Fixpoint div_loop (fuel : nat) (i dividend divisor quotient : Z)
  : option (Z * Z) :=
  match fuel with
  | O => None
  | S fuel' =>
      if i <? 16 then
        let quotient' := u32 (Z.shiftl quotient 1) in
        let shifted := u32 (Z.shiftl divisor (s32 (15 - i))) in
        if dividend >=? shifted then
          div_loop fuel' (s32 (i + 1)) (u32 (dividend - shifted)) divisor
            (Z.lor quotient' 1)
        else div_loop fuel' (s32 (i + 1)) dividend divisor quotient'
      else Some (dividend, quotient)
  end.

(** [while (!(quotient & 0x8000) && result_exp > 1)
       { quotient <<= 1; result_exp--; }] *)
Fixpoint div_norm_loop (fuel : nat) (quotient result_exp : Z) : option (Z * Z) :=
  match fuel with
  | O => None
  | S fuel' =>
      if (Z.land quotient 0x8000 =? 0) && (result_exp >? 1) then
        div_norm_loop fuel' (u32 (Z.shiftl quotient 1)) (s32 (result_exp - 1))
      else Some (quotient, result_exp)
  end.

Definition bf16_div (a b : bf16_t) : option bf16_t :=
  let sign_a := bf16_sign a in
  let sign_b := bf16_sign b in
  let exp_a := bf16_exp a in
  let exp_b := bf16_exp b in
  let mant_a := bf16_mant a in
  let mant_b := bf16_mant b in
  let result_sign := u16 (Z.lxor sign_a sign_b) in
  if exp_b =? 0xFF then
    if negb (mant_b =? 0) then Some b
    else if (exp_a =? 0xFF) && (mant_a =? 0) then Some BF16_NAN
    else Some (bf16_signed_zero result_sign)
  else if (exp_b =? 0) && (mant_b =? 0) then
    if (exp_a =? 0) && (mant_a =? 0) then Some BF16_NAN
    else Some (bf16_signed_inf result_sign)
  else if exp_a =? 0xFF then
    if negb (mant_a =? 0) then Some a
    else Some (bf16_signed_inf result_sign)
  else if (exp_a =? 0) && (mant_a =? 0) then
    Some (bf16_signed_zero result_sign)
  else
    let mant_a := if exp_a =? 0 then mant_a else u16 (Z.lor mant_a 0x80) in
    let mant_b := if exp_b =? 0 then mant_b else u16 (Z.lor mant_b 0x80) in
    let dividend := u32 (Z.shiftl mant_a 15) in
    let divisor := mant_b in
    let quotient := 0 in
    '(dividend, quotient) <- div_loop 17 0 dividend divisor quotient ;;
    let result_exp := s32 (exp_a - exp_b + BF16_EXP_BIAS) in
    let result_exp := if exp_a =? 0 then s32 (result_exp - 1) else result_exp in
    let result_exp := if exp_b =? 0 then s32 (result_exp + 1) else result_exp in
    '(quotient, result_exp) <-
      (if negb (Z.land quotient 0x8000 =? 0) then
         Some (Z.shiftr quotient 8, result_exp)
       else
         '(q, e) <- div_norm_loop 512 quotient result_exp ;;
         Some (Z.shiftr q 8, e)) ;;
    let quotient := Z.land quotient 0x7F in
    if result_exp >=? 0xFF then Some (bf16_signed_inf result_sign)
    else if result_exp <=? 0 then Some (bf16_signed_zero result_sign)
    else Some (bf16_pack result_sign result_exp quotient).

(** ** [singleNumber] of [3-pipeline/csrc/Leetcode_260.c] *)

(** [for (int i = 0; i < numsSize; i++) xor_sum ^= nums[i];] with [xor_sum]
    an [unsigned int].  Reading past the end of [nums] has no defined result
    and gives [None], like running out of fuel. *)
Fixpoint xor_sum_loop (fuel : nat) (i : Z) (nums : list Z) (numsSize xor_sum : Z)
  : option Z :=
  match fuel with
  | O => None
  | S fuel' =>
      if i <? numsSize then
        x <- nth_error nums (Z.to_nat i) ;;
        xor_sum_loop fuel' (s32 (i + 1)) nums numsSize (u32 (Z.lxor xor_sum (u32 x)))
      else Some xor_sum
  end.

(** [for (int i = 0; i < numsSize; i++)
       if ((nums[i] & diff) == 0) result[0] ^= nums[i]; else result[1] ^= nums[i];]
    The state is [(result[0], result[1])], two [int]s. *)
Fixpoint partition_loop (fuel : nat) (i : Z) (nums : list Z)
  (numsSize diff result0 result1 : Z) : option (Z * Z) :=
  match fuel with
  | O => None
  | S fuel' =>
      if i <? numsSize then
        x <- nth_error nums (Z.to_nat i) ;;
        if Z.land (u32 x) diff =? 0 then
          partition_loop fuel' (s32 (i + 1)) nums numsSize diff
            (s32 (Z.lxor result0 x)) result1
        else
          partition_loop fuel' (s32 (i + 1)) nums numsSize diff
            result0 (s32 (Z.lxor result1 x))
      else Some (result0, result1)
  end.

(** The result is [(result[0], result[1], *returnSize)]. *)
Definition singleNumber (nums : list Z) (numsSize : Z) : option (Z * Z * Z) :=
  let xor_sum := 0 in
  xor_sum <- xor_sum_loop (S (Z.to_nat numsSize)) 0 nums numsSize xor_sum ;;
  let diff := Z.land xor_sum (u32 (- xor_sum)) in
  '(result0, result1) <-
    partition_loop (S (Z.to_nat numsSize)) 0 nums numsSize diff 0 0 ;;
  Some (result0, result1, 2).

(** An [int] of the C program. *)
Definition int_range (x : Z) : Prop := -2147483648 <= x < 2147483648.

(** The XOR of all elements of a list. *)
Definition xor_all (l : list Z) : Z := fold_right Z.lxor 0 l.

(** The bucket test of the second loop: [(nums[i] & diff) == 0]. *)
Definition in_bucket0 (diff x : Z) : bool := Z.land (u32 x) diff =? 0.

(** ** Vocabulary of the properties *)

(** A pattern is a 16-bit value. *)
Definition bf16_wf (a : bf16_t) : Prop := 0 <= bits a < 65536.

(** Finite: neither infinity nor NaN. *)
Definition bf16_finite (a : bf16_t) : Prop :=
  bf16_isnan a = false /\ bf16_isinf a = false.

(** A zero pattern: exponent and mantissa fields both 0. *)
Definition bf16_zero_pattern (r : bf16_t) : Prop :=
  bf16_exp r = 0 /\ bf16_mant r = 0.


Ltac zdivmod := Z.to_euclidean_division_equations; lia.

(** ** Smoke tests: the vectors of [main] *)

Example test_bf16_add :
  bf16_add {| bits := 0x3F80 |} {| bits := 0x3F80 |} = Some {| bits := 0x4000 |}.
Proof. vm_compute. reflexivity. Qed.

Example test_bf16_sub :
  bf16_sub {| bits := 0x4040 |} {| bits := 0x4000 |} = Some {| bits := 0x3F80 |}.
Proof. vm_compute. reflexivity. Qed.

Example test_bf16_mul :
  bf16_mul {| bits := 0x4000 |} {| bits := 0x4040 |} = Some {| bits := 0x40C0 |}.
Proof. vm_compute. reflexivity. Qed.

Example test_bf16_div :
  bf16_div {| bits := 0x40C0 |} {| bits := 0x4000 |} = Some {| bits := 0x4040 |}.
Proof. vm_compute. reflexivity. Qed.

Example test_bf16_special_cases :
  bf16_iszero BF16_ZERO = true /\ bf16_isnan BF16_NAN = true
  /\ bf16_isinf {| bits := 0x7F80 |} = true.
Proof. vm_compute. auto. Qed.

(** * Properties *)

(** ** Facts about the integer conversions *)

Lemma u16_small x : 0 <= x < 65536 -> u16 x = x.
Proof. intros H. unfold u16. apply Z.mod_small. exact H. Qed.

Lemma u32_small x : 0 <= x < 4294967296 -> u32 x = x.
Proof. intros H. unfold u32. apply Z.mod_small. exact H. Qed.

Lemma s16_small x : -32768 <= x < 32768 -> s16 x = x.
Proof. intros H. unfold s16. rewrite Z.mod_small; lia. Qed.

Lemma s32_small x : -2147483648 <= x < 2147483648 -> s32 x = x.
Proof. intros H. unfold s32. rewrite Z.mod_small; lia. Qed.

Lemma u32_range x : 0 <= u32 x < 4294967296.
Proof. unfold u32. apply Z.mod_pos_bound. lia. Qed.

Lemma u16_range x : 0 <= u16 x < 65536.
Proof. unfold u16. apply Z.mod_pos_bound. lia. Qed.

(** ** [umul] and [__mulsi3] *)

Lemma land_1_mod2 b : Z.land b 1 = b mod 2.
Proof. change 1 with (Z.ones 1). rewrite Z.land_ones by lia. reflexivity. Qed.

Lemma u32_add_idemp_l r x : u32 (u32 r + x) = u32 (r + x).
Proof. unfold u32. apply Z.add_mod_idemp_l. lia. Qed.

Lemma u32_add_mul_idemp r a b : u32 (r + u32 a * b) = u32 (r + a * b).
Proof.
  unfold u32.
  rewrite Z.add_mod, Z.mul_mod_idemp_l, <- Z.add_mod by lia. reflexivity.
Qed.

Lemma umul_loop_spec (fuel : nat) :
  forall result a b,
    0 <= result < 4294967296 ->
    0 <= b < 2 ^ Z.of_nat fuel ->
    umul_loop (S fuel) result a b = Some (u32 (result + a * b)).
Proof.
  induction fuel as [|fuel IH]; intros result a b Hr Hb.
  - assert (b = 0) by (change (2 ^ Z.of_nat 0) with 1 in Hb; lia). subst b.
    simpl. rewrite Z.mul_0_r, Z.add_0_r, u32_small by lia. reflexivity.
  - change (umul_loop (S (S fuel)) result a b) with
      (if b =? 0 then Some result
       else umul_loop (S fuel)
              (if Z.land b 1 =? 0 then result else u32 (result + a))
              (u32 (Z.shiftl a 1)) (Z.shiftr b 1)).
    destruct (Z.eqb_spec b 0) as [->|Hnz].
    + rewrite Z.mul_0_r, Z.add_0_r, u32_small by lia. reflexivity.
    + rewrite Nat2Z.inj_succ, Z.pow_succ_r in Hb by lia.
      rewrite land_1_mod2, Z.shiftl_mul_pow2, Z.shiftr_div_pow2 by lia.
      change (2 ^ 1) with 2.
      assert (Hq : 0 <= b / 2 < 2 ^ Z.of_nat fuel) by zdivmod.
      assert (Hdm : b = 2 * (b / 2) + b mod 2) by (apply Z.div_mod; lia).
      set (q := b / 2) in *.
      rewrite IH; [ | destruct (b mod 2 =? 0); [lia | apply u32_range] | exact Hq ].
      f_equal. rewrite u32_add_mul_idemp.
      destruct (Z.eqb_spec (b mod 2) 0) as [E|E].
      * f_equal. rewrite Hdm, E. ring.
      * rewrite u32_add_idemp_l. f_equal.
        assert (E1 : b mod 2 = 1) by zdivmod.
        rewrite Hdm, E1. ring.
Qed.

(** C10: for all 32-bit unsigned [a] and [b], [__mulsi3 a b], which is the
    shift-and-add helper [umul], returns the product [a * b] modulo 2^32. *)
Theorem mulsi3_is_product_mod_2_32 (a b : Z) :
  0 <= a < 4294967296 -> 0 <= b < 4294967296 ->
  __mulsi3 a b = Some ((a * b) mod 2 ^ 32).
Proof.
  intros Ha Hb. unfold __mulsi3, umul.
  rewrite umul_loop_spec.
  - rewrite Z.add_0_l. reflexivity.
  - lia.
  - change (2 ^ Z.of_nat 32) with 4294967296. lia.
Qed.

Lemma mulsi3_is_product_mod_2_32_witness :
  __mulsi3 4294967295 4294967295 = Some ((4294967295 * 4294967295) mod 2 ^ 32).
Proof. apply mulsi3_is_product_mod_2_32; lia. Defined.

(** ** [clz] *)

(** One pass of the do-while body, as the recursion of [clz_loop] unfolds. *)
Lemma clz_loop_unfold fuel n c x :
  clz_loop (S fuel) n c x =
  if Z.shiftr c 1 =? 0
  then Some (if Z.shiftr x c =? 0 then n else s32 (n - c),
             if Z.shiftr x c =? 0 then x else Z.shiftr x c)
  else clz_loop fuel
         (if Z.shiftr x c =? 0 then n else s32 (n - c))
         (Z.shiftr c 1)
         (if Z.shiftr x c =? 0 then x else Z.shiftr x c).
Proof. reflexivity. Qed.

(** Halving search: started with step [2^k] on a value below [2^(2^(k+1))],
    the loop ends with [x' = 1] and [n] lowered by [log2 x], or leaves a zero
    untouched. *)
Lemma clz_loop_spec (k : nat) :
  forall n x,
    0 <= x < 2 ^ (2 ^ (Z.of_nat k + 1)) ->
    2 ^ (Z.of_nat k + 1) - 1 <= n <= 32 ->
    exists n' x',
      clz_loop (S k) n (2 ^ Z.of_nat k) x = Some (n', x')
      /\ (x = 0 -> n' = n /\ x' = 0)
      /\ (0 < x -> n' = n - Z.log2 x /\ x' = 1).
Proof.
  induction k as [|k IH]; intros n x Hx Hn.
  - change (2 ^ (2 ^ (Z.of_nat 0 + 1))) with 4 in Hx.
    change (2 ^ (Z.of_nat 0 + 1)) with 2 in Hn.
    change (2 ^ Z.of_nat 0) with 1.
    assert (Hc : x = 0 \/ x = 1 \/ x = 2 \/ x = 3) by lia.
    destruct Hc as [ -> | [ -> | [ -> | -> ] ] ]; rewrite clz_loop_unfold; cbn -[s32];
      try rewrite s32_small by lia;
      eexists; eexists; (split; [reflexivity|]); split; intros; try lia;
      cbn; split; lia.
  - rewrite clz_loop_unfold.
    set (c := 2 ^ Z.of_nat (S k)).
    assert (Hc : c = 2 * 2 ^ Z.of_nat k)
      by (unfold c; rewrite Nat2Z.inj_succ, Z.pow_succ_r by lia; reflexivity).
    assert (Hpk : 0 < 2 ^ Z.of_nat k) by (apply Z.pow_pos_nonneg; lia).
    assert (Hc1 : Z.shiftr c 1 = 2 ^ Z.of_nat k).
    { rewrite Z.shiftr_div_pow2 by lia. change (2 ^ 1) with 2. zdivmod. }
    rewrite Hc1.
    destruct (Z.eqb_spec (2 ^ Z.of_nat k) 0) as [E|_]; [lia|].
    assert (Hk1 : 2 ^ (Z.of_nat (S k) + 1) = 2 * c).
    { rewrite Z.pow_add_r by lia. fold c. change (2 ^ 1) with 2. lia. }
    assert (Hk0 : 2 ^ (Z.of_nat k + 1) = c).
    { rewrite Z.pow_add_r by lia. change (2 ^ 1) with 2. lia. }
    rewrite Hk1 in Hx, Hn. rewrite Hk0 in IH.
    assert (Hsplit : 2 ^ (2 * c) = 2 ^ c * 2 ^ c).
    { rewrite <- Z.pow_add_r by lia. f_equal. lia. }
    assert (Hpc : 0 < 2 ^ c) by (apply Z.pow_pos_nonneg; lia).
    rewrite Z.shiftr_div_pow2 by lia.
    destruct (Z.eqb_spec (x / 2 ^ c) 0) as [Ez|Enz].
    + (* the upper half is empty: x stays *)
      assert (Hlow : 0 <= x < 2 ^ c).
      { destruct (Z.lt_ge_cases x (2 ^ c)) as [Hl|Hg]; [lia|].
        exfalso. apply (Z.div_le_mono _ _ (2 ^ c)) in Hg; [|lia].
        rewrite Z.div_same in Hg by lia. lia. }
      apply IH; lia.
    + (* the upper half is not: continue on it with n lowered by c *)
      assert (Hq : 0 < x / 2 ^ c < 2 ^ c).
      { split.
        - assert (0 <= x / 2 ^ c) by (apply Z.div_pos; lia). lia.
        - apply Z.div_lt_upper_bound; lia. }
      rewrite s32_small by lia.
      destruct (IH (n - c) (x / 2 ^ c)) as (n' & x' & Hrun & _ & Hpos); [lia|lia|].
      exists n', x'. split; [exact Hrun|].
      split; [intros ->; rewrite Z.div_0_l in Enz by lia; lia|].
      intros Hxpos. destruct (Hpos (proj1 Hq)) as [Hn' Hx'].
      split; [|exact Hx'].
      rewrite Hn'. rewrite <- Z.shiftr_div_pow2 by lia.
      rewrite Z.log2_shiftr by lia.
      assert (c <= Z.log2 x).
      { apply (proj1 (Z.log2_le_pow2 x c Hxpos)).
        destruct (Z.lt_ge_cases x (2 ^ c)) as [Hl|Hg]; [|lia].
        rewrite Z.div_small in Enz by lia. lia. }
      lia.
Qed.

(** The closed form used by the arithmetic operations. *)
Lemma clz_value (x : Z) :
  0 <= x < 2 ^ 32 ->
  clz x = Some (if x =? 0 then 32 else 31 - Z.log2 x).
Proof.
  intros Hx. unfold clz.
  destruct (clz_loop_spec 4 32 x) as (n' & x' & Hrun & Hzero & Hpos).
  - change (2 ^ (2 ^ (Z.of_nat 4 + 1))) with (2 ^ 32). exact Hx.
  - change (2 ^ (Z.of_nat 4 + 1)) with 32. lia.
  - change (2 ^ Z.of_nat 4) with 16 in Hrun. rewrite Hrun. cbn [bind].
    destruct (Z.eqb_spec x 0) as [->|Hnz].
    + destruct Hzero as [-> ->]; reflexivity.
    + destruct Hpos as [-> ->]; [lia|].
      assert (Hlog : 0 <= Z.log2 x < 32).
      { split; [apply Z.log2_nonneg|]. apply Z.log2_lt_pow2; lia. }
      rewrite u32_small by lia. f_equal. lia.
Qed.

(** C8: for every 32-bit unsigned [x], [clz x] returns the number of leading
    zero bits of [x]: [32] when [x = 0] and [31 - floor (log2 x)] otherwise,
    so that the bits of [x] at the positions [32 - clz x .. 31] are clear and,
    for [x <> 0], the bit just below them is set. *)
Theorem clz_counts_leading_zeros (x : Z) :
  0 <= x < 2 ^ 32 ->
  exists n,
    clz x = Some n
    /\ (x = 0 -> n = 32)
    /\ (x <> 0 -> n = 31 - Z.log2 x)
    /\ (forall i, 32 - n <= i < 32 -> Z.testbit x i = false)
    /\ (x <> 0 -> Z.testbit x (31 - n) = true).
Proof.
  intros Hx. rewrite (clz_value x Hx).
  destruct (Z.eqb_spec x 0) as [->|Hnz].
  - exists 32. split; [reflexivity|].
    repeat split; try lia. intros i _. apply Z.testbit_0_l.
  - assert (Hlog : 0 <= Z.log2 x < 32).
    { split; [apply Z.log2_nonneg|]. apply Z.log2_lt_pow2; lia. }
    exists (31 - Z.log2 x). split; [reflexivity|].
    repeat split; try lia.
    + intros i Hi. apply Z.bits_above_log2; lia.
    + intros _. replace (31 - (31 - Z.log2 x)) with (Z.log2 x) by lia.
      apply Z.bit_log2. lia.
Qed.

Lemma clz_counts_leading_zeros_witness :
  exists n,
    clz 0x00012345 = Some n
    /\ (0x00012345 = 0 -> n = 32)
    /\ (0x00012345 <> 0 -> n = 31 - Z.log2 0x00012345)
    /\ (forall i, 32 - n <= i < 32 -> Z.testbit 0x00012345 i = false)
    /\ (0x00012345 <> 0 -> Z.testbit 0x00012345 (31 - n) = true).
Proof. apply clz_counts_leading_zeros. lia. Defined.

(** ** Bit fields *)

(** Masking with a shifted mask is extracting, masking and putting back. *)
Lemma land_shifted_mask x m k :
  0 <= k -> Z.land x (Z.shiftl m k) = Z.shiftl (Z.land (Z.shiftr x k) m) k.
Proof.
  intros Hk. apply Z.bits_inj'. intros n Hn.
  rewrite Z.land_spec.
  destruct (Z.lt_ge_cases n k) as [Hlt|Hge].
  - rewrite !Z.shiftl_spec_low by lia. apply andb_false_r.
  - rewrite !Z.shiftl_spec by lia.
    rewrite Z.land_spec, Z.shiftr_spec by lia.
    replace (n - k + k) with n by lia. reflexivity.
Qed.

Lemma land_0x7F x : Z.land x 0x7F = x mod 128.
Proof. change 0x7F with (Z.ones 7). rewrite Z.land_ones by lia. reflexivity. Qed.

Lemma land_0xFF x : Z.land x 0xFF = x mod 256.
Proof. change 0xFF with (Z.ones 8). rewrite Z.land_ones by lia. reflexivity. Qed.

Lemma land_0x7FFF x : Z.land x 0x7FFF = x mod 32768.
Proof. change 0x7FFF with (Z.ones 15). rewrite Z.land_ones by lia. reflexivity. Qed.

Lemma land_0x7F80 x : Z.land x 0x7F80 = 128 * ((x / 128) mod 256).
Proof.
  change 0x7F80 with (Z.shiftl 0xFF 7).
  rewrite land_shifted_mask, land_0xFF, Z.shiftl_mul_pow2, Z.shiftr_div_pow2 by lia.
  change (2 ^ 7) with 128. ring.
Qed.

(** Testing one bit of a value that fits below the next bit. *)
Lemma land_bit x k :
  0 <= k -> Z.land x (2 ^ k) = 2 ^ k * ((x / 2 ^ k) mod 2).
Proof.
  intros Hk.
  replace (2 ^ k) with (Z.shiftl 1 k) at 1 by (rewrite Z.shiftl_mul_pow2; lia).
  rewrite land_shifted_mask, land_1_mod2, Z.shiftl_mul_pow2, Z.shiftr_div_pow2 by lia.
  ring.
Qed.

Lemma land_0x80 x : Z.land x 0x80 = 128 * ((x / 128) mod 2).
Proof. apply (land_bit x 7). lia. Qed.

Lemma land_0x8000 x : Z.land x 0x8000 = 32768 * ((x / 32768) mod 2).
Proof. apply (land_bit x 15). lia. Qed.

(** Disjoint bit fields are joined by addition. *)
Lemma lor_disjoint_add hi lo k :
  0 <= k -> 0 <= lo < 2 ^ k -> Z.lor (hi * 2 ^ k) lo = hi * 2 ^ k + lo.
Proof.
  intros Hk Hlo. symmetry.
  rewrite <- Z.lxor_lor; [apply Z.add_nocarry_lxor|];
    rewrite <- Z.shiftl_mul_pow2 by lia;
    apply Z.bits_inj'; intros n Hn; rewrite Z.land_spec, Z.bits_0;
    destruct (Z.lt_ge_cases n k) as [Hlt|Hge].
  - rewrite Z.shiftl_spec_low by lia. reflexivity.
  - rewrite andb_comm.
    destruct (Z.eq_dec lo 0) as [->|Hnz]; [rewrite Z.bits_0; reflexivity|].
    rewrite Z.bits_above_log2; [reflexivity|lia|].
    apply Z.lt_le_trans with k; [apply Z.log2_lt_pow2; lia|lia].
  - rewrite Z.shiftl_spec_low by lia. reflexivity.
  - rewrite andb_comm.
    destruct (Z.eq_dec lo 0) as [->|Hnz]; [rewrite Z.bits_0; reflexivity|].
    rewrite Z.bits_above_log2; [reflexivity|lia|].
    apply Z.lt_le_trans with k; [apply Z.log2_lt_pow2; lia|lia].
Qed.

Section Fields.

Variable a : bf16_t.

Lemma bf16_sign_eq : bf16_sign a = (bits a / 32768) mod 2.
Proof.
  unfold bf16_sign. rewrite land_1_mod2, Z.shiftr_div_pow2 by lia.
  change (2 ^ 15) with 32768. apply u16_small. zdivmod.
Qed.

Lemma bf16_exp_eq : bf16_exp a = (bits a / 128) mod 256.
Proof.
  unfold bf16_exp. rewrite land_0xFF, Z.shiftr_div_pow2 by lia.
  change (2 ^ 7) with 128. apply s16_small. zdivmod.
Qed.

Lemma bf16_mant_eq : bf16_mant a = bits a mod 128.
Proof. unfold bf16_mant. rewrite land_0x7F. apply u16_small. zdivmod. Qed.

Lemma bf16_sign_range : 0 <= bf16_sign a <= 1.
Proof. rewrite bf16_sign_eq. zdivmod. Qed.

Lemma bf16_exp_range : 0 <= bf16_exp a <= 255.
Proof. rewrite bf16_exp_eq. zdivmod. Qed.

Lemma bf16_mant_range : 0 <= bf16_mant a <= 127.
Proof. rewrite bf16_mant_eq. zdivmod. Qed.

(** A 16-bit pattern is the sum of its three fields. *)
Lemma bf16_fields :
  bf16_wf a ->
  bits a = 32768 * bf16_sign a + 128 * bf16_exp a + bf16_mant a.
Proof.
  unfold bf16_wf. rewrite bf16_sign_eq, bf16_exp_eq, bf16_mant_eq. zdivmod.
Qed.

(** The predicates in terms of the fields. *)
Lemma bf16_isnan_fields :
  bf16_isnan a = (bf16_exp a =? 0xFF) && negb (bf16_mant a =? 0).
Proof.
  unfold bf16_isnan, BF16_EXP_MASK, BF16_MANT_MASK.
  rewrite land_0x7F80, land_0x7F, bf16_exp_eq, bf16_mant_eq.
  f_equal. destruct (Z.eqb_spec ((bits a / 128) mod 256) 255) as [E|E].
  - rewrite E. reflexivity.
  - apply Z.eqb_neq. lia.
Qed.

Lemma bf16_isinf_fields :
  bf16_isinf a = (bf16_exp a =? 0xFF) && (bf16_mant a =? 0).
Proof.
  unfold bf16_isinf, BF16_EXP_MASK, BF16_MANT_MASK.
  rewrite land_0x7F80, land_0x7F, bf16_exp_eq, bf16_mant_eq.
  f_equal. destruct (Z.eqb_spec ((bits a / 128) mod 256) 255) as [E|E].
  - rewrite E. reflexivity.
  - apply Z.eqb_neq. lia.
Qed.

Lemma bf16_iszero_fields :
  bf16_iszero a = (bf16_exp a =? 0) && (bf16_mant a =? 0).
Proof.
  unfold bf16_iszero. rewrite land_0x7FFF, bf16_exp_eq, bf16_mant_eq.
  destruct (Z.eqb_spec (bits a mod 32768) 0) as [E|E];
    destruct (Z.eqb_spec ((bits a / 128) mod 256) 0) as [E1|E1];
    destruct (Z.eqb_spec (bits a mod 128) 0) as [E2|E2];
    try reflexivity; exfalso; revert E E1 E2; zdivmod.
Qed.

Lemma bf16_finite_exp : bf16_finite a <-> bf16_exp a <> 0xFF.
Proof.
  unfold bf16_finite. rewrite bf16_isnan_fields, bf16_isinf_fields.
  destruct (Z.eqb_spec (bf16_exp a) 255) as [E|E];
    destruct (bf16_mant a =? 0); cbn; intuition congruence.
Qed.

Lemma bf16_nonzero_fields :
  bf16_iszero a = false <-> (bf16_exp a =? 0) && (bf16_mant a =? 0) = false.
Proof. rewrite bf16_iszero_fields. reflexivity. Qed.

End Fields.

(** The ranges of the fields of the two operands, for [lia]. *)
Ltac field_ranges a b :=
  pose proof (bf16_sign_range a); pose proof (bf16_sign_range b);
  pose proof (bf16_exp_range a); pose proof (bf16_exp_range b);
  pose proof (bf16_mant_range a); pose proof (bf16_mant_range b).

(** The fields of a packed result. *)
Lemma bf16_pack_bits s e m :
  0 <= s <= 1 ->
  bits (bf16_pack s e m) = 32768 * s + 128 * (e mod 256) + m mod 128.
Proof.
  intros Hs. unfold bf16_pack. cbn [bits].
  rewrite land_0xFF, land_0x7F, !Z.shiftl_mul_pow2 by lia.
  rewrite (lor_disjoint_add s (e mod 256 * 2 ^ 7) 15) by zdivmod.
  replace (s * 2 ^ 15 + e mod 256 * 2 ^ 7) with ((s * 256 + e mod 256) * 2 ^ 7) by lia.
  rewrite (lor_disjoint_add _ (m mod 128) 7) by zdivmod.
  rewrite u16_small; zdivmod.
Qed.

(** ** Addition: the loops return *)

Lemma add_shift_loop_total (fuel : nat) :
  forall i lz m e,
    -32768 <= e < 255 -> 255 - e < Z.of_nat fuel ->
    exists f, add_shift_loop fuel i lz m e = Some f.
Proof.
  induction fuel as [|fuel IH]; intros i lz m e He Hfuel; [lia|].
  cbn [add_shift_loop].
  destruct (i <? u32 (u32 (32 - lz) - 8)); [|eauto].
  rewrite s16_small by lia.
  destruct (Z.geb_spec (e + 1) 255); [eauto|].
  apply IH; lia.
Qed.

Lemma add_norm_loop_total (fuel : nat) :
  forall m e,
    -32767 <= e < 32768 -> e < Z.of_nat fuel -> (0 < fuel)%nat ->
    exists f, add_norm_loop fuel m e = Some f.
Proof.
  induction fuel as [|fuel IH]; intros m e He Hlt Hfuel; [lia|].
  cbn [add_norm_loop].
  destruct (Z.land m 128 =? 0); [|eauto].
  rewrite s16_small by lia.
  destruct (Z.leb_spec (e - 1) 0); [eauto|].
  apply IH; lia.
Qed.

Lemma add_aligned_total sign_a sign_b mant_a mant_b result_exp :
  0 <= result_exp < 255 ->
  exists r, add_aligned sign_a sign_b mant_a mant_b result_exp = Some r.
Proof.
  intros He. unfold add_aligned.
  destruct (sign_a =? sign_b).
  - rewrite clz_value by apply u32_range. cbn [bind].
    edestruct add_shift_loop_total as [f ->]; [| |cbn [bind]].
    + split; [|apply He]. lia.
    + change (Z.of_nat 256) with 256. lia.
    + destruct f as [r|[m e]]; eauto.
  - match goal with |- context [if ?c =? 0 then _ else _] => destruct (c =? 0) end;
      [eauto|].
    match goal with |- context [if ?c <? 128 then _ else _] => destruct (c <? 128) end.
    + edestruct add_norm_loop_total as [f ->]; [| | |cbn [bind]].
      * split; [|apply Z.lt_trans with 255; [apply He|]]; lia.
      * change (Z.of_nat 256) with 256. lia.
      * lia.
      * destruct f as [r|[m e]]; eauto.
    + rewrite clz_value
        by (destruct (mant_a >=? mant_b); apply u32_range).
      cbn [bind].
      edestruct add_shift_loop_total as [f ->]; [| |cbn [bind]].
      * split; [|apply He]. lia.
      * change (Z.of_nat 256) with 256. lia.
      * destruct f as [r|[m e]]; eauto.
Qed.

(** Every addition returns a pattern. *)
Lemma bf16_add_total a b : exists r, bf16_add a b = Some r.
Proof.
  pose proof (bf16_exp_range a) as Ha. pose proof (bf16_exp_range b) as Hb.
  unfold bf16_add.
  destruct (Z.eqb_spec (bf16_exp a) 255) as [Ea|Ea].
  { destruct (negb (bf16_mant a =? 0)); [eauto|].
    destruct (bf16_exp b =? 255); eauto. }
  destruct (Z.eqb_spec (bf16_exp b) 255) as [Eb|Eb]; [eauto|].
  destruct ((bf16_exp a =? 0) && (bf16_mant a =? 0)); [eauto|].
  destruct ((bf16_exp b =? 0) && (bf16_mant b =? 0)); [eauto|].
  rewrite s16_small by lia.
  destruct (bf16_exp a - bf16_exp b >? 0).
  { destruct (bf16_exp a - bf16_exp b >? 8); [eauto|].
    apply add_aligned_total; lia. }
  destruct (bf16_exp a - bf16_exp b <? 0).
  { destruct (bf16_exp a - bf16_exp b <? -8); [eauto|].
    apply add_aligned_total; lia. }
  apply add_aligned_total; lia.
Qed.

(** ** Addition: discarding the small operand *)

(** C6: in [bf16_add], for two finite nonzero operands whose stored exponents
    differ by more than 8, the operand with the larger exponent is returned
    unchanged: [a] if [exp_a - exp_b > 8], [b] if [exp_b - exp_a > 8]. *)
Theorem bf16_add_discards_small_operand (a b : bf16_t) :
  bf16_finite a -> bf16_finite b ->
  bf16_iszero a = false -> bf16_iszero b = false ->
  (bf16_exp a - bf16_exp b > 8 -> bf16_add a b = Some a)
  /\ (bf16_exp b - bf16_exp a > 8 -> bf16_add a b = Some b).
Proof.
  intros Fa Fb Za Zb.
  apply bf16_finite_exp in Fa, Fb. apply bf16_nonzero_fields in Za, Zb.
  pose proof (bf16_exp_range a) as Ha. pose proof (bf16_exp_range b) as Hb.
  unfold bf16_add.
  destruct (Z.eqb_spec (bf16_exp a) 255) as [Ea|_]; [contradiction|].
  destruct (Z.eqb_spec (bf16_exp b) 255) as [Eb|_]; [contradiction|].
  rewrite Za, Zb, s16_small by lia.
  split; intros Hd.
  - destruct (Z.gtb_spec (bf16_exp a - bf16_exp b) 0); [|lia].
    destruct (Z.gtb_spec (bf16_exp a - bf16_exp b) 8); [reflexivity|lia].
  - destruct (Z.gtb_spec (bf16_exp a - bf16_exp b) 0); [lia|].
    destruct (Z.ltb_spec (bf16_exp a - bf16_exp b) 0); [|lia].
    destruct (Z.ltb_spec (bf16_exp a - bf16_exp b) (-8)); [reflexivity|lia].
Qed.

Lemma bf16_add_discards_small_operand_witness :
  bf16_add {| bits := 0x4580 |} {| bits := 0x3F80 |} = Some {| bits := 0x4580 |}
  /\ bf16_add {| bits := 0x3F80 |} {| bits := 0x4580 |} = Some {| bits := 0x4580 |}.
Proof.
  split.
  - apply (bf16_add_discards_small_operand {| bits := 0x4580 |} {| bits := 0x3F80 |});
      try (split; reflexivity); reflexivity.
  - apply (bf16_add_discards_small_operand {| bits := 0x3F80 |} {| bits := 0x4580 |});
      try (split; reflexivity); reflexivity.
Defined.

(** ** Addition: exchanging the operands *)

Lemma add_aligned_comm sign_a sign_b mant_a mant_b result_exp :
  add_aligned sign_a sign_b mant_a mant_b result_exp
  = add_aligned sign_b sign_a mant_b mant_a result_exp.
Proof.
  unfold add_aligned. rewrite (Z.eqb_sym sign_b sign_a).
  destruct (Z.eqb_spec sign_a sign_b) as [->|Hs].
  - rewrite (Z.add_comm mant_b mant_a). reflexivity.
  - destruct (Z.geb_spec mant_a mant_b) as [Hab|Hab];
      destruct (Z.geb_spec mant_b mant_a) as [Hba|Hba]; try reflexivity; [|lia].
    assert (mant_a = mant_b) by lia. subst mant_b.
    rewrite Z.sub_diag. reflexivity.
Qed.

(** On finite operands addition is symmetric, except that two zeros of
    different signs give the second operand. *)
Lemma bf16_add_comm_finite a b :
  bf16_exp a <> 0xFF -> bf16_exp b <> 0xFF ->
  (bf16_iszero a = true -> bf16_iszero b = true -> a = b) ->
  bf16_add a b = bf16_add b a.
Proof.
  intros Fa Fb Hz. rewrite !bf16_iszero_fields in Hz.
  pose proof (bf16_exp_range a) as Ha. pose proof (bf16_exp_range b) as Hb.
  unfold bf16_add.
  destruct (Z.eqb_spec (bf16_exp a) 255) as [Ea|_]; [contradiction|].
  destruct (Z.eqb_spec (bf16_exp b) 255) as [Eb|_]; [contradiction|].
  destruct ((bf16_exp a =? 0) && (bf16_mant a =? 0)) eqn:Za;
    destruct ((bf16_exp b =? 0) && (bf16_mant b =? 0)) eqn:Zb; try reflexivity.
  { f_equal. symmetry. apply Hz; reflexivity. }
  rewrite !s16_small by lia.
  destruct (Z.gtb_spec (bf16_exp a - bf16_exp b) 0) as [Hgt|Hle].
  - destruct (Z.gtb_spec (bf16_exp b - bf16_exp a) 0); [lia|].
    destruct (Z.ltb_spec (bf16_exp b - bf16_exp a) 0); [|lia].
    destruct (Z.gtb_spec (bf16_exp a - bf16_exp b) 8);
      destruct (Z.ltb_spec (bf16_exp b - bf16_exp a) (-8)); try reflexivity; try lia.
    replace (- (bf16_exp b - bf16_exp a)) with (bf16_exp a - bf16_exp b) by lia.
    apply add_aligned_comm.
  - destruct (Z.ltb_spec (bf16_exp a - bf16_exp b) 0) as [Hlt|Hge].
    + destruct (Z.gtb_spec (bf16_exp b - bf16_exp a) 0); [|lia].
      destruct (Z.ltb_spec (bf16_exp a - bf16_exp b) (-8));
        destruct (Z.gtb_spec (bf16_exp b - bf16_exp a) 8); try reflexivity; try lia.
      replace (- (bf16_exp a - bf16_exp b)) with (bf16_exp b - bf16_exp a) by lia.
      apply add_aligned_comm.
    + destruct (Z.gtb_spec (bf16_exp b - bf16_exp a) 0); [lia|].
      destruct (Z.ltb_spec (bf16_exp b - bf16_exp a) 0); [lia|].
      replace (bf16_exp b) with (bf16_exp a) by lia.
      apply add_aligned_comm.
Qed.

(** ** Addition: a value and its negation *)

Lemma lxor_0x8000 x :
  0 <= x < 65536 ->
  Z.lxor x 0x8000 = if x <? 32768 then x + 32768 else x - 32768.
Proof.
  intros Hx.
  assert (Hlow : forall y, 0 <= y < 32768 -> Z.lxor y 32768 = y + 32768).
  { intros y Hy. symmetry. apply Z.add_nocarry_lxor.
    rewrite land_0x8000, Z.div_small by lia. reflexivity. }
  destruct (Z.ltb_spec x 32768) as [Hl|Hg].
  - apply Hlow. lia.
  - assert (Hx' : x = Z.lxor (x - 32768) 32768) by (rewrite Hlow; lia).
    rewrite Hx' at 1.
    rewrite Z.lxor_assoc, Z.lxor_nilpotent, Z.lxor_0_r. reflexivity.
Qed.

Lemma bf16_flip_sign_bits x :
  bf16_wf x ->
  bits (bf16_flip_sign x)
  = if bits x <? 32768 then bits x + 32768 else bits x - 32768.
Proof.
  unfold bf16_wf, bf16_flip_sign. intros Hx. cbn [bits].
  rewrite lxor_0x8000 by exact Hx.
  destruct (Z.ltb_spec (bits x) 32768); apply u16_small; lia.
Qed.

Lemma bf16_flip_sign_fields x :
  bf16_wf x ->
  bf16_sign (bf16_flip_sign x) = 1 - bf16_sign x
  /\ bf16_exp (bf16_flip_sign x) = bf16_exp x
  /\ bf16_mant (bf16_flip_sign x) = bf16_mant x.
Proof.
  intros Hx. rewrite !bf16_sign_eq, !bf16_exp_eq, !bf16_mant_eq.
  rewrite bf16_flip_sign_bits by exact Hx. unfold bf16_wf in Hx.
  destruct (Z.ltb_spec (bits x) 32768); zdivmod.
Qed.

(** C4 (as amended): for every finite pattern [x], [bf16_add x (negate x)],
    where the negation is [x] with its sign bit flipped, returns a zero
    pattern: exponent and mantissa fields both 0. *)
Theorem bf16_add_negation_is_zero (x : bf16_t) :
  bf16_wf x -> bf16_finite x ->
  exists r,
    bf16_add x (bf16_flip_sign x) = Some r
    /\ bf16_zero_pattern r /\ bf16_iszero r = true.
Proof.
  intros Hwf Hfin. apply bf16_finite_exp in Hfin.
  destruct (bf16_flip_sign_fields x Hwf) as (Hs & He & Hm).
  pose proof (bf16_sign_range x) as Rs. pose proof (bf16_exp_range x) as Re.
  unfold bf16_add. rewrite Hs, He, Hm.
  destruct (Z.eqb_spec (bf16_exp x) 255) as [E|_]; [contradiction|].
  destruct ((bf16_exp x =? 0) && (bf16_mant x =? 0)) eqn:Hz.
  - exists (bf16_flip_sign x). split; [reflexivity|].
    apply andb_true_iff in Hz. destruct Hz as [Hz1 Hz2].
    apply Z.eqb_eq in Hz1, Hz2.
    unfold bf16_zero_pattern. rewrite bf16_iszero_fields, He, Hm, Hz1, Hz2.
    repeat split.
  - exists BF16_ZERO. split; [|repeat split].
    rewrite Z.sub_diag. change (s16 0) with 0. cbn [Z.gtb Z.ltb Z.compare].
    unfold add_aligned.
    destruct (Z.eqb_spec (bf16_sign x) (1 - bf16_sign x)) as [E|_]; [lia|].
    match goal with |- context [?m >=? ?m] => rewrite (proj2 (Z.geb_le m m)) by lia end.
    rewrite Z.sub_diag. reflexivity.
Qed.

Lemma bf16_add_negation_is_zero_witness :
  exists r,
    bf16_add {| bits := 0x4049 |} (bf16_flip_sign {| bits := 0x4049 |}) = Some r
    /\ bf16_zero_pattern r /\ bf16_iszero r = true.
Proof.
  apply bf16_add_negation_is_zero.
  - unfold bf16_wf. cbn. lia.
  - split; reflexivity.
Defined.

(** C4, counterexample: at [x = +infinity] the sum of [x] and its negation is
    the canonical NaN, whose exponent field is 255 and mantissa field 0x40,
    so no zero pattern is returned. *)
Lemma bf16_add_negation_of_infinity :
  bf16_wf {| bits := 0x7F80 |}
  /\ bf16_add {| bits := 0x7F80 |} (bf16_flip_sign {| bits := 0x7F80 |})
     = Some BF16_NAN
  /\ ~ (exists r,
          bf16_add {| bits := 0x7F80 |} (bf16_flip_sign {| bits := 0x7F80 |})
          = Some r
          /\ bf16_zero_pattern r).
Proof.
  split; [unfold bf16_wf; cbn; lia|].
  split; [reflexivity|].
  intros (r & Hr & He & _).
  vm_compute in Hr. injection Hr as <-.
  vm_compute in He. discriminate He.
Qed.

(** ** Addition: same-sign renormalization *)

(** With the loop bound far above the counter, the shift loop only leaves
    through the exponent test. *)
Lemma add_shift_loop_runs_to_nan (fuel : nat) :
  forall i lz m e,
    0 <= e < 255 -> 255 - e <= Z.of_nat fuel ->
    0 <= i -> i + (255 - e) <= u32 (u32 (32 - lz) - 8) ->
    add_shift_loop fuel i lz m e = Some (Return BF16_NAN).
Proof.
  induction fuel as [|fuel IH]; intros i lz m e He Hfuel Hi Hbound; [lia|].
  cbn [add_shift_loop].
  destruct (Z.ltb_spec i (u32 (u32 (32 - lz) - 8))); [|lia].
  rewrite s16_small by lia.
  destruct (Z.geb_spec (e + 1) 255); [reflexivity|].
  pose proof (u32_range (u32 (32 - lz) - 8)).
  rewrite u32_small by lia. apply IH; lia.
Qed.

(** When the sum has its top window bit set, the loop bound is 0: no shift. *)
Lemma add_aligned_same_sign_in_window sign mant_a mant_b result_exp :
  128 <= mant_a + mant_b < 256 ->
  add_aligned sign sign mant_a mant_b result_exp
  = Some (bf16_pack sign result_exp (mant_a + mant_b)).
Proof.
  intros Hsum. unfold add_aligned. rewrite Z.eqb_refl.
  rewrite u32_small by lia. rewrite clz_value by lia.
  destruct (Z.eqb_spec (mant_a + mant_b) 0); [lia|].
  assert (Z.log2 (mant_a + mant_b) = 7) as ->.
  { apply Z.log2_unique; [lia|]. change (2 ^ 7) with 128.
    change (2 ^ Z.succ 7) with 256. exact Hsum. }
  reflexivity.
Qed.

(** When the sum lies below the top window bit, [32 - lz - 8] wraps around
    and the loop shifts until the exponent reaches 255. *)
Lemma add_aligned_same_sign_below_window sign mant_a mant_b result_exp :
  0 < mant_a + mant_b < 128 -> 0 <= result_exp < 255 ->
  add_aligned sign sign mant_a mant_b result_exp = Some BF16_NAN.
Proof.
  intros Hsum He. unfold add_aligned. rewrite Z.eqb_refl.
  rewrite u32_small by lia. rewrite clz_value by lia.
  destruct (Z.eqb_spec (mant_a + mant_b) 0); [lia|]. cbn [bind].
  assert (Hlog : 0 <= Z.log2 (mant_a + mant_b) < 7).
  { split; [apply Z.log2_nonneg|]. apply Z.log2_lt_pow2; lia. }
  rewrite add_shift_loop_runs_to_nan; [reflexivity|lia| |lia|].
  - change (Z.of_nat 256) with 256. lia.
  - rewrite (u32_small (32 - _)) by lia. unfold u32.
    revert Hlog. generalize (Z.log2 (mant_a + mant_b)). intros l Hl. zdivmod.
Qed.

(** C2, failing input: [0x0001 + 0x0001].  Both operands are finite, nonzero
    and positive with exponent 0; the sum of the mantissas is 2, which fits in
    the 8-bit window, so the claim has the result pattern [0x0002].  The loop
    bound [32 - clz 2 - 8] is computed in [uint32_t] and wraps to 4294967290;
    the loop runs until the exponent is 255 and the canonical NaN is returned. *)
Theorem bf16_add_small_denormals_returns_nan :
  bf16_finite {| bits := 0x0001 |}
  /\ bf16_iszero {| bits := 0x0001 |} = false
  /\ bf16_mant {| bits := 0x0001 |} + bf16_mant {| bits := 0x0001 |} = 2
  /\ clz 2 = Some 30
  /\ u32 (u32 (32 - 30) - 8) = 4294967290
  /\ bf16_add {| bits := 0x0001 |} {| bits := 0x0001 |} = Some BF16_NAN
  /\ bf16_pack 0 0 2 = {| bits := 0x0002 |}.
Proof. vm_compute. repeat split; reflexivity. Qed.

(** The same for every pair of same-signed denormals whose mantissas sum
    below 0x80. *)
Lemma bf16_add_denormals_below_window a b :
  bf16_exp a = 0 -> bf16_exp b = 0 ->
  bf16_mant a <> 0 -> bf16_mant b <> 0 ->
  bf16_sign a = bf16_sign b ->
  bf16_mant a + bf16_mant b < 128 ->
  bf16_add a b = Some BF16_NAN.
Proof.
  intros Ea Eb Ma Mb Hs Hsum.
  pose proof (bf16_mant_range a). pose proof (bf16_mant_range b).
  unfold bf16_add. rewrite Ea, Eb, Hs. cbn -[add_aligned Z.eqb bf16_mant].
  change (0 =? 255) with false. change (0 =? 0) with true. cbn [andb].
  destruct (Z.eqb_spec (bf16_mant a) 0); [contradiction|].
  destruct (Z.eqb_spec (bf16_mant b) 0); [contradiction|].
  apply add_aligned_same_sign_below_window; lia.
Qed.

(** ** Multiplication: normalizing the operands *)

Lemma lor_0x80 m : 0 <= m < 128 -> Z.lor m 0x80 = m + 128.
Proof.
  intros Hm. rewrite Z.lor_comm.
  change (Z.lor 128 m) with (Z.lor (1 * 2 ^ 7) m).
  rewrite (lor_disjoint_add 1 m 7) by (change (2 ^ 7) with 128; lia). lia.
Qed.

Lemma land_0x80_set m : 128 <= m < 256 -> (Z.land m 0x80 =? 0) = false.
Proof. intros Hm. rewrite land_0x80. apply Z.eqb_neq. zdivmod. Qed.

Lemma land_0x80_clear m : 0 <= m < 128 -> (Z.land m 0x80 =? 0) = true.
Proof. intros Hm. rewrite land_0x80. apply Z.eqb_eq. zdivmod. Qed.

(** A nonzero mantissa reaches bit 7 after at most [k] shifts when
    [m * 2^k] does. *)
Lemma mul_norm_loop_spec (k : nat) :
  forall fuel m adj,
    1 <= m < 256 -> 128 <= m * 2 ^ Z.of_nat k ->
    -32768 <= adj - Z.of_nat k -> adj <= 0 ->
    (k < fuel)%nat ->
    exists m' j,
      mul_norm_loop fuel m adj = Some (m', adj - j)
      /\ 0 <= j <= Z.of_nat k /\ 128 <= m' < 256
      /\ (m < 128 -> 1 <= j).
Proof.
  induction k as [|k IH]; intros fuel m adj Hm Hk Hadj Hadj0 Hfuel;
    (destruct fuel as [|fuel]; [lia|]); cbn [mul_norm_loop].
  - change (2 ^ Z.of_nat 0) with 1 in Hk.
    rewrite land_0x80_set by lia.
    exists m, 0. rewrite Z.sub_0_r. repeat split; lia.
  - destruct (Z.lt_ge_cases m 128) as [Hlt|Hge].
    + rewrite land_0x80_clear by lia.
      rewrite Z.shiftl_mul_pow2, u16_small, s16_small by lia.
      rewrite Nat2Z.inj_succ, Z.pow_succ_r in Hk by lia.
      destruct (IH fuel (m * 2 ^ 1) (adj - 1)) as (m' & j & Hrun & Hj & Hm' & _);
        try lia.
      exists m', (j + 1). rewrite Hrun. split; [f_equal; f_equal; lia|].
      repeat split; lia.
    + rewrite land_0x80_set by lia.
      exists m, 0. rewrite Z.sub_0_r. repeat split; lia.
Qed.

(** The adjustment accumulates: starting from [adj] instead of 0 adds [adj]. *)
Lemma mul_norm_loop_adjust (fuel : nat) :
  forall m adj,
    (fuel <= 100)%nat -> -32768 + Z.of_nat fuel <= adj <= 0 ->
    mul_norm_loop fuel m adj
    = match mul_norm_loop fuel m 0 with
      | Some (m', d) => Some (m', adj + d)
      | None => None
      end.
Proof.
  induction fuel as [|fuel IH]; intros m adj Hfuel Hadj; [reflexivity|].
  cbn [mul_norm_loop].
  destruct (Z.land m 128 =? 0).
  - rewrite !s16_small by lia.
    rewrite (IH _ (adj - 1)), (IH _ (0 - 1)) by lia.
    destruct (mul_norm_loop fuel _ 0) as [[m' d]|]; [|reflexivity].
    f_equal. f_equal. lia.
  - rewrite Z.add_0_r. reflexivity.
Qed.

Lemma mul_norm_loop_adj_range (fuel : nat) :
  forall m adj m' adj',
    -32768 + Z.of_nat fuel <= adj <= 0 -> (fuel <= 100)%nat ->
    mul_norm_loop fuel m adj = Some (m', adj') ->
    adj - Z.of_nat fuel <= adj' <= adj.
Proof.
  induction fuel as [|fuel IH]; intros m adj m' adj' Hadj Hfuel Hrun;
    [discriminate|].
  cbn [mul_norm_loop] in Hrun.
  destruct (Z.land m 128 =? 0).
  - rewrite s16_small in Hrun by lia. apply IH in Hrun; lia.
  - injection Hrun as <- <-. lia.
Qed.

(** Exchanging the operands of [mul_normalize] exchanges the results. *)
Lemma mul_normalize_comm exp_a mant_a exp_b mant_b :
  mul_normalize exp_b mant_b exp_a mant_a
  = match mul_normalize exp_a mant_a exp_b mant_b with
    | Some (ma, ea, mb, eb, adj) => Some (mb, eb, ma, ea, adj)
    | None => None
    end.
Proof.
  unfold mul_normalize.
  destruct (exp_a =? 0), (exp_b =? 0); cbn [bind]; try reflexivity.
  - destruct (mul_norm_loop 16 mant_a 0) as [[ma da]|] eqn:Ha;
      destruct (mul_norm_loop 16 mant_b 0) as [[mb db]|] eqn:Hb; cbn [bind].
    + apply mul_norm_loop_adj_range in Ha as Ra; [|lia|lia].
      apply mul_norm_loop_adj_range in Hb as Rb; [|lia|lia].
      change (Z.of_nat 16) with 16 in Ra, Rb.
      rewrite (mul_norm_loop_adjust 16 mant_a db), (mul_norm_loop_adjust 16 mant_b da)
        by lia.
      rewrite Ha, Hb. cbn [bind]. rewrite (Z.add_comm db da). reflexivity.
    + rewrite (mul_norm_loop_adjust 16 mant_b da), Hb; [reflexivity|lia|].
      apply mul_norm_loop_adj_range in Ha; [|lia|lia].
      change (Z.of_nat 16) with 16 in Ha. lia.
    + rewrite (mul_norm_loop_adjust 16 mant_a db), Ha; [reflexivity|lia|].
      apply mul_norm_loop_adj_range in Hb; [|lia|lia].
      change (Z.of_nat 16) with 16 in Hb. lia.
    + reflexivity.
  - destruct (mul_norm_loop 16 mant_a 0) as [[ma da]|]; reflexivity.
  - destruct (mul_norm_loop 16 mant_b 0) as [[mb db]|]; reflexivity.
Qed.

Lemma mul_product_comm mant_a exp_a mant_b exp_b exp_adjust :
  mul_product mant_a exp_a mant_b exp_b exp_adjust
  = mul_product mant_b exp_b mant_a exp_a exp_adjust.
Proof.
  unfold mul_product.
  rewrite (Z.mul_comm mant_b mant_a), (Z.add_comm exp_b exp_a). reflexivity.
Qed.

(** Multiplication is symmetric on all operands that are not NaN or
    infinity. *)
Lemma bf16_mul_comm_finite a b :
  bf16_exp a <> 0xFF -> bf16_exp b <> 0xFF ->
  bf16_mul a b = bf16_mul b a.
Proof.
  intros Fa Fb. unfold bf16_mul.
  destruct (Z.eqb_spec (bf16_exp a) 255) as [Ea|_]; [contradiction|].
  destruct (Z.eqb_spec (bf16_exp b) 255) as [Eb|_]; [contradiction|].
  rewrite (Z.lxor_comm (bf16_sign b)), (orb_comm ((bf16_exp b =? 0) && _)).
  destruct (_ || _); [reflexivity|].
  rewrite (mul_normalize_comm (bf16_exp a)).
  destruct (mul_normalize (bf16_exp a) _ _ _) as [[[[[ma ea] mb] eb] adj]|];
    [|reflexivity].
  cbn [bind]. rewrite (mul_product_comm mb). reflexivity.
Qed.

(** Operands that are finite and not zero normalize to 8-bit mantissas with
    the leading bit set; a denormal operand gets exponent 1. *)
Lemma mul_normalize_total exp_a mant_a exp_b mant_b :
  0 <= exp_a < 255 -> 0 <= mant_a < 128 ->
  0 <= exp_b < 255 -> 0 <= mant_b < 128 ->
  (exp_a =? 0) && (mant_a =? 0) = false ->
  (exp_b =? 0) && (mant_b =? 0) = false ->
  exists ma ea mb eb adj,
    mul_normalize exp_a mant_a exp_b mant_b = Some (ma, ea, mb, eb, adj)
    /\ 128 <= ma < 256 /\ 128 <= mb < 256
    /\ ea = (if exp_a =? 0 then 1 else exp_a)
    /\ eb = (if exp_b =? 0 then 1 else exp_b)
    /\ -14 <= adj <= 0
    /\ (exp_a = 0 -> exp_b = 0 -> adj <= -2).
Proof.
  intros Hea Hma Heb Hmb Za Zb. unfold mul_normalize.
  assert (Hloop : forall m adj, 1 <= m < 128 -> -14 <= adj <= 0 ->
            exists m' j, mul_norm_loop 16 m adj = Some (m', adj - j)
                         /\ 1 <= j <= 7 /\ 128 <= m' < 256).
  { intros m adj Hm Hadj.
    destruct (mul_norm_loop_spec 7 16 m adj) as (m' & j & Hrun & Hj & Hm' & Hj1).
    - lia.
    - change (2 ^ Z.of_nat 7) with 128. lia.
    - change (Z.of_nat 7) with 7. lia.
    - lia.
    - lia.
    - change (Z.of_nat 7) with 7 in Hj. exists m', j. repeat split; try lia.
      exact Hrun. }
  destruct (Z.eqb_spec exp_a 0) as [Ea|Ea]; destruct (Z.eqb_spec exp_b 0) as [Eb|Eb];
    cbn [andb] in Za, Zb; try apply Z.eqb_neq in Za; try apply Z.eqb_neq in Zb.
  - destruct (Hloop mant_a 0) as (ma & ja & -> & Hja & Hma'); [lia|lia|].
    cbn [bind].
    destruct (Hloop mant_b (0 - ja)) as (mb & jb & -> & Hjb & Hmb'); [lia|lia|].
    cbn [bind]. do 5 eexists. split; [reflexivity|].
    repeat split; lia.
  - destruct (Hloop mant_a 0) as (ma & ja & -> & Hja & Hma'); [lia|lia|].
    cbn [bind]. rewrite lor_0x80, u16_small by lia.
    do 5 eexists. split; [reflexivity|]. repeat split; lia.
  - rewrite lor_0x80, u16_small by lia. cbn [bind].
    destruct (Hloop mant_b 0) as (mb & jb & -> & Hjb & Hmb'); [lia|lia|].
    cbn [bind]. do 5 eexists. split; [reflexivity|]. repeat split; lia.
  - rewrite !lor_0x80, !u16_small by lia. cbn [bind].
    do 5 eexists. split; [reflexivity|]. repeat split; lia.
Qed.

(** ** Multiplication: results *)

Lemma lxor_bit_range s t : 0 <= s <= 1 -> 0 <= t <= 1 -> 0 <= Z.lxor s t <= 1.
Proof.
  intros Hs Ht.
  assert (Es : s = 0 \/ s = 1) by lia. assert (Et : t = 0 \/ t = 1) by lia.
  destruct Es as [-> | ->], Et as [-> | ->]; cbn; lia.
Qed.

Lemma result_sign_range a b :
  0 <= u16 (Z.lxor (bf16_sign a) (bf16_sign b)) <= 1
  /\ u16 (Z.lxor (bf16_sign a) (bf16_sign b)) = Z.lxor (bf16_sign a) (bf16_sign b).
Proof.
  pose proof (lxor_bit_range _ _ (bf16_sign_range a) (bf16_sign_range b)) as H.
  rewrite u16_small by lia. split; [exact H|reflexivity].
Qed.

Lemma bf16_signed_zero_fields s :
  0 <= s <= 1 ->
  bf16_sign (bf16_signed_zero s) = s
  /\ bf16_exp (bf16_signed_zero s) = 0
  /\ bf16_mant (bf16_signed_zero s) = 0.
Proof.
  intros Hs. rewrite bf16_sign_eq, bf16_exp_eq, bf16_mant_eq.
  unfold bf16_signed_zero. cbn [bits].
  rewrite Z.shiftl_mul_pow2 by lia. change (2 ^ 15) with 32768.
  rewrite u16_small by lia. zdivmod.
Qed.

Lemma bf16_signed_inf_fields s :
  0 <= s <= 1 ->
  bf16_sign (bf16_signed_inf s) = s
  /\ bf16_exp (bf16_signed_inf s) = 0xFF
  /\ bf16_mant (bf16_signed_inf s) = 0.
Proof.
  intros Hs. rewrite bf16_sign_eq, bf16_exp_eq, bf16_mant_eq.
  unfold bf16_signed_inf. cbn [bits].
  rewrite Z.shiftl_mul_pow2 by lia.
  rewrite (lor_disjoint_add s 0x7F80 15) by (change (2 ^ 15) with 32768; lia).
  change (2 ^ 15) with 32768.
  rewrite u16_small by lia. zdivmod.
Qed.

Lemma bf16_pack_fields s e m :
  0 <= s <= 1 ->
  bf16_sign (bf16_pack s e m) = s
  /\ bf16_exp (bf16_pack s e m) = e mod 256
  /\ bf16_mant (bf16_pack s e m) = m mod 128.
Proof.
  intros Hs. rewrite bf16_sign_eq, bf16_exp_eq, bf16_mant_eq.
  rewrite bf16_pack_bits by exact Hs. zdivmod.
Qed.

Lemma mul_product_range mant_a exp_a mant_b exp_b exp_adjust :
  128 <= mant_a < 256 -> 128 <= mant_b < 256 ->
  1 <= exp_a < 255 -> 1 <= exp_b < 255 -> -14 <= exp_adjust <= 0 ->
  let '(result_mant, result_exp) :=
    mul_product mant_a exp_a mant_b exp_b exp_adjust in
  0 <= result_mant < 128
  /\ exp_a + exp_b - 127 + exp_adjust <= result_exp
     <= exp_a + exp_b - 127 + exp_adjust + 1.
Proof.
  intros Hma Hmb Hea Heb Hadj. unfold mul_product, BF16_EXP_BIAS.
  rewrite (s32_small (exp_a + exp_b - 127 + exp_adjust)) by lia.
  destruct (negb _); rewrite land_0x7F, ?s32_small by lia; split; zdivmod.
Qed.

(** Every multiplication of finite operands returns a pattern. *)
Lemma bf16_mul_total_finite a b :
  bf16_exp a <> 0xFF -> bf16_exp b <> 0xFF -> exists r, bf16_mul a b = Some r.
Proof.
  intros Fa Fb. unfold bf16_mul.
  field_ranges a b.
  destruct (Z.eqb_spec (bf16_exp a) 255) as [Ea|_]; [contradiction|].
  destruct (Z.eqb_spec (bf16_exp b) 255) as [Eb|_]; [contradiction|].
  destruct ((bf16_exp a =? 0) && (bf16_mant a =? 0)) eqn:Za; [cbn; eauto|].
  destruct ((bf16_exp b =? 0) && (bf16_mant b =? 0)) eqn:Zb; [cbn; eauto|].
  cbn [orb].
  destruct (mul_normalize_total (bf16_exp a) (bf16_mant a) (bf16_exp b) (bf16_mant b))
    as (ma & ea & mb & eb & adj & -> & _); try lia; try assumption.
  cbn [bind]. destruct (mul_product ma ea mb eb adj). eauto.
Qed.

(** Every multiplication returns a pattern. *)
Lemma bf16_mul_total a b : exists r, bf16_mul a b = Some r.
Proof.
  destruct (Z.eq_dec (bf16_exp a) 0xFF) as [Ea|Ea];
    [|destruct (Z.eq_dec (bf16_exp b) 0xFF) as [Eb|Eb]].
  - unfold bf16_mul. rewrite Ea. cbn [Z.eqb Pos.eqb].
    destruct (negb _); [eauto|]. destruct (_ && _); eauto.
  - unfold bf16_mul. rewrite Eb.
    destruct (bf16_exp a =? 255); cbn [Z.eqb Pos.eqb];
      (destruct (negb _); [eauto|]); destruct (_ && _); eauto.
  - apply bf16_mul_total_finite; assumption.
Qed.

(** C3 (as amended): for all finite patterns [a] and [b], [bf16_mul a b] and
    [bf16_mul b a] return the same pattern; [bf16_add a b] and [bf16_add b a]
    return the same pattern unless [a] and [b] are zeros of different signs,
    and then each addition returns its second operand. *)
Theorem bf16_add_mul_commute (a b : bf16_t) :
  bf16_wf a -> bf16_wf b -> bf16_finite a -> bf16_finite b ->
  (exists r, bf16_mul a b = Some r /\ bf16_mul b a = Some r)
  /\ (~ (bf16_iszero a = true /\ bf16_iszero b = true
         /\ bf16_sign a <> bf16_sign b) ->
      exists r, bf16_add a b = Some r /\ bf16_add b a = Some r)
  /\ (bf16_iszero a = true -> bf16_iszero b = true ->
      bf16_add a b = Some b /\ bf16_add b a = Some a).
Proof.
  intros Wa Wb Fa Fb. apply bf16_finite_exp in Fa, Fb.
  split; [|split].
  - destruct (bf16_mul_total_finite a b Fa Fb) as [r Hr].
    exists r. split; [exact Hr|]. rewrite <- Hr. symmetry.
    apply bf16_mul_comm_finite; assumption.
  - intros Hnz. destruct (bf16_add_total a b) as [r Hr].
    exists r. split; [exact Hr|]. rewrite <- Hr. symmetry.
    apply bf16_add_comm_finite; try assumption.
    intros Za Zb.
    assert (Hs : bf16_sign a = bf16_sign b).
    { destruct (Z.eq_dec (bf16_sign a) (bf16_sign b)) as [E|E]; [exact E|].
      exfalso. apply Hnz. auto. }
    rewrite bf16_iszero_fields in Za, Zb.
    apply andb_true_iff in Za, Zb. destruct Za as [Ea Ma], Zb as [Eb Mb].
    apply Z.eqb_eq in Ea, Ma, Eb, Mb.
    pose proof (bf16_fields a Wa) as Ba. pose proof (bf16_fields b Wb) as Bb.
    destruct a as [xa], b as [xb]. f_equal. cbn [bits] in Ba, Bb. lia.
  - intros Za Zb. rewrite bf16_iszero_fields in Za, Zb.
    unfold bf16_add.
    destruct (Z.eqb_spec (bf16_exp a) 255) as [Ea|_]; [contradiction|].
    destruct (Z.eqb_spec (bf16_exp b) 255) as [Eb|_]; [contradiction|].
    rewrite Za, Zb. split; reflexivity.
Qed.

Lemma bf16_add_mul_commute_witness :
  (exists r, bf16_mul {| bits := 0x0012 |} {| bits := 0xC2F7 |} = Some r
             /\ bf16_mul {| bits := 0xC2F7 |} {| bits := 0x0012 |} = Some r)
  /\ (exists r, bf16_add {| bits := 0x0012 |} {| bits := 0xC2F7 |} = Some r
                /\ bf16_add {| bits := 0xC2F7 |} {| bits := 0x0012 |} = Some r).
Proof.
  destruct (bf16_add_mul_commute {| bits := 0x0012 |} {| bits := 0xC2F7 |})
    as (Hmul & Hadd & _).
  - unfold bf16_wf. cbn. lia.
  - unfold bf16_wf. cbn. lia.
  - split; reflexivity.
  - split; reflexivity.
  - split; [exact Hmul|]. apply Hadd. intros (Hz & _). discriminate Hz.
Defined.

(** C3, counterexample: [+0] and [-0] are finite, and adding them in the two
    orders gives [-0] and [+0]. *)
Lemma bf16_add_signed_zeros_not_commutative :
  bf16_finite {| bits := 0x0000 |} /\ bf16_finite {| bits := 0x8000 |}
  /\ bf16_add {| bits := 0x0000 |} {| bits := 0x8000 |} = Some {| bits := 0x8000 |}
  /\ bf16_add {| bits := 0x8000 |} {| bits := 0x0000 |} = Some {| bits := 0x0000 |}
  /\ bf16_add {| bits := 0x0000 |} {| bits := 0x8000 |}
     <> bf16_add {| bits := 0x8000 |} {| bits := 0x0000 |}.
Proof.
  repeat split; try reflexivity. vm_compute. discriminate.
Qed.

(** The path of [bf16_mul] through the arithmetic, for finite operands that
    are not zero. *)
Lemma bf16_mul_finite_nonzero a b :
  bf16_exp a <> 0xFF -> bf16_exp b <> 0xFF ->
  (bf16_exp a =? 0) && (bf16_mant a =? 0) = false ->
  (bf16_exp b =? 0) && (bf16_mant b =? 0) = false ->
  exists result_mant result_exp,
    mul_fields a b = Some (result_mant, result_exp)
    /\ bf16_mul a b
       = Some (mul_round (Z.lxor (bf16_sign a) (bf16_sign b)) result_mant result_exp)
    /\ 0 <= result_mant < 128
    /\ -139 <= result_exp <= 382
    /\ (bf16_exp a = 0 -> bf16_exp b = 0 -> result_exp <= -126).
Proof.
  intros Fa Fb Za Zb.
  field_ranges a b.
  destruct (mul_normalize_total (bf16_exp a) (bf16_mant a) (bf16_exp b) (bf16_mant b))
    as (ma & ea & mb & eb & adj & Hrun & Hma & Hmb & Hea & Heb & Hadj & Hden);
    try lia; try assumption.
  assert (Rea : 1 <= ea < 255) by (destruct (Z.eqb_spec (bf16_exp a) 0); lia).
  assert (Reb : 1 <= eb < 255) by (destruct (Z.eqb_spec (bf16_exp b) 0); lia).
  pose proof (mul_product_range ma ea mb eb adj Hma Hmb Rea Reb Hadj) as Hprod.
  unfold mul_fields, bf16_mul. rewrite Hrun. cbn [bind].
  destruct (mul_product ma ea mb eb adj) as [m e].
  exists m, e. split; [reflexivity|].
  destruct (Z.eqb_spec (bf16_exp a) 255) as [Ea|_]; [contradiction|].
  destruct (Z.eqb_spec (bf16_exp b) 255) as [Eb|_]; [contradiction|].
  rewrite Za, Zb. cbn [orb].
  rewrite (proj2 (result_sign_range a b)).
  split; [reflexivity|].
  split; [apply Hprod|]. split; [lia|].
  intros Ea Eb. specialize (Hden Ea Eb).
  rewrite Ea in Hea. rewrite Eb in Heb. cbn in Hea, Heb. lia.
Qed.




(** C9: when both operands of [bf16_mul] are denormal (stored exponent 0,
    mantissa not 0), the combined exponent after normalization is more than 6
    below zero and the result is the signed zero whose sign bit is the XOR
    of the operand signs. *)
Theorem bf16_mul_denormals_is_signed_zero (a b : bf16_t) :
  bf16_exp a = 0 -> bf16_mant a <> 0 ->
  bf16_exp b = 0 -> bf16_mant b <> 0 ->
  exists result_mant result_exp r,
    mul_fields a b = Some (result_mant, result_exp)
    /\ result_exp < -6
    /\ bf16_mul a b = Some r
    /\ bits r = Z.shiftl (Z.lxor (bf16_sign a) (bf16_sign b)) 15
    /\ bf16_iszero r = true
    /\ bf16_sign r = Z.lxor (bf16_sign a) (bf16_sign b).
Proof.
  intros Ea Ma Eb Mb.
  destruct (bf16_mul_finite_nonzero a b) as (m & e & Hfields & Hmul & Hm & He & Hden).
  - rewrite Ea. discriminate.
  - rewrite Eb. discriminate.
  - rewrite Ea. apply Z.eqb_neq in Ma. rewrite Ma. reflexivity.
  - rewrite Eb. apply Z.eqb_neq in Mb. rewrite Mb. reflexivity.
  - specialize (Hden Ea Eb).
    pose proof (lxor_bit_range _ _ (bf16_sign_range a) (bf16_sign_range b)) as Hs.
    exists m, e, (bf16_signed_zero (Z.lxor (bf16_sign a) (bf16_sign b))).
    split; [exact Hfields|]. split; [lia|].
    split.
    { rewrite Hmul. unfold mul_round.
      destruct (Z.geb_spec e 255); [lia|].
      destruct (Z.leb_spec e 0); [|lia]. destruct (Z.ltb_spec e (-6)); [|lia].
      reflexivity. }
    destruct (bf16_signed_zero_fields _ Hs) as (S1 & S2 & S3).
    rewrite bf16_iszero_fields, S1, S2, S3.
    split; [|split; reflexivity].
    unfold bf16_signed_zero. cbn [bits]. apply u16_small.
    rewrite Z.shiftl_mul_pow2 by lia. change (2 ^ 15) with 32768. lia.
Qed.

Lemma bf16_mul_denormals_is_signed_zero_witness :
  exists result_mant result_exp r,
    mul_fields {| bits := 0x807F |} {| bits := 0x007F |}
    = Some (result_mant, result_exp)
    /\ result_exp < -6
    /\ bf16_mul {| bits := 0x807F |} {| bits := 0x007F |} = Some r
    /\ bits r = Z.shiftl (Z.lxor (bf16_sign {| bits := 0x807F |})
                                 (bf16_sign {| bits := 0x007F |})) 15
    /\ bf16_iszero r = true
    /\ bf16_sign r = Z.lxor (bf16_sign {| bits := 0x807F |})
                            (bf16_sign {| bits := 0x007F |}).
Proof.
  apply bf16_mul_denormals_is_signed_zero;
    try reflexivity; vm_compute; discriminate.
Defined.

(** ** Division: the loops return *)

Lemma div_loop_total (fuel : nat) :
  forall i dividend divisor quotient,
    0 <= i <= 16 -> 16 - i < Z.of_nat fuel ->
    exists r, div_loop fuel i dividend divisor quotient = Some r.
Proof.
  induction fuel as [|fuel IH]; intros i dividend divisor quotient Hi Hfuel; [lia|].
  cbn [div_loop].
  destruct (Z.ltb_spec i 16); [|eauto].
  rewrite (s32_small (i + 1)) by lia.
  destruct (dividend >=? _); apply IH; lia.
Qed.

Lemma div_norm_loop_total (fuel : nat) :
  forall quotient result_exp,
    -2147483647 <= result_exp < 2147483648 ->
    result_exp < Z.of_nat fuel -> (0 < fuel)%nat ->
    exists r, div_norm_loop fuel quotient result_exp = Some r.
Proof.
  induction fuel as [|fuel IH]; intros quotient result_exp He Hfuel Hpos; [lia|].
  cbn [div_norm_loop].
  destruct (Z.land quotient 32768 =? 0); cbn [andb]; [|eauto].
  destruct (Z.gtb_spec result_exp 1); [|eauto].
  rewrite s32_small by lia. apply IH; lia.
Qed.

(** Every division returns a pattern. *)
Lemma bf16_div_total a b : exists r, bf16_div a b = Some r.
Proof.
  pose proof (bf16_exp_range a). pose proof (bf16_exp_range b).
  unfold bf16_div.
  destruct (bf16_exp b =? 255).
  { destruct (negb _); [eauto|]. destruct (_ && _); eauto. }
  destruct ((bf16_exp b =? 0) && _).
  { destruct (_ && _); eauto. }
  destruct (bf16_exp a =? 255).
  { destruct (negb _); eauto. }
  destruct ((bf16_exp a =? 0) && _); [eauto|].
  edestruct div_loop_total as [[dividend quotient] ->]; [| |cbn [bind]].
  - lia.
  - change (Z.of_nat 17) with 17. lia.
  - unfold BF16_EXP_BIAS. rewrite (s32_small (_ - _ + 127)) by lia.
    set (e0 := bf16_exp a - bf16_exp b + 127).
    assert (He0 : -128 <= e0 <= 382) by (unfold e0; lia).
    set (e1 := if bf16_exp a =? 0 then s32 (e0 - 1) else e0).
    assert (He1 : -129 <= e1 <= 382).
    { unfold e1. destruct (bf16_exp a =? 0); [rewrite s32_small|]; lia. }
    set (e2 := if bf16_exp b =? 0 then s32 (e1 + 1) else e1).
    assert (He2 : -129 <= e2 <= 383).
    { unfold e2. destruct (bf16_exp b =? 0); [rewrite s32_small|]; lia. }
    destruct (negb (Z.land quotient 32768 =? 0)); cbn [bind].
    + destruct (e2 >=? 255); [eauto|]. destruct (e2 <=? 0); eauto.
    + edestruct (div_norm_loop_total 512 quotient e2) as [[q e] ->];
        [lia|change (Z.of_nat 512) with 512; lia|lia|cbn [bind]].
      destruct (e >=? 255); [eauto|]. destruct (e <=? 0); eauto.
Qed.

(** ** Division: NaN operands *)

(** A NaN divisor is returned as it is. *)
Lemma bf16_div_nan_divisor a b :
  bf16_isnan b = true -> bf16_div a b = Some b.
Proof.
  rewrite bf16_isnan_fields. intros Hb. apply andb_true_iff in Hb.
  destruct Hb as [Hb1 Hb2]. unfold bf16_div. rewrite Hb1, Hb2. reflexivity.
Qed.

(** A NaN dividend is returned as it is when the divisor is finite and not
    zero. *)
Lemma bf16_div_nan_dividend a b :
  bf16_isnan a = true -> bf16_finite b -> bf16_iszero b = false ->
  bf16_div a b = Some a.
Proof.
  rewrite bf16_isnan_fields. intros Ha Fb Zb. apply andb_true_iff in Ha.
  destruct Ha as [Ha1 Ha2].
  apply bf16_finite_exp in Fb. apply Z.eqb_neq in Fb.
  apply bf16_nonzero_fields in Zb.
  unfold bf16_div. rewrite Fb, Zb, Ha1, Ha2. reflexivity.
Qed.

(** A NaN dividend is lost when the divisor is an infinity or a zero: the
    divisor is examined first. *)
Lemma bf16_div_nan_dividend_lost a b :
  bf16_isnan a = true ->
  (bf16_isinf b = true ->
   bf16_div a b = Some (bf16_signed_zero (u16 (Z.lxor (bf16_sign a) (bf16_sign b)))))
  /\ (bf16_iszero b = true ->
      bf16_div a b = Some (bf16_signed_inf (u16 (Z.lxor (bf16_sign a) (bf16_sign b))))).
Proof.
  rewrite bf16_isnan_fields, bf16_isinf_fields, bf16_iszero_fields.
  intros Ha. apply andb_true_iff in Ha. destruct Ha as [Ha1 Ha2].
  apply Z.eqb_eq in Ha1. apply negb_true_iff in Ha2.
  split; intros Hb; apply andb_true_iff in Hb; destruct Hb as [Hb1 Hb2];
    apply Z.eqb_eq in Hb1; unfold bf16_div; rewrite Ha1, Hb1, Ha2, Hb2; reflexivity.
Qed.

(** C1, failing inputs: the canonical NaN divided by [+infinity] gives [+0],
    and divided by [+0] gives [+infinity]; neither result is a NaN. *)
Theorem bf16_div_nan_by_infinity_or_zero :
  bf16_isnan BF16_NAN = true
  /\ bf16_div BF16_NAN {| bits := 0x7F80 |} = Some {| bits := 0x0000 |}
  /\ bf16_isnan {| bits := 0x0000 |} = false
  /\ bf16_div BF16_NAN {| bits := 0x0000 |} = Some {| bits := 0x7F80 |}
  /\ bf16_isnan {| bits := 0x7F80 |} = false.
Proof. repeat split; reflexivity. Qed.

(** ** Division: a value by itself *)

Lemma pow2_le_mono k n : 0 <= k <= n -> 0 < 2 ^ k <= 2 ^ n.
Proof.
  intros H. split; [apply Z.pow_pos_nonneg; lia|].
  apply Z.pow_le_mono_r; lia.
Qed.

(** Once the dividend is 0 no further subtraction happens: the quotient is
    only shifted. *)
Lemma div_loop_zero_dividend (fuel : nat) :
  forall i divisor quotient,
    1 <= i <= 16 -> 16 - i < Z.of_nat fuel ->
    1 <= divisor < 256 ->
    0 <= quotient -> quotient * 2 ^ (16 - i) < 4294967296 ->
    div_loop fuel i 0 divisor quotient = Some (0, quotient * 2 ^ (16 - i)).
Proof.
  induction fuel as [|fuel IH]; intros i divisor quotient Hi Hfuel Hd Hq Hqb; [lia|].
  cbn [div_loop].
  destruct (Z.ltb_spec i 16) as [Hlt|Hge].
  - rewrite !s32_small by lia. rewrite !Z.shiftl_mul_pow2 by lia.
    pose proof (pow2_le_mono (15 - i) 14 ltac:(lia)) as Hp.
    change (2 ^ 14) with 16384 in Hp.
    assert (Hpow : 2 ^ (16 - i) = 2 * 2 ^ (15 - i)).
    { rewrite <- Z.pow_succ_r by lia. f_equal. lia. }
    rewrite (u32_small (divisor * _)) by nia.
    destruct (Z.geb_spec 0 (divisor * 2 ^ (15 - i))); [nia|].
    change (2 ^ 1) with 2. rewrite u32_small by nia.
    rewrite IH; try lia.
    + f_equal. f_equal. replace (16 - (i + 1)) with (15 - i) by lia. lia.
    + replace (16 - (i + 1)) with (15 - i) by lia. lia.
  - assert (i = 16) by lia. subst i. change (2 ^ (16 - 16)) with 1.
    rewrite Z.mul_1_r. reflexivity.
Qed.

(** Dividing a mantissa by itself: the first step subtracts, the other
    fifteen shift. *)
Lemma div_loop_self mant :
  1 <= mant < 256 ->
  div_loop 17 0 (u32 (Z.shiftl mant 15)) mant 0 = Some (0, 32768).
Proof.
  intros Hm. rewrite Z.shiftl_mul_pow2 by lia. change (2 ^ 15) with 32768.
  rewrite u32_small by lia.
  change (div_loop 17 0 (mant * 32768) mant 0)
    with (if 0 <? 16 then
            if mant * 32768 >=? u32 (Z.shiftl mant (s32 (15 - 0))) then
              div_loop 16 (s32 (0 + 1))
                (u32 (mant * 32768 - u32 (Z.shiftl mant (s32 (15 - 0))))) mant
                (Z.lor (u32 (Z.shiftl 0 1)) 1)
            else div_loop 16 (s32 (0 + 1)) (mant * 32768) mant (u32 (Z.shiftl 0 1))
          else Some (mant * 32768, 0)).
  change (0 <? 16) with true. change (s32 (15 - 0)) with 15.
  change (s32 (0 + 1)) with 1. change (Z.lor (u32 (Z.shiftl 0 1)) 1) with 1.
  rewrite Z.shiftl_mul_pow2 by lia. change (2 ^ 15) with 32768.
  rewrite (u32_small (mant * 32768)) by lia.
  destruct (Z.geb_spec (mant * 32768) (mant * 32768)); [|lia].
  rewrite Z.sub_diag. change (u32 0) with 0.
  rewrite div_loop_zero_dividend by lia. reflexivity.
Qed.

(** C7: for every finite nonzero pattern [x], normal or denormal,
    [bf16_div x x] returns a pattern whose stored exponent lies strictly
    between 0 and 255 and whose magnitude is within one mantissa unit of
    1.0: it is exactly [0x3F80]. *)
Theorem bf16_div_self_is_one (x : bf16_t) :
  bf16_finite x -> bf16_iszero x = false ->
  exists r,
    bf16_div x x = Some r
    /\ 0 < bf16_exp r < 255
    /\ Z.abs (Z.land (bits r) 0x7FFF - bits bf16_one) <= 1
    /\ r = bf16_one.
Proof.
  intros Fx Zx. apply bf16_finite_exp in Fx. apply bf16_nonzero_fields in Zx.
  pose proof (bf16_exp_range x) as He. pose proof (bf16_mant_range x) as Hm.
  exists bf16_one. split; [|repeat split; cbn; lia].
  unfold bf16_div.
  destruct (Z.eqb_spec (bf16_exp x) 255) as [E|_]; [contradiction|].
  rewrite Zx, Z.lxor_nilpotent, Z.sub_diag. unfold BF16_EXP_BIAS.
  rewrite div_loop_self.
  - cbn [bind]. destruct (bf16_exp x =? 0); reflexivity.
  - destruct (Z.eqb_spec (bf16_exp x) 0) as [E0|E0].
    + cbn [andb] in Zx. apply Z.eqb_neq in Zx. lia.
    + rewrite lor_0x80, u16_small by lia. lia.
Qed.

Lemma bf16_div_self_is_one_witness :
  exists r,
    bf16_div {| bits := 0x8033 |} {| bits := 0x8033 |} = Some r
    /\ 0 < bf16_exp r < 255
    /\ Z.abs (Z.land (bits r) 0x7FFF - bits bf16_one) <= 1
    /\ r = bf16_one.
Proof. apply bf16_div_self_is_one; [split|]; reflexivity. Defined.

(** ** [udiv] and [umod] *)

(** One more dividend bit: quotient and remainder of [2 * h + b]. *)
Lemma div_mod_shift_in d h b :
  0 < d -> 0 <= h -> 0 <= b <= 1 ->
  (2 * h + b) / d
  = 2 * (h / d) + (if 2 * (h mod d) + b >=? d then 1 else 0)
  /\ (2 * h + b) mod d
     = (if 2 * (h mod d) + b >=? d
        then 2 * (h mod d) + b - d else 2 * (h mod d) + b).
Proof.
  intros Hd Hh Hb.
  pose proof (Z.div_mod h d ltac:(lia)) as Hdm.
  pose proof (Z.mod_pos_bound h d Hd) as Hr.
  set (q := h / d) in *. set (r := h mod d) in *.
  destruct (Z.geb_spec (2 * r + b) d) as [Hge|Hlt].
  - assert (E : 2 * h + b = d * (2 * q + 1) + (2 * r + b - d)) by lia.
    split.
    + symmetry. apply Z.div_unique with (r := 2 * r + b - d); [lia|exact E].
    + symmetry. apply Z.mod_unique with (q := 2 * q + 1); [lia|exact E].
  - assert (E : 2 * h + b = d * (2 * q + 0) + (2 * r + b)) by lia.
    split.
    + symmetry. apply Z.div_unique with (r := 2 * r + b); [lia|exact E].
    + symmetry. apply Z.mod_unique with (q := 2 * q + 0); [lia|exact E].
Qed.

(** The bit of [x] at [i] extends the bits above it. *)
Lemma shiftr_step x i :
  0 <= x -> 0 <= i ->
  Z.shiftr x i = 2 * Z.shiftr x (i + 1) + Z.land (Z.shiftr x i) 1
  /\ 0 <= Z.land (Z.shiftr x i) 1 <= 1.
Proof.
  intros Hx Hi. rewrite land_1_mod2.
  replace (Z.shiftr x (i + 1)) with (Z.shiftr x i / 2).
  - split; [apply Z.div_mod; lia|]. zdivmod.
  - rewrite !Z.shiftr_div_pow2 by lia.
    rewrite Z.pow_add_r, Z.div_div by (try apply Z.pow_pos_nonneg; lia).
    reflexivity.
Qed.

Lemma shiftr_bound x i :
  0 <= x < 4294967296 -> 0 <= i <= 32 -> 0 <= Z.shiftr x i < 2 ^ (32 - i).
Proof.
  intros Hx Hi. rewrite Z.shiftr_div_pow2 by lia.
  assert (Hp : 0 < 2 ^ i) by (apply Z.pow_pos_nonneg; lia).
  split; [apply Z.div_pos; lia|].
  apply Z.div_lt_upper_bound; [lia|].
  rewrite <- Z.pow_add_r by lia. replace (i + (32 - i)) with 32 by lia.
  change (2 ^ 32) with 4294967296. lia.
Qed.

(** With [n] bits still to read, the quotient and remainder of the bits
    already read are in place; reading the rest gives those of the whole
    dividend. *)
Lemma udiv_loop_spec (n : nat) :
  forall fuel dividend divisor quotient remainder,
    (n < fuel)%nat -> (n <= 32)%nat ->
    0 <= dividend < 4294967296 -> 0 < divisor < 4294967296 ->
    quotient = Z.shiftr dividend (Z.of_nat n) / divisor * 2 ^ Z.of_nat n ->
    remainder = Z.shiftr dividend (Z.of_nat n) mod divisor ->
    udiv_loop fuel (Z.of_nat n - 1) dividend divisor quotient remainder
    = Some (dividend / divisor, dividend mod divisor).
Proof.
  induction n as [|n IH];
    intros fuel dividend divisor quotient remainder Hfuel Hn Hdiv Hd Hq Hr;
    (destruct fuel as [|fuel]; [lia|]); cbn [udiv_loop].
  - change (Z.of_nat 0 - 1) with (-1). change (-1 >=? 0) with false.
    cbn [Z.of_nat] in Hq, Hr. rewrite Z.shiftr_0_r in Hq, Hr.
    change (2 ^ 0) with 1 in Hq. rewrite Z.mul_1_r in Hq. subst. reflexivity.
  - replace (Z.of_nat (S n) - 1) with (Z.of_nat n) by lia.
    replace (Z.of_nat (S n)) with (Z.of_nat n + 1) in Hq, Hr by lia.
    set (i := Z.of_nat n) in *.
    assert (Hi : 0 <= i <= 31) by lia.
    destruct (Z.geb_spec i 0); [|lia].
    destruct (shiftr_step dividend i) as [Hstep Hbit]; [lia|lia|].
    pose proof (shiftr_bound dividend (i + 1) Hdiv ltac:(lia)) as Hhigh.
    set (h := Z.shiftr dividend (i + 1)) in *.
    set (b := Z.land (Z.shiftr dividend i) 1) in *.
    assert (Hp31 : 2 ^ (32 - (i + 1)) <= 2147483648).
    { change 2147483648 with (2 ^ 31). apply Z.pow_le_mono_r; lia. }
    pose proof (Z.mod_pos_bound h divisor ltac:(lia)) as Hrem.
    assert (Hrh : h mod divisor <= h) by (apply Z.mod_le; lia).
    rewrite Hr. rewrite Z.shiftl_mul_pow2 by lia.
    rewrite (u32_small (h mod divisor * 2 ^ 1)) by (change (2 ^ 1) with 2; lia).
    rewrite (lor_disjoint_add (h mod divisor) b 1) by (change (2 ^ 1) with 2; lia).
    change (2 ^ 1) with 2.
    destruct (div_mod_shift_in divisor h b) as [Hdq Hdr]; [lia|lia|lia|].
    rewrite <- Hstep in Hdq, Hdr.
    replace (h mod divisor * 2 + b) with (2 * (h mod divisor) + b) by lia.
    rewrite (s32_small (i - 1)) by lia.
    destruct (Z.geb_spec (2 * (h mod divisor) + b) divisor) as [Hge|Hlt].
    + apply IH; try lia.
      * rewrite Hdq, Hq. rewrite Z.shiftl_mul_pow2, Z.mul_1_l by lia.
        assert (Hpi : 0 < 2 ^ i <= 2 ^ 31) by (apply pow2_le_mono; lia).
        change (2 ^ 31) with 2147483648 in Hpi.
        rewrite (u32_small (2 ^ i)) by lia.
        assert (Hpi1 : 2 ^ (i + 1) = 2 * 2 ^ i)
          by (rewrite Z.pow_add_r by lia; change (2 ^ 1) with 2; ring).
        rewrite lor_disjoint_add by lia. rewrite Hpi1. ring.
      * rewrite Hdr. apply u32_small. lia.
    + apply IH; try lia.
      * rewrite Hdq, Hq. rewrite Z.pow_add_r by lia. change (2 ^ 1) with 2. ring.
Qed.

(** [umod] runs the loop of [udiv] and keeps the remainder. *)
Lemma umod_loop_udiv_loop (fuel : nat) :
  forall i dividend divisor quotient remainder,
    umod_loop fuel i dividend divisor remainder
    = match udiv_loop fuel i dividend divisor quotient remainder with
      | Some (_, r) => Some r
      | None => None
      end.
Proof.
  induction fuel as [|fuel IH]; intros i dividend divisor quotient remainder;
    [reflexivity|].
  cbn [umod_loop udiv_loop].
  destruct (i >=? 0); [|reflexivity].
  destruct (_ >=? divisor); apply IH.
Qed.

Lemma udiv_loop_run dividend divisor :
  0 <= dividend < 4294967296 -> 0 < divisor < 4294967296 ->
  udiv_loop 33 31 dividend divisor 0 0
  = Some (dividend / divisor, dividend mod divisor).
Proof.
  intros Ha Hb.
  assert (Hhigh : Z.shiftr dividend (Z.of_nat 32) = 0).
  { rewrite Z.shiftr_div_pow2 by lia. change (2 ^ Z.of_nat 32) with 4294967296.
    apply Z.div_small. exact Ha. }
  apply (udiv_loop_spec 32 33); try lia; rewrite Hhigh.
  - rewrite Z.div_0_l by lia. reflexivity.
  - rewrite Z.mod_0_l by lia. reflexivity.
Qed.

(** X1: for 32-bit operands [udiv] returns the integer quotient, and 0 for
    a zero divisor. *)
Theorem udiv_is_quotient (dividend divisor : Z) :
  0 <= dividend < 4294967296 -> 0 <= divisor < 4294967296 ->
  udiv dividend divisor = Some (if divisor =? 0 then 0 else dividend / divisor).
Proof.
  intros Ha Hb. unfold udiv.
  destruct (Z.eqb_spec divisor 0) as [E|E]; [reflexivity|].
  rewrite udiv_loop_run by lia. reflexivity.
Qed.

Lemma udiv_is_quotient_witness :
  udiv 4294967295 7 = Some 613566756 /\ udiv 4294967295 0 = Some 0.
Proof.
  split.
  - apply (udiv_is_quotient 4294967295 7); lia.
  - apply (udiv_is_quotient 4294967295 0); lia.
Defined.

(** X2: for 32-bit operands [umod] returns the remainder of the integer
    division, and 0 for a zero divisor. *)
Theorem umod_is_remainder (dividend divisor : Z) :
  0 <= dividend < 4294967296 -> 0 <= divisor < 4294967296 ->
  umod dividend divisor = Some (if divisor =? 0 then 0 else dividend mod divisor).
Proof.
  intros Ha Hb. unfold umod.
  destruct (Z.eqb_spec divisor 0) as [E|E]; [reflexivity|].
  rewrite (umod_loop_udiv_loop 33 31 dividend divisor 0 0).
  rewrite udiv_loop_run by lia. reflexivity.
Qed.

Lemma umod_is_remainder_witness :
  umod 4294967295 4294967294 = Some 1 /\ umod 12345 0 = Some 0.
Proof.
  split.
  - apply (umod_is_remainder 4294967295 4294967294); lia.
  - apply (umod_is_remainder 12345 0); lia.
Defined.

(** X3: [udiv] and [umod] fit together: for a nonzero divisor the dividend
    is quotient times divisor plus remainder, with the remainder below the
    divisor. *)
Theorem udiv_umod_recompose (dividend divisor : Z) :
  0 <= dividend < 4294967296 -> 0 < divisor < 4294967296 ->
  exists quotient remainder,
    udiv dividend divisor = Some quotient
    /\ umod dividend divisor = Some remainder
    /\ dividend = quotient * divisor + remainder
    /\ 0 <= remainder < divisor
    /\ 0 <= quotient <= dividend.
Proof.
  intros Ha Hb. exists (dividend / divisor), (dividend mod divisor).
  unfold udiv, umod.
  destruct (Z.eqb_spec divisor 0) as [E|_]; [lia|].
  rewrite (umod_loop_udiv_loop 33 31 dividend divisor 0 0).
  rewrite udiv_loop_run by lia. cbn [bind].
  split; [reflexivity|]. split; [reflexivity|].
  pose proof (Z.div_mod dividend divisor ltac:(lia)).
  pose proof (Z.mod_pos_bound dividend divisor ltac:(lia)).
  assert (0 <= dividend / divisor) by (apply Z.div_pos; lia).
  assert (dividend / divisor <= dividend) by (apply Z.div_le_upper_bound; nia).
  repeat split; lia.
Qed.

Lemma udiv_umod_recompose_witness :
  exists quotient remainder,
    udiv 1000000007 65536 = Some quotient
    /\ umod 1000000007 65536 = Some remainder
    /\ 1000000007 = quotient * 65536 + remainder
    /\ 0 <= remainder < 65536
    /\ 0 <= quotient <= 1000000007.
Proof. apply udiv_umod_recompose; lia. Defined.

(** ** Classification and the field round trip *)

(** X4: the three predicates exclude one another: no pattern is two of NaN,
    infinity and zero. *)
Theorem bf16_predicates_exclusive (a : bf16_t) :
  bf16_isnan a && bf16_isinf a = false
  /\ bf16_isnan a && bf16_iszero a = false
  /\ bf16_isinf a && bf16_iszero a = false.
Proof.
  rewrite bf16_isnan_fields, bf16_isinf_fields, bf16_iszero_fields.
  destruct (Z.eqb_spec (bf16_exp a) 255) as [E|E];
    [rewrite E|]; destruct (bf16_exp a =? 0); destruct (bf16_mant a =? 0);
    repeat split; reflexivity.
Qed.

(** X5: the predicates do not look at the sign bit: a 16-bit pattern and
    the pattern with the sign flipped, as [bf16_sub] flips it, are
    classified alike, and flipping twice gives the pattern back. *)
Theorem bf16_flip_sign_keeps_class (a : bf16_t) :
  bf16_wf a ->
  bf16_isnan (bf16_flip_sign a) = bf16_isnan a
  /\ bf16_isinf (bf16_flip_sign a) = bf16_isinf a
  /\ bf16_iszero (bf16_flip_sign a) = bf16_iszero a
  /\ bf16_flip_sign (bf16_flip_sign a) = a
  /\ bf16_flip_sign a <> a.
Proof.
  intros Hwf. destruct (bf16_flip_sign_fields a Hwf) as (Hs & He & Hm).
  rewrite !bf16_isnan_fields, !bf16_isinf_fields, !bf16_iszero_fields, He, Hm.
  repeat split.
  - assert (Hwf' : bf16_wf (bf16_flip_sign a)).
    { unfold bf16_wf. rewrite bf16_flip_sign_bits by exact Hwf.
      unfold bf16_wf in Hwf. destruct (bits a <? 32768) eqn:E;
        [apply Z.ltb_lt in E|apply Z.ltb_ge in E]; lia. }
    pose proof (bf16_flip_sign_bits _ Hwf') as H2.
    rewrite (bf16_flip_sign_bits a Hwf) in H2.
    destruct (bf16_flip_sign (bf16_flip_sign a)) as [x2]. destruct a as [x].
    cbn [bits] in *. f_equal. unfold bf16_wf in Hwf. cbn [bits] in Hwf.
    destruct (Z.ltb_spec x 32768);
      [destruct (Z.ltb_spec (x + 32768) 32768)|destruct (Z.ltb_spec (x - 32768) 32768)];
      lia.
  - intros E. rewrite E in Hs. pose proof (bf16_sign_range a). lia.
Qed.

Lemma bf16_flip_sign_keeps_class_witness :
  bf16_isnan (bf16_flip_sign {| bits := 0x7FC1 |}) = bf16_isnan {| bits := 0x7FC1 |}
  /\ bf16_isinf (bf16_flip_sign {| bits := 0x7FC1 |}) = bf16_isinf {| bits := 0x7FC1 |}
  /\ bf16_iszero (bf16_flip_sign {| bits := 0x7FC1 |}) = bf16_iszero {| bits := 0x7FC1 |}
  /\ bf16_flip_sign (bf16_flip_sign {| bits := 0x7FC1 |}) = {| bits := 0x7FC1 |}
  /\ bf16_flip_sign {| bits := 0x7FC1 |} <> {| bits := 0x7FC1 |}.
Proof. apply bf16_flip_sign_keeps_class. unfold bf16_wf. cbn. lia. Defined.

(** X6: packing the three fields of a 16-bit pattern gives the pattern
    back. *)
Theorem bf16_pack_of_fields (a : bf16_t) :
  bf16_wf a ->
  bf16_pack (bf16_sign a) (bf16_exp a) (bf16_mant a) = a.
Proof.
  intros Hwf.
  pose proof (bf16_pack_bits (bf16_sign a) (bf16_exp a) (bf16_mant a)
                (bf16_sign_range a)) as Hp.
  pose proof (bf16_fields a Hwf) as Hf.
  pose proof (bf16_exp_range a). pose proof (bf16_mant_range a).
  rewrite (Z.mod_small (bf16_exp a)), (Z.mod_small (bf16_mant a)) in Hp by lia.
  destruct (bf16_pack _ _ _) as [x]. destruct a as [y]. cbn [bits] in *.
  f_equal. lia.
Qed.

Lemma bf16_pack_of_fields_witness :
  bf16_pack (bf16_sign {| bits := 0xC2F7 |}) (bf16_exp {| bits := 0xC2F7 |})
    (bf16_mant {| bits := 0xC2F7 |}) = {| bits := 0xC2F7 |}.
Proof. apply bf16_pack_of_fields. unfold bf16_wf. cbn. lia. Defined.

(** X7: the fields of a packed pattern are the packed values, when these fit
    their fields (1, 8 and 7 bits), and the pattern has 16 bits; values that
    do not fit are cut to the field width. *)
Theorem bf16_fields_of_pack (s e m : Z) :
  0 <= s <= 1 ->
  bf16_wf (bf16_pack s e m)
  /\ bf16_sign (bf16_pack s e m) = s
  /\ bf16_exp (bf16_pack s e m) = e mod 256
  /\ bf16_mant (bf16_pack s e m) = m mod 128
  /\ (0 <= e <= 255 -> 0 <= m <= 127 ->
      bf16_exp (bf16_pack s e m) = e /\ bf16_mant (bf16_pack s e m) = m).
Proof.
  intros Hs. destruct (bf16_pack_fields s e m Hs) as (H1 & H2 & H3).
  split; [|repeat split; try assumption].
  - unfold bf16_wf. rewrite bf16_pack_bits by exact Hs. zdivmod.
  - rewrite H2. apply Z.mod_small. lia.
  - rewrite H3. apply Z.mod_small. lia.
Qed.

Lemma bf16_fields_of_pack_witness :
  bf16_wf (bf16_pack 1 130 0x49)
  /\ bf16_sign (bf16_pack 1 130 0x49) = 1
  /\ bf16_exp (bf16_pack 1 130 0x49) = 130 mod 256
  /\ bf16_mant (bf16_pack 1 130 0x49) = 0x49 mod 128
  /\ (0 <= 130 <= 255 -> 0 <= 0x49 <= 127 ->
      bf16_exp (bf16_pack 1 130 0x49) = 130 /\ bf16_mant (bf16_pack 1 130 0x49) = 0x49).
Proof. apply bf16_fields_of_pack. lia. Defined.

(** ** Addition and subtraction: special operands *)

Lemma bf16_isnan_split a :
  bf16_isnan a = true <-> bf16_exp a = 0xFF /\ bf16_mant a <> 0.
Proof.
  rewrite bf16_isnan_fields, andb_true_iff, negb_true_iff, Z.eqb_eq, Z.eqb_neq.
  reflexivity.
Qed.

Lemma bf16_isinf_split a :
  bf16_isinf a = true <-> bf16_exp a = 0xFF /\ bf16_mant a = 0.
Proof.
  rewrite bf16_isinf_fields, andb_true_iff, !Z.eqb_eq. reflexivity.
Qed.

Lemma bf16_iszero_split a :
  bf16_iszero a = true <-> bf16_exp a = 0 /\ bf16_mant a = 0.
Proof.
  rewrite bf16_iszero_fields, andb_true_iff, !Z.eqb_eq. reflexivity.
Qed.

(** X8: NaN closure of addition: when an operand is a NaN the sum is a NaN,
    namely the first operand if it is a NaN and the second otherwise, with
    its payload unchanged. *)
Theorem bf16_add_nan_closure (a b : bf16_t) :
  bf16_isnan a = true \/ bf16_isnan b = true ->
  exists r,
    bf16_add a b = Some r
    /\ bf16_isnan r = true
    /\ (bf16_isnan a = true -> r = a)
    /\ (bf16_isnan a = false -> r = b).
Proof.
  intros Hnan. unfold bf16_add.
  destruct (bf16_isnan a) eqn:Na.
  - apply bf16_isnan_split in Na as [Ea Ma]. apply Z.eqb_neq in Ma.
    rewrite Ea, Ma. cbn. exists a.
    repeat split; try discriminate.
    rewrite bf16_isnan_fields, Ea, Ma. reflexivity.
  - destruct Hnan as [Hn|Nb]; [discriminate|].
    pose proof Nb as Nb'. apply bf16_isnan_split in Nb' as [Eb Mb].
    apply Z.eqb_neq in Mb. exists b.
    split; [|repeat split; try discriminate; exact Nb].
    rewrite bf16_isnan_fields in Na. rewrite Eb, Mb.
    destruct (bf16_exp a =? 255); cbn in Na |- *; [rewrite Na|]; reflexivity.
Qed.

Lemma bf16_add_nan_closure_witness :
  exists r,
    bf16_add {| bits := 0xFF80 |} {| bits := 0x7FA5 |} = Some r
    /\ bf16_isnan r = true
    /\ (bf16_isnan {| bits := 0xFF80 |} = true -> r = {| bits := 0xFF80 |})
    /\ (bf16_isnan {| bits := 0xFF80 |} = false -> r = {| bits := 0x7FA5 |}).
Proof. apply bf16_add_nan_closure. right. reflexivity. Defined.

(** X9: infinities in addition: an infinity absorbs every finite operand, in
    either position; two infinities of one sign give the second one; two
    infinities of different signs give the canonical NaN. *)
Theorem bf16_add_infinity (a b : bf16_t) :
  (bf16_isinf a = true -> bf16_finite b -> bf16_add a b = Some a)
  /\ (bf16_finite a -> bf16_isinf b = true -> bf16_add a b = Some b)
  /\ (bf16_isinf a = true -> bf16_isinf b = true ->
      bf16_add a b = Some (if bf16_sign a =? bf16_sign b then b else BF16_NAN)).
Proof.
  unfold bf16_add. repeat split.
  - intros Ia Fb. apply bf16_isinf_split in Ia as [Ea Ma].
    apply bf16_finite_exp in Fb. apply Z.eqb_neq in Fb.
    rewrite Ea, Ma, Fb. reflexivity.
  - intros Fa Ib. apply bf16_isinf_split in Ib as [Eb Mb].
    apply bf16_finite_exp in Fa. apply Z.eqb_neq in Fa.
    rewrite Fa, Eb. reflexivity.
  - intros Ia Ib. apply bf16_isinf_split in Ia as [Ea Ma].
    apply bf16_isinf_split in Ib as [Eb Mb].
    rewrite Ea, Ma, Eb, Mb. reflexivity.
Qed.

Lemma bf16_add_infinity_witness :
  bf16_add {| bits := 0xFF80 |} {| bits := 0x7F7F |} = Some {| bits := 0xFF80 |}
  /\ bf16_add {| bits := 0x7F7F |} {| bits := 0xFF80 |} = Some {| bits := 0xFF80 |}
  /\ bf16_add {| bits := 0xFF80 |} {| bits := 0x7F80 |} = Some BF16_NAN.
Proof.
  destruct (bf16_add_infinity {| bits := 0xFF80 |} {| bits := 0x7F7F |})
    as (H1 & _ & _).
  destruct (bf16_add_infinity {| bits := 0x7F7F |} {| bits := 0xFF80 |})
    as (_ & H2 & _).
  destruct (bf16_add_infinity {| bits := 0xFF80 |} {| bits := 0x7F80 |})
    as (_ & _ & H3).
  split; [apply H1; [reflexivity|split; reflexivity]|].
  split; [apply H2; [split; reflexivity|reflexivity]|].
  apply H3; reflexivity.
Defined.

(** X10: zeros in addition: a zero first operand gives the second operand,
    whatever it is (finite, infinity, NaN or the other zero); a zero second
    operand gives the first one when that is not a zero.  The sign of the
    zero plays no part. *)
Theorem bf16_add_zero (a b : bf16_t) :
  (bf16_iszero a = true -> bf16_add a b = Some b)
  /\ (bf16_iszero b = true -> bf16_iszero a = false -> bf16_add a b = Some a).
Proof.
  unfold bf16_add. split.
  - intros Za. apply bf16_iszero_split in Za as [Ea Ma].
    rewrite Ea, Ma. cbn. destruct (bf16_exp b =? 255); reflexivity.
  - intros Zb Za. apply bf16_iszero_split in Zb as [Eb Mb].
    apply bf16_nonzero_fields in Za. rewrite Eb, Mb, Za. cbn.
    destruct (bf16_exp a =? 255); [|reflexivity].
    destruct (negb (bf16_mant a =? 0)); reflexivity.
Qed.

Lemma bf16_add_zero_witness :
  bf16_add {| bits := 0x8000 |} {| bits := 0x0001 |} = Some {| bits := 0x0001 |}
  /\ bf16_add {| bits := 0x7F80 |} {| bits := 0x8000 |} = Some {| bits := 0x7F80 |}.
Proof.
  split.
  - apply (bf16_add_zero {| bits := 0x8000 |} {| bits := 0x0001 |}). reflexivity.
  - apply (bf16_add_zero {| bits := 0x7F80 |} {| bits := 0x8000 |}); reflexivity.
Defined.

(** X11: zeros in subtraction: subtracting from a zero gives the negated
    second operand, subtracting a zero from a nonzero pattern gives that
    pattern, and subtracting a NaN gives the NaN with its sign bit flipped
    unless the first operand is a NaN. *)
Theorem bf16_sub_special (a b : bf16_t) :
  bf16_wf b ->
  (bf16_iszero a = true -> bf16_sub a b = Some (bf16_flip_sign b))
  /\ (bf16_iszero b = true -> bf16_iszero a = false -> bf16_sub a b = Some a)
  /\ (bf16_isnan b = true -> bf16_isnan a = false ->
      bf16_sub a b = Some (bf16_flip_sign b)).
Proof.
  intros Wb. unfold bf16_sub.
  destruct (bf16_flip_sign_fields b Wb) as (Hs & He & Hm).
  repeat split.
  - intros Za. apply bf16_iszero_split in Za as [Ea Ma].
    unfold bf16_add. rewrite Ea, Ma. cbn.
    destruct (bf16_exp (bf16_flip_sign b) =? 255); reflexivity.
  - intros Zb Za. apply bf16_iszero_split in Zb as [Eb Mb].
    apply bf16_nonzero_fields in Za.
    unfold bf16_add. rewrite He, Hm, Eb, Mb, Za. cbn.
    destruct (bf16_exp a =? 255); [|reflexivity].
    destruct (negb (bf16_mant a =? 0)); reflexivity.
  - intros Nb Na. apply bf16_isnan_split in Nb as [Eb Mb]. apply Z.eqb_neq in Mb.
    rewrite bf16_isnan_fields in Na.
    unfold bf16_add. rewrite He, Hm, Eb, Mb.
    destruct (bf16_exp a =? 255); cbn in Na |- *; [rewrite Na|]; reflexivity.
Qed.

Lemma bf16_sub_special_witness :
  bf16_sub {| bits := 0x0000 |} {| bits := 0x4049 |} = Some {| bits := 0xC049 |}
  /\ bf16_sub {| bits := 0x4049 |} {| bits := 0x0000 |} = Some {| bits := 0x4049 |}
  /\ bf16_sub {| bits := 0x4049 |} {| bits := 0x7FC0 |} = Some {| bits := 0xFFC0 |}.
Proof.
  assert (W : forall x, 0 <= x < 65536 -> bf16_wf {| bits := x |})
    by (intros x Hx; exact Hx).
  destruct (bf16_sub_special {| bits := 0x0000 |} {| bits := 0x4049 |}) as (H1 & _ & _);
    [apply W; lia|].
  destruct (bf16_sub_special {| bits := 0x4049 |} {| bits := 0x0000 |}) as (_ & H2 & _);
    [apply W; lia|].
  destruct (bf16_sub_special {| bits := 0x4049 |} {| bits := 0x7FC0 |}) as (_ & _ & H3);
    [apply W; lia|].
  split; [apply H1; reflexivity|].
  split; [apply H2; reflexivity|apply H3; reflexivity].
Defined.

(** ** Addition: the same-sign sum in closed form *)

(** The shift loop with [k] passes to go: it ends with the mantissa shifted
    [k] times, or with the canonical NaN once the exponent reaches 255. *)
Lemma add_shift_loop_run (k : nat) :
  forall fuel i lz m e,
    (k < fuel)%nat ->
    0 <= i -> u32 (u32 (32 - lz) - 8) = i + Z.of_nat k ->
    0 <= e < 255 ->
    add_shift_loop fuel i lz m e
    = Some (if e + Z.of_nat k <? 255
            then Next (Z.shiftr m (Z.of_nat k), e + Z.of_nat k)
            else Return BF16_NAN).
Proof.
  induction k as [|k IH]; intros fuel i lz m e Hfuel Hi Hbound He;
    (destruct fuel as [|fuel]; [lia|]); cbn [add_shift_loop]; rewrite Hbound.
  - cbn [Z.of_nat]. rewrite !Z.add_0_r, Z.ltb_irrefl, Z.shiftr_0_r.
    destruct (Z.ltb_spec e 255); [reflexivity|lia].
  - destruct (Z.ltb_spec i (i + Z.of_nat (S k))); [|lia].
    rewrite s16_small by lia.
    pose proof (u32_range (u32 (32 - lz) - 8)) as HN.
    destruct (Z.geb_spec (e + 1) 255) as [Hov|Hok].
    + destruct (Z.ltb_spec (e + Z.of_nat (S k)) 255); [lia|reflexivity].
    + rewrite u32_small by lia.
      rewrite (IH fuel (i + 1) lz (Z.shiftr m 1) (e + 1)) by lia.
      rewrite Z.shiftr_shiftr by lia.
      replace (e + 1 + Z.of_nat k) with (e + Z.of_nat (S k)) by lia.
      replace (1 + Z.of_nat k) with (Z.of_nat (S k)) by lia.
      reflexivity.
Qed.

(** Lines 162-170 and 196-199 for a sum that has reached bit 7. *)
Lemma add_aligned_same_sign_renorm sign mant_a mant_b result_exp :
  128 <= mant_a + mant_b < 4294967296 -> 0 <= result_exp < 255 ->
  add_aligned sign sign mant_a mant_b result_exp
  = Some (if result_exp + (Z.log2 (mant_a + mant_b) - 7) <? 255
          then bf16_pack sign (result_exp + (Z.log2 (mant_a + mant_b) - 7))
                 (Z.shiftr (mant_a + mant_b) (Z.log2 (mant_a + mant_b) - 7))
          else BF16_NAN).
Proof.
  intros Hsum He. unfold add_aligned. rewrite Z.eqb_refl.
  rewrite u32_small by lia. rewrite clz_value by (change (2 ^ 32) with 4294967296; lia).
  destruct (Z.eqb_spec (mant_a + mant_b) 0); [lia|]. cbn [bind].
  assert (Hlog : 7 <= Z.log2 (mant_a + mant_b) < 32).
  { split.
    - apply (proj1 (Z.log2_le_pow2 (mant_a + mant_b) 7 ltac:(lia))). change (2 ^ 7) with 128. lia.
    - apply Z.log2_lt_pow2; [lia|]. change (2 ^ 32) with 4294967296. lia. }
  set (l := Z.log2 (mant_a + mant_b)) in *.
  rewrite (add_shift_loop_run (Z.to_nat (l - 7)) 256 0 (31 - l)).
  - rewrite Z2Nat.id by lia. cbn [bind].
    destruct (result_exp + (l - 7) <? 255); reflexivity.
  - lia.
  - lia.
  - rewrite Z2Nat.id by lia.
    rewrite (u32_small (32 - (31 - l))) by lia. rewrite u32_small by lia. lia.
  - exact He.
Qed.

(** Same-sign addition when the first operand has the larger (or the same)
    exponent: lines 149-153 and 159-160 for the alignment. *)
Lemma bf16_add_same_sign_ordered (a b : bf16_t) :
  bf16_finite a -> bf16_finite b ->
  bf16_iszero a = false -> bf16_iszero b = false ->
  bf16_sign a = bf16_sign b ->
  0 <= bf16_exp a - bf16_exp b <= 8 ->
  let Ma := if bf16_exp a =? 0 then bf16_mant a else bf16_mant a + 128 in
  let Mb := if bf16_exp b =? 0 then bf16_mant b else bf16_mant b + 128 in
  let S := Ma * 2 ^ (bf16_exp a - bf16_exp b) + Mb in
  let k := Z.log2 S - 7 in
  128 <= S ->
  bf16_add a b
  = Some (if bf16_exp b + k <? 255
          then bf16_pack (bf16_sign a) (bf16_exp b + k) (Z.shiftr S k)
          else BF16_NAN).
Proof.
  intros Fa Fb Za Zb Hs Hd Ma Mb S k HS.
  apply bf16_finite_exp in Fa, Fb. apply bf16_nonzero_fields in Za, Zb.
  field_ranges a b.
  assert (Hpow : 0 < 2 ^ (bf16_exp a - bf16_exp b) <= 256).
  { change 256 with (2 ^ 8). apply pow2_le_mono. lia. }
  assert (HMa : 0 <= Ma < 256) by (unfold Ma; destruct (bf16_exp a =? 0); lia).
  assert (HMb : 0 <= Mb < 256) by (unfold Mb; destruct (bf16_exp b =? 0); lia).
  assert (Ea : (if bf16_exp a =? 0 then bf16_mant a
                else u16 (Z.lor (bf16_mant a) 128)) = Ma).
  { unfold Ma. destruct (bf16_exp a =? 0); [reflexivity|].
    rewrite lor_0x80, u16_small by lia. reflexivity. }
  assert (Eb : (if bf16_exp b =? 0 then bf16_mant b
                else u16 (Z.lor (bf16_mant b) 128)) = Mb).
  { unfold Mb. destruct (bf16_exp b =? 0); [reflexivity|].
    rewrite lor_0x80, u16_small by lia. reflexivity. }
  unfold bf16_add.
  destruct (Z.eqb_spec (bf16_exp a) 255) as [E|_]; [contradiction|].
  destruct (Z.eqb_spec (bf16_exp b) 255) as [E|_]; [contradiction|].
  rewrite Za, Zb, Ea, Eb, <- Hs, s16_small by lia.
  destruct (Z.gtb_spec (bf16_exp a - bf16_exp b) 0) as [Hgt|Hle].
  - destruct (Z.gtb_spec (bf16_exp a - bf16_exp b) 8); [lia|].
    rewrite Z.shiftl_mul_pow2 by lia. rewrite u16_small by nia.
    apply add_aligned_same_sign_renorm; [fold S; nia|lia].
  - destruct (Z.ltb_spec (bf16_exp a - bf16_exp b) 0); [lia|].
    assert (E0 : bf16_exp a - bf16_exp b = 0) by lia.
    assert (ES : S = Ma + Mb) by (unfold S; rewrite E0; change (2 ^ 0) with 1; lia).
    assert (Eab : bf16_exp a = bf16_exp b) by lia.
    unfold k. rewrite ES, <- Eab.
    apply add_aligned_same_sign_renorm; lia.
Qed.

(** X12: same-sign addition in closed form, in either operand order.  For
    finite nonzero operands of one sign whose exponents differ by [d] at most
    8, with [S] the sum of the mantissas, leading bits restored and the one of
    the larger exponent shifted left by [d]: when [S] reaches bit 7, the
    result has the smaller exponent raised by [k = floor (log2 S) - 7] and the
    mantissa field of [S] shifted right by [k] (the bits shifted out are
    dropped), and is the canonical NaN, not infinity, when the raised exponent
    reaches 255. *)
Theorem bf16_add_same_sign (a b : bf16_t) :
  bf16_finite a -> bf16_finite b ->
  bf16_iszero a = false -> bf16_iszero b = false ->
  bf16_sign a = bf16_sign b ->
  -8 <= bf16_exp a - bf16_exp b <= 8 ->
  let Ma := if bf16_exp a =? 0 then bf16_mant a else bf16_mant a + 128 in
  let Mb := if bf16_exp b =? 0 then bf16_mant b else bf16_mant b + 128 in
  let d := Z.abs (bf16_exp a - bf16_exp b) in
  let S := if bf16_exp b <=? bf16_exp a
           then Ma * 2 ^ d + Mb else Ma + Mb * 2 ^ d in
  let e := Z.min (bf16_exp a) (bf16_exp b) in
  let k := Z.log2 S - 7 in
  128 <= S ->
  bf16_add a b
  = Some (if e + k <? 255
          then bf16_pack (bf16_sign a) (e + k) (Z.shiftr S k)
          else BF16_NAN).
Proof.
  intros Fa Fb Za Zb Hs Hd Ma Mb d S e k HS.
  destruct (Z.leb_spec (bf16_exp b) (bf16_exp a)) as [Hle|Hgt].
  - assert (Ed : d = bf16_exp a - bf16_exp b) by (unfold d; lia).
    assert (Ee : e = bf16_exp b) by (unfold e; lia).
    unfold k. subst S. rewrite Ee, Ed in *.
    apply bf16_add_same_sign_ordered; try assumption. lia.
  - assert (Ed : d = bf16_exp b - bf16_exp a) by (unfold d; lia).
    assert (Ee : e = bf16_exp a) by (unfold e; lia).
    rewrite bf16_add_comm_finite.
    + unfold k. subst S. rewrite Ee, Ed, Hs in *.
      replace (Ma + Mb * 2 ^ (bf16_exp b - bf16_exp a))
        with (Mb * 2 ^ (bf16_exp b - bf16_exp a) + Ma) in * by ring.
      apply bf16_add_same_sign_ordered; try assumption; [congruence|lia].
    + apply bf16_finite_exp. exact Fa.
    + apply bf16_finite_exp. exact Fb.
    + intros Ha. rewrite Ha in Za. discriminate.
Qed.

Lemma bf16_add_same_sign_witness :
  bf16_add {| bits := 0x40C0 |} {| bits := 0x3FC0 |} = Some {| bits := 0x40F0 |}
  /\ bf16_add {| bits := 0x3FC0 |} {| bits := 0x40C0 |} = Some {| bits := 0x40F0 |}
  /\ bf16_add {| bits := 0x7F00 |} {| bits := 0x7F7F |} = Some BF16_NAN.
Proof.
  split; [|split].
  - apply (bf16_add_same_sign {| bits := 0x40C0 |} {| bits := 0x3FC0 |}).
    + split; reflexivity.
    + split; reflexivity.
    + reflexivity.
    + reflexivity.
    + reflexivity.
    + vm_compute. split; discriminate.
    + vm_compute. discriminate.
  - apply (bf16_add_same_sign {| bits := 0x3FC0 |} {| bits := 0x40C0 |}).
    + split; reflexivity.
    + split; reflexivity.
    + reflexivity.
    + reflexivity.
    + reflexivity.
    + vm_compute. split; discriminate.
    + vm_compute. discriminate.
  - apply (bf16_add_same_sign {| bits := 0x7F00 |} {| bits := 0x7F7F |}).
    + split; reflexivity.
    + split; reflexivity.
    + reflexivity.
    + reflexivity.
    + reflexivity.
    + vm_compute. split; discriminate.
    + vm_compute. discriminate.
Defined.

(** ** Multiplication of normal operands; doubling and the unit *)

Lemma bf16_pack_mant_mod s e m m' :
  m mod 128 = m' mod 128 -> bf16_pack s e m = bf16_pack s e m'.
Proof.
  intros H. unfold bf16_pack. rewrite !land_0x7F, H. reflexivity.
Qed.

Lemma bf16_pack_exp_mod s e e' m :
  e mod 256 = e' mod 256 -> bf16_pack s e m = bf16_pack s e' m.
Proof.
  intros H. unfold bf16_pack. rewrite !land_0xFF, H. reflexivity.
Qed.

(** A 16-bit pattern is determined by its three fields. *)
Lemma bf16_eq_of_fields a b :
  bf16_wf a -> bf16_wf b ->
  bf16_sign a = bf16_sign b -> bf16_exp a = bf16_exp b ->
  bf16_mant a = bf16_mant b -> a = b.
Proof.
  intros Wa Wb Hs He Hm.
  pose proof (bf16_fields a Wa) as Fa. pose proof (bf16_fields b Wb) as Fb.
  destruct a as [x], b as [y]. cbn [bits] in Fa, Fb. f_equal. lia.
Qed.

Lemma bf16_signed_inf_wf s : bf16_wf (bf16_signed_inf s).
Proof. unfold bf16_wf, bf16_signed_inf. cbn [bits]. apply u16_range. Qed.

Lemma bf16_signed_zero_wf s : bf16_wf (bf16_signed_zero s).
Proof. unfold bf16_wf, bf16_signed_zero. cbn [bits]. apply u16_range. Qed.

Lemma bf16_pack_wf s e m : bf16_wf (bf16_pack s e m).
Proof. unfold bf16_wf, bf16_pack. cbn [bits]. apply u16_range. Qed.

(** Two normal operands skip the normalization loops. *)
Lemma bf16_mul_normal a b :
  0 < bf16_exp a < 255 -> 0 < bf16_exp b < 255 ->
  bf16_mul a b
  = Some (let '(result_mant, result_exp) :=
            mul_product (bf16_mant a + 128) (bf16_exp a)
              (bf16_mant b + 128) (bf16_exp b) 0 in
          mul_round (Z.lxor (bf16_sign a) (bf16_sign b)) result_mant result_exp).
Proof.
  intros Ha Hb. field_ranges a b. unfold bf16_mul, mul_normalize.
  destruct (Z.eqb_spec (bf16_exp a) 255); [lia|].
  destruct (Z.eqb_spec (bf16_exp b) 255); [lia|].
  destruct (Z.eqb_spec (bf16_exp a) 0); [lia|].
  destruct (Z.eqb_spec (bf16_exp b) 0); [lia|].
  cbn [andb orb bind].
  rewrite !lor_0x80, !u16_small by lia.
  rewrite (proj2 (result_sign_range a b)).
  destruct (mul_product _ _ _ _ _). reflexivity.
Qed.

(** The product of an 8-bit mantissa with the mantissa 0x80 of a power of two. *)
Lemma mul_product_pow2 mant exp_a exp_b :
  0 <= mant < 128 -> 0 <= exp_a <= 255 -> 0 <= exp_b <= 255 ->
  mul_product (mant + 128) exp_a 128 exp_b 0 = (mant, exp_a + exp_b - 127).
Proof.
  intros Hm Ha Hb. unfold mul_product, BF16_EXP_BIAS.
  rewrite u32_small by lia.
  rewrite (s32_small (exp_a + exp_b - 127 + 0)) by lia.
  rewrite land_0x8000, Z.div_small by lia.
  change (32768 * (0 mod 2) =? 0) with true. cbn [negb].
  rewrite land_0x7F, Z.shiftr_div_pow2 by lia. change (2 ^ 7) with 128.
  f_equal; [zdivmod|lia].
Qed.

(** X13: doubling.  For a normal [x] with stored exponent below 254, adding
    [x] to itself and multiplying [x] by 2.0 return the same pattern: [x]
    with its exponent field raised by one. *)
Theorem bf16_add_self_is_double (x : bf16_t) :
  0 < bf16_exp x < 254 ->
  exists r,
    bf16_add x x = Some r
    /\ bf16_mul x bf16_two = Some r
    /\ bf16_sign r = bf16_sign x
    /\ bf16_exp r = bf16_exp x + 1
    /\ bf16_mant r = bf16_mant x.
Proof.
  intros He. field_ranges x x.
  exists (bf16_pack (bf16_sign x) (bf16_exp x + 1) (bf16_mant x)).
  split; [|split].
  - unfold bf16_add.
    destruct (Z.eqb_spec (bf16_exp x) 255); [lia|].
    destruct (Z.eqb_spec (bf16_exp x) 0); [lia|]. cbn [andb].
    rewrite Z.sub_diag. change (s16 0) with 0. cbn [Z.gtb Z.ltb Z.compare].
    rewrite lor_0x80, u16_small by lia.
    rewrite add_aligned_same_sign_renorm by lia.
    replace (bf16_mant x + 128 + (bf16_mant x + 128))
      with (2 * (bf16_mant x + 128)) by lia.
    assert (Hlog : Z.log2 (2 * (bf16_mant x + 128)) = 8).
    { apply Z.log2_unique; [lia|]. change (2 ^ 8) with 256.
      change (2 ^ Z.succ 8) with 512. lia. }
    rewrite Hlog. change (8 - 7) with 1.
    destruct (Z.ltb_spec (bf16_exp x + 1) 255); [|lia].
    f_equal. apply bf16_pack_mant_mod.
    rewrite Z.shiftr_div_pow2 by lia. change (2 ^ 1) with 2. zdivmod.
  - rewrite bf16_mul_normal by (try exact (conj (proj1 He) ltac:(lia)); cbn; lia).
    change (bf16_mant bf16_two + 128) with 128.
    change (bf16_exp bf16_two) with 128. change (bf16_sign bf16_two) with 0.
    rewrite mul_product_pow2, Z.lxor_0_r by lia. unfold mul_round.
    destruct (Z.geb_spec (bf16_exp x + 128 - 127) 255); [lia|].
    destruct (Z.leb_spec (bf16_exp x + 128 - 127) 0); [lia|].
    f_equal. apply bf16_pack_exp_mod. f_equal. lia.
  - destruct (bf16_pack_fields (bf16_sign x) (bf16_exp x + 1) (bf16_mant x))
      as (S1 & S2 & S3); [lia|].
    rewrite S1, S2, S3. rewrite !Z.mod_small by lia. repeat split.
Qed.

Lemma bf16_add_self_is_double_witness :
  exists r,
    bf16_add {| bits := 0xC2F7 |} {| bits := 0xC2F7 |} = Some r
    /\ bf16_mul {| bits := 0xC2F7 |} bf16_two = Some r
    /\ bf16_sign r = bf16_sign {| bits := 0xC2F7 |}
    /\ bf16_exp r = bf16_exp {| bits := 0xC2F7 |} + 1
    /\ bf16_mant r = bf16_mant {| bits := 0xC2F7 |}.
Proof. apply bf16_add_self_is_double. vm_compute. split; reflexivity. Defined.

(** X14: at the top exponent the two ways of doubling part: for a normal [x]
    with stored exponent 254, [x + x] is the canonical NaN, and [x * 2.0] is
    the infinity of the sign of [x]. *)
Theorem bf16_double_overflow (x : bf16_t) :
  bf16_exp x = 254 ->
  bf16_add x x = Some BF16_NAN
  /\ bf16_mul x bf16_two = Some (bf16_signed_inf (bf16_sign x)).
Proof.
  intros He. field_ranges x x. split.
  - unfold bf16_add. rewrite He. cbn [Z.eqb Pos.eqb andb].
    change (s16 (254 - 254)) with 0. cbn [Z.gtb Z.ltb Z.compare].
    rewrite lor_0x80, u16_small by lia.
    rewrite add_aligned_same_sign_renorm by lia.
    replace (bf16_mant x + 128 + (bf16_mant x + 128))
      with (2 * (bf16_mant x + 128)) by lia.
    assert (Hlog : Z.log2 (2 * (bf16_mant x + 128)) = 8).
    { apply Z.log2_unique; [lia|]. change (2 ^ 8) with 256.
      change (2 ^ Z.succ 8) with 512. lia. }
    rewrite Hlog. reflexivity.
  - rewrite bf16_mul_normal by (cbn; lia).
    change (bf16_mant bf16_two + 128) with 128.
    change (bf16_exp bf16_two) with 128. change (bf16_sign bf16_two) with 0.
    rewrite mul_product_pow2, Z.lxor_0_r, He by lia. reflexivity.
Qed.

Lemma bf16_double_overflow_witness :
  bf16_add {| bits := 0xFF7F |} {| bits := 0xFF7F |} = Some BF16_NAN
  /\ bf16_mul {| bits := 0xFF7F |} bf16_two = Some {| bits := 0xFF80 |}.
Proof. apply (bf16_double_overflow {| bits := 0xFF7F |}). reflexivity. Defined.

(** X15: 1.0 is a unit of multiplication on every 16-bit pattern that is not
    denormal: zeros, normal values, infinities and NaNs are returned
    unchanged, with 1.0 as either operand. *)
Theorem bf16_mul_one (x : bf16_t) :
  bf16_wf x ->
  (bf16_exp x = 0 -> bf16_mant x = 0) ->
  bf16_mul x bf16_one = Some x /\ bf16_mul bf16_one x = Some x.
Proof.
  intros Wx Hden. field_ranges x x.
  assert (Hone : bf16_exp bf16_one = 127 /\ bf16_mant bf16_one = 0
                 /\ bf16_sign bf16_one = 0) by (repeat split; reflexivity).
  destruct Hone as (E1 & M1 & S1).
  destruct (Z.eq_dec (bf16_exp x) 255) as [Einf|Efin].
  - (* infinity or NaN *)
    unfold bf16_mul. rewrite Einf, E1, M1, S1, Z.lxor_0_r, Z.lxor_0_l.
    cbn [Z.eqb Pos.eqb andb].
    destruct (Z.eqb_spec (bf16_mant x) 0) as [M0|Mnz]; cbn [negb];
      [|split; reflexivity].
    rewrite u16_small by lia.
    assert (Ex : bf16_signed_inf (bf16_sign x) = x).
    { destruct (bf16_signed_inf_fields (bf16_sign x)) as (A & B & C); [lia|].
      apply bf16_eq_of_fields; try lia; [apply bf16_signed_inf_wf|exact Wx]. }
    rewrite Ex. split; reflexivity.
  - destruct (Z.eq_dec (bf16_exp x) 0) as [E0|Enz].
    + (* zero *)
      specialize (Hden E0).
      assert (Ex : bf16_signed_zero (bf16_sign x) = x).
      { destruct (bf16_signed_zero_fields (bf16_sign x)) as (A & B & C); [lia|].
        apply bf16_eq_of_fields; try lia; [apply bf16_signed_zero_wf|exact Wx]. }
      unfold bf16_mul. rewrite E0, Hden, E1, M1, S1, Z.lxor_0_r, Z.lxor_0_l.
      cbn [Z.eqb Pos.eqb andb orb]. rewrite u16_small by lia.
      rewrite Ex. split; reflexivity.
    + (* normal *)
      assert (Hx : bf16_mul x bf16_one = Some x).
      { rewrite bf16_mul_normal by (rewrite ?E1; lia).
        rewrite E1, M1, S1. change (0 + 128) with 128.
        rewrite mul_product_pow2, Z.lxor_0_r by lia. unfold mul_round.
        destruct (Z.geb_spec (bf16_exp x + 127 - 127) 255); [lia|].
        destruct (Z.leb_spec (bf16_exp x + 127 - 127) 0); [lia|].
        replace (bf16_exp x + 127 - 127) with (bf16_exp x) by lia.
        f_equal.
        destruct (bf16_pack_fields (bf16_sign x) (bf16_exp x) (bf16_mant x))
          as (A & B & C); [lia|].
        rewrite Z.mod_small in B, C by lia.
        apply bf16_eq_of_fields; try assumption. apply bf16_pack_wf. }
      split; [exact Hx|].
      rewrite <- Hx. apply bf16_mul_comm_finite; [rewrite E1; discriminate|exact Efin].
Qed.

Lemma bf16_mul_one_witness :
  bf16_mul {| bits := 0xC2F7 |} bf16_one = Some {| bits := 0xC2F7 |}
  /\ bf16_mul bf16_one {| bits := 0xC2F7 |} = Some {| bits := 0xC2F7 |}.
Proof.
  apply bf16_mul_one.
  - unfold bf16_wf. cbn. lia.
  - intros E. discriminate E.
Defined.

(** ** Multiplication: special operands and the sign *)

(** X16: NaN operands of multiplication.  A NaN first operand is returned as
    it is; a NaN second operand is returned as it is when the first operand
    is finite; but an infinite first operand wins over a NaN second one: the
    result is then the infinity with the XOR of the signs. *)
Theorem bf16_mul_nan (a b : bf16_t) :
  (bf16_isnan a = true -> bf16_mul a b = Some a)
  /\ (bf16_finite a -> bf16_isnan b = true -> bf16_mul a b = Some b)
  /\ (bf16_isinf a = true -> bf16_isnan b = true ->
      exists r, bf16_mul a b = Some r
                /\ bf16_isinf r = true /\ bf16_isnan r = false
                /\ bf16_sign r = Z.lxor (bf16_sign a) (bf16_sign b)).
Proof.
  split; [|split].
  - intros Na. apply bf16_isnan_split in Na as [Ea Ma]. apply Z.eqb_neq in Ma.
    unfold bf16_mul. rewrite Ea, Ma. reflexivity.
  - intros Fa Nb. apply bf16_finite_exp in Fa. apply Z.eqb_neq in Fa.
    apply bf16_isnan_split in Nb as [Eb Mb]. apply Z.eqb_neq in Mb.
    unfold bf16_mul. rewrite Fa, Eb, Mb. reflexivity.
  - intros Ia Nb. apply bf16_isinf_split in Ia as [Ea Ma].
    apply bf16_isnan_split in Nb as [Eb Mb].
    destruct (result_sign_range a b) as [Hs Hu].
    exists (bf16_signed_inf (Z.lxor (bf16_sign a) (bf16_sign b))).
    rewrite Hu in Hs.
    destruct (bf16_signed_inf_fields _ Hs) as (S1 & S2 & S3).
    rewrite bf16_isinf_fields, bf16_isnan_fields, S1, S2, S3.
    split; [|repeat split].
    unfold bf16_mul. rewrite Ea, Ma, Eb, Hu. reflexivity.
Qed.

Lemma bf16_mul_nan_witness :
  bf16_mul {| bits := 0x7FC1 |} {| bits := 0x0000 |} = Some {| bits := 0x7FC1 |}
  /\ bf16_mul {| bits := 0x0000 |} {| bits := 0x7FC1 |} = Some {| bits := 0x7FC1 |}
  /\ exists r, bf16_mul {| bits := 0xFF80 |} {| bits := 0x7FC1 |} = Some r
               /\ bf16_isinf r = true /\ bf16_isnan r = false
               /\ bf16_sign r = Z.lxor (bf16_sign {| bits := 0xFF80 |})
                                       (bf16_sign {| bits := 0x7FC1 |}).
Proof.
  destruct (bf16_mul_nan {| bits := 0x7FC1 |} {| bits := 0x0000 |}) as (H1 & _ & _).
  destruct (bf16_mul_nan {| bits := 0x0000 |} {| bits := 0x7FC1 |}) as (_ & H2 & _).
  destruct (bf16_mul_nan {| bits := 0xFF80 |} {| bits := 0x7FC1 |}) as (_ & _ & H3).
  split; [apply H1; reflexivity|].
  split; [apply H2; [split|]; reflexivity|].
  apply H3; reflexivity.
Defined.

(** X17: infinities and zeros in multiplication.  Infinity times zero is the
    canonical NaN in either order; infinity times a pattern that is neither
    zero nor NaN is the infinity with the XOR of the signs, in either order;
    zero times a finite pattern is the zero with the XOR of the signs, in
    either order. *)
Theorem bf16_mul_infinity_zero (a b : bf16_t) :
  (bf16_isinf a = true -> bf16_iszero b = true ->
   bf16_mul a b = Some BF16_NAN /\ bf16_mul b a = Some BF16_NAN)
  /\ (bf16_isinf a = true -> bf16_iszero b = false -> bf16_isnan b = false ->
      exists r, bf16_mul a b = Some r /\ bf16_mul b a = Some r
                /\ bf16_isinf r = true
                /\ bf16_sign r = Z.lxor (bf16_sign a) (bf16_sign b))
  /\ (bf16_iszero a = true -> bf16_finite b ->
      exists r, bf16_mul a b = Some r /\ bf16_mul b a = Some r
                /\ bf16_iszero r = true
                /\ bf16_sign r = Z.lxor (bf16_sign a) (bf16_sign b)).
Proof.
  destruct (result_sign_range a b) as [Hs Hu]. rewrite Hu in Hs.
  split; [|split].
  - intros Ia Zb. apply bf16_isinf_split in Ia as [Ea Ma].
    apply bf16_iszero_split in Zb as [Eb Mb].
    unfold bf16_mul. rewrite Ea, Ma, Eb, Mb. split; reflexivity.
  - intros Ia Zb Nb. apply bf16_isinf_split in Ia as [Ea Ma].
    apply bf16_nonzero_fields in Zb. rewrite bf16_isnan_fields in Nb.
    exists (bf16_signed_inf (Z.lxor (bf16_sign a) (bf16_sign b))).
    destruct (bf16_signed_inf_fields _ Hs) as (S1 & S2 & S3).
    rewrite bf16_isinf_fields, S1, S2, S3.
    split; [|split; [|split; reflexivity]].
    + unfold bf16_mul. rewrite Ea, Ma, Zb, Hu. reflexivity.
    + unfold bf16_mul. rewrite Ea, Ma, Zb, (Z.lxor_comm (bf16_sign b)), Hu.
      destruct (bf16_exp b =? 255); cbn in Nb |- *; [rewrite Nb|]; reflexivity.
  - intros Za Fb. apply bf16_iszero_split in Za as [Ea Ma].
    apply bf16_finite_exp in Fb. apply Z.eqb_neq in Fb.
    exists (bf16_signed_zero (Z.lxor (bf16_sign a) (bf16_sign b))).
    destruct (bf16_signed_zero_fields _ Hs) as (S1 & S2 & S3).
    rewrite bf16_iszero_fields, S1, S2, S3.
    split; [|split; [|split; reflexivity]].
    + unfold bf16_mul. rewrite Ea, Ma, Fb, Hu. reflexivity.
    + unfold bf16_mul. rewrite Ea, Ma, Fb, (Z.lxor_comm (bf16_sign b)), Hu.
      cbn [Z.eqb andb]. rewrite orb_true_r. reflexivity.
Qed.

Lemma bf16_mul_infinity_zero_witness :
  (bf16_mul {| bits := 0x7F80 |} {| bits := 0x8000 |} = Some BF16_NAN
   /\ bf16_mul {| bits := 0x8000 |} {| bits := 0x7F80 |} = Some BF16_NAN)
  /\ (exists r, bf16_mul {| bits := 0x7F80 |} {| bits := 0x8001 |} = Some r
                /\ bf16_mul {| bits := 0x8001 |} {| bits := 0x7F80 |} = Some r
                /\ bf16_isinf r = true
                /\ bf16_sign r = Z.lxor (bf16_sign {| bits := 0x7F80 |})
                                        (bf16_sign {| bits := 0x8001 |}))
  /\ (exists r, bf16_mul {| bits := 0x8000 |} {| bits := 0x4049 |} = Some r
                /\ bf16_mul {| bits := 0x4049 |} {| bits := 0x8000 |} = Some r
                /\ bf16_iszero r = true
                /\ bf16_sign r = Z.lxor (bf16_sign {| bits := 0x8000 |})
                                        (bf16_sign {| bits := 0x4049 |})).
Proof.
  destruct (bf16_mul_infinity_zero {| bits := 0x7F80 |} {| bits := 0x8000 |})
    as (H1 & _ & _).
  destruct (bf16_mul_infinity_zero {| bits := 0x7F80 |} {| bits := 0x8001 |})
    as (_ & H2 & _).
  destruct (bf16_mul_infinity_zero {| bits := 0x8000 |} {| bits := 0x4049 |})
    as (_ & _ & H3).
  split; [apply H1; reflexivity|].
  split; [apply H2; reflexivity|].
  apply H3; [|split]; reflexivity.
Defined.

(** X18: the product of two finite patterns is never a NaN, and its sign bit
    is the XOR of the sign bits of the operands, also when the result is a
    zero or an infinity. *)
Theorem bf16_mul_finite_sign (a b : bf16_t) :
  bf16_finite a -> bf16_finite b ->
  exists r,
    bf16_mul a b = Some r
    /\ bf16_isnan r = false
    /\ bf16_sign r = Z.lxor (bf16_sign a) (bf16_sign b).
Proof.
  intros Fa Fb. apply bf16_finite_exp in Fa, Fb.
  destruct (result_sign_range a b) as [Hs Hu]. rewrite Hu in Hs.
  destruct (bf16_signed_zero_fields _ Hs) as (Z1 & Z2 & Z3).
  destruct (bf16_signed_inf_fields _ Hs) as (I1 & I2 & I3).
  destruct ((bf16_exp a =? 0) && (bf16_mant a =? 0)) eqn:Za;
    [|destruct ((bf16_exp b =? 0) && (bf16_mant b =? 0)) eqn:Zb].
  - exists (bf16_signed_zero (Z.lxor (bf16_sign a) (bf16_sign b))).
    rewrite bf16_isnan_fields, Z1, Z2, Z3. split; [|split; reflexivity].
    unfold bf16_mul. apply Z.eqb_neq in Fa, Fb. rewrite Fa, Fb, Za, Hu. reflexivity.
  - exists (bf16_signed_zero (Z.lxor (bf16_sign a) (bf16_sign b))).
    rewrite bf16_isnan_fields, Z1, Z2, Z3. split; [|split; reflexivity].
    unfold bf16_mul. apply Z.eqb_neq in Fa, Fb. rewrite Fa, Fb, Za, Zb, Hu. reflexivity.
  - destruct (bf16_mul_finite_nonzero a b Fa Fb Za Zb)
      as (m & e & _ & Hmul & Hm & He & _).
    rewrite Hmul. eexists. split; [reflexivity|]. unfold mul_round.
    destruct (Z.geb_spec e 255).
    { rewrite bf16_isnan_fields, I1, I2, I3. split; reflexivity. }
    destruct (Z.leb_spec e 0).
    + destruct (Z.ltb_spec e (-6)).
      { rewrite bf16_isnan_fields, Z1, Z2, Z3. split; reflexivity. }
      destruct (bf16_pack_fields (Z.lxor (bf16_sign a) (bf16_sign b)) 0
                  (u32 (Z.shiftr m (s32 (1 - e)))) Hs) as (P1 & P2 & P3).
      rewrite bf16_isnan_fields, P1, P2. split; reflexivity.
    + destruct (bf16_pack_fields (Z.lxor (bf16_sign a) (bf16_sign b)) e m Hs)
        as (P1 & P2 & P3).
      rewrite bf16_isnan_fields, P1, P2, Z.mod_small by lia.
      destruct (Z.eqb_spec e 255); [lia|]. split; reflexivity.
Qed.

Lemma bf16_mul_finite_sign_witness :
  exists r,
    bf16_mul {| bits := 0xFF7F |} {| bits := 0x7F7F |} = Some r
    /\ bf16_isnan r = false
    /\ bf16_sign r = Z.lxor (bf16_sign {| bits := 0xFF7F |})
                            (bf16_sign {| bits := 0x7F7F |}).
Proof. apply bf16_mul_finite_sign; split; reflexivity. Defined.

(** ** Division: special operands *)

(** X19: NaN operands of division that are kept.  A NaN divisor is returned
    as it is whatever the dividend; a NaN dividend is returned as it is when
    the divisor is finite and not zero. *)
Theorem bf16_div_nan_kept (a b : bf16_t) :
  (bf16_isnan b = true -> bf16_div a b = Some b)
  /\ (bf16_isnan a = true -> bf16_finite b -> bf16_iszero b = false ->
      bf16_div a b = Some a).
Proof.
  split.
  - apply bf16_div_nan_divisor.
  - apply bf16_div_nan_dividend.
Qed.

Lemma bf16_div_nan_kept_witness :
  bf16_div {| bits := 0x7F80 |} {| bits := 0xFFC5 |} = Some {| bits := 0xFFC5 |}
  /\ bf16_div {| bits := 0xFFC5 |} {| bits := 0x0001 |} = Some {| bits := 0xFFC5 |}.
Proof.
  destruct (bf16_div_nan_kept {| bits := 0x7F80 |} {| bits := 0xFFC5 |}) as [H1 _].
  destruct (bf16_div_nan_kept {| bits := 0xFFC5 |} {| bits := 0x0001 |}) as [_ H2].
  split; [apply H1; reflexivity|apply H2; [|split|]; reflexivity].
Defined.

(** X20: zeros and infinities in division, for operands that are not NaN.
    Zero by zero and infinity by infinity are the canonical NaN.  Otherwise a
    zero divisor or an infinite dividend gives the infinity with the XOR of
    the signs, and an infinite divisor or a zero dividend gives the zero with
    the XOR of the signs. *)
Theorem bf16_div_zero_infinity (a b : bf16_t) :
  bf16_isnan a = false -> bf16_isnan b = false ->
  (bf16_iszero a = true -> bf16_iszero b = true -> bf16_div a b = Some BF16_NAN)
  /\ (bf16_isinf a = true -> bf16_isinf b = true -> bf16_div a b = Some BF16_NAN)
  /\ ((bf16_iszero b = true /\ bf16_iszero a = false)
      \/ (bf16_isinf a = true /\ bf16_isinf b = false) ->
      exists r, bf16_div a b = Some r /\ bf16_isinf r = true
                /\ bf16_sign r = Z.lxor (bf16_sign a) (bf16_sign b))
  /\ ((bf16_isinf b = true /\ bf16_isinf a = false)
      \/ (bf16_iszero a = true /\ bf16_iszero b = false) ->
      exists r, bf16_div a b = Some r /\ bf16_iszero r = true
                /\ bf16_sign r = Z.lxor (bf16_sign a) (bf16_sign b)).
Proof.
  intros Na Nb.
  destruct (result_sign_range a b) as [Hs Hu]. rewrite Hu in Hs.
  destruct (bf16_signed_zero_fields _ Hs) as (Z1 & Z2 & Z3).
  destruct (bf16_signed_inf_fields _ Hs) as (I1 & I2 & I3).
  rewrite bf16_isnan_fields in Na, Nb.
  rewrite !bf16_isinf_fields, !bf16_iszero_fields.
  split; [|split; [|split]].
  - intros Za Zb. apply andb_true_iff in Za as [Ea Ma], Zb as [Eb Mb].
    apply Z.eqb_eq in Ea, Eb. unfold bf16_div. rewrite Ea, Eb, Ma, Mb. reflexivity.
  - intros Ia Ib. apply andb_true_iff in Ia as [Ea Ma], Ib as [Eb Mb].
    unfold bf16_div. rewrite Ea, Eb, Ma, Mb. reflexivity.
  - intros H. exists (bf16_signed_inf (Z.lxor (bf16_sign a) (bf16_sign b))).
    rewrite bf16_isinf_fields, I1, I2, I3. split; [|split; reflexivity].
    unfold bf16_div. rewrite Hu.
    destruct H as [[Zb Za]|[Ia Ib]].
    + apply andb_true_iff in Zb as [Eb Mb]. apply Z.eqb_eq in Eb.
      rewrite Eb, Mb. rewrite Za. reflexivity.
    + apply andb_true_iff in Ia as [Ea Ma]. apply Z.eqb_eq in Ea.
      rewrite Ea, Ma in *. cbn [Z.eqb Pos.eqb andb negb] in *.
      destruct (bf16_exp b =? 255); cbn [andb negb] in *;
        [rewrite Ib in Nb; discriminate|].
      destruct (_ && _); reflexivity.
  - intros H. exists (bf16_signed_zero (Z.lxor (bf16_sign a) (bf16_sign b))).
    rewrite bf16_iszero_fields, Z1, Z2, Z3. split; [|split; reflexivity].
    unfold bf16_div. rewrite Hu.
    destruct H as [[Ib Ia]|[Za Zb]].
    + apply andb_true_iff in Ib as [Eb Mb]. rewrite Eb, Mb, Ia. reflexivity.
    + apply andb_true_iff in Za as [Ea Ma]. apply Z.eqb_eq in Ea.
      rewrite Ea, Ma, Zb in *. cbn [Z.eqb andb negb] in *.
      destruct (bf16_exp b =? 255); cbn [andb negb] in *; [|reflexivity].
      apply negb_false_iff in Nb. rewrite Nb. reflexivity.
Qed.

Lemma bf16_div_zero_infinity_witness :
  bf16_div {| bits := 0x8000 |} {| bits := 0x0000 |} = Some BF16_NAN
  /\ bf16_div {| bits := 0xFF80 |} {| bits := 0x7F80 |} = Some BF16_NAN
  /\ (exists r, bf16_div {| bits := 0xC049 |} {| bits := 0x0000 |} = Some r
                /\ bf16_isinf r = true
                /\ bf16_sign r = Z.lxor (bf16_sign {| bits := 0xC049 |})
                                        (bf16_sign {| bits := 0x0000 |}))
  /\ (exists r, bf16_div {| bits := 0xC049 |} {| bits := 0xFF80 |} = Some r
                /\ bf16_iszero r = true
                /\ bf16_sign r = Z.lxor (bf16_sign {| bits := 0xC049 |})
                                        (bf16_sign {| bits := 0xFF80 |})).
Proof.
  destruct (bf16_div_zero_infinity {| bits := 0x8000 |} {| bits := 0x0000 |})
    as (H1 & _); try reflexivity.
  destruct (bf16_div_zero_infinity {| bits := 0xFF80 |} {| bits := 0x7F80 |})
    as (_ & H2 & _); try reflexivity.
  destruct (bf16_div_zero_infinity {| bits := 0xC049 |} {| bits := 0x0000 |})
    as (_ & _ & H3 & _); try reflexivity.
  destruct (bf16_div_zero_infinity {| bits := 0xC049 |} {| bits := 0xFF80 |})
    as (_ & _ & _ & H4); try reflexivity.
  split; [apply H1; reflexivity|].
  split; [apply H2; reflexivity|].
  split; [apply H3; left; split; reflexivity|].
  apply H4. left. split; reflexivity.
Defined.

(** ** Division: the long division *)

(** With [n] steps to go and the remainder below [divisor * 2^n], the loop
    appends the [n] quotient bits of the remainder. *)
Lemma div_loop_spec (n : nat) :
  forall fuel dividend divisor quotient,
    (n <= 16)%nat -> (n < fuel)%nat ->
    0 < divisor < 65536 ->
    0 <= dividend < divisor * 2 ^ Z.of_nat n ->
    0 <= quotient < 2 ^ (16 - Z.of_nat n) ->
    div_loop fuel (16 - Z.of_nat n) dividend divisor quotient
    = Some (dividend mod divisor,
            quotient * 2 ^ Z.of_nat n + dividend / divisor).
Proof.
  induction n as [|n IH]; intros fuel dividend divisor quotient Hn Hfuel Hd Hr Hq;
    (destruct fuel as [|fuel]; [lia|]); cbn [div_loop].
  - change (16 - Z.of_nat 0) with 16. change (16 <? 16) with false.
    change (2 ^ Z.of_nat 0) with 1 in *.
    rewrite Z.mod_small, Z.div_small by lia. f_equal. f_equal. lia.
  - set (i := 16 - Z.of_nat (S n)).
    assert (Hi : 0 <= i <= 15) by (unfold i; lia).
    assert (Hn' : Z.of_nat n = 15 - i) by (unfold i; lia).
    destruct (Z.ltb_spec i 16); [|lia].
    rewrite !s32_small by lia. rewrite !Z.shiftl_mul_pow2 by lia.
    rewrite <- Hn'. change (2 ^ 1) with 2.
    assert (Hpn : 0 < 2 ^ Z.of_nat n <= 2 ^ 15) by (apply pow2_le_mono; lia).
    change (2 ^ 15) with 32768 in Hpn.
    assert (Hpq : 0 < 2 ^ (16 - Z.of_nat (S n)) <= 2 ^ 15)
      by (apply pow2_le_mono; lia).
    change (2 ^ 15) with 32768 in Hpq.
    assert (Hpow : 2 ^ Z.of_nat (S n) = 2 * 2 ^ Z.of_nat n).
    { rewrite Nat2Z.inj_succ, Z.pow_succ_r by lia. reflexivity. }
    assert (Hpow' : 2 ^ (16 - Z.of_nat n) = 2 * 2 ^ (16 - Z.of_nat (S n))).
    { rewrite <- Z.pow_succ_r by lia. f_equal. lia. }
    rewrite Hpow in Hr |- *.
    rewrite (u32_small (divisor * 2 ^ Z.of_nat n)) by nia.
    rewrite (u32_small (quotient * 2)) by lia.
    replace (i + 1) with (16 - Z.of_nat n) by lia.
    destruct (Z.geb_spec dividend (divisor * 2 ^ Z.of_nat n)) as [Hge|Hlt].
    + assert (Hlor : Z.lor (quotient * 2) 1 = quotient * 2 + 1).
      { apply (lor_disjoint_add quotient 1 1); [lia|]. change (2 ^ 1) with 2. lia. }
      rewrite Hlor. rewrite u32_small by nia.
      rewrite IH by (rewrite ?Hpow'; first [lia|nia]).
      replace dividend
        with (dividend - divisor * 2 ^ Z.of_nat n + 2 ^ Z.of_nat n * divisor) at 3 4
        by ring.
      rewrite Z.mod_add, Z.div_add by lia.
      f_equal. f_equal. ring.
    + rewrite IH by (rewrite ?Hpow'; first [lia|nia]).
      f_equal. f_equal. ring.
Qed.

(** The sixteen steps of the long division in [bf16_div], started with
    quotient 0 on a dividend below [divisor * 2^16], end with the integer
    quotient and the remainder of the dividend by the divisor. *)
Lemma div_loop_quotient_remainder (dividend divisor : Z) :
  0 < divisor < 65536 -> 0 <= dividend < divisor * 65536 ->
  div_loop 17 0 dividend divisor 0
  = Some (dividend mod divisor, dividend / divisor).
Proof.
  intros Hd Hr.
  change (div_loop 17 0 dividend divisor 0)
    with (div_loop 17 (16 - Z.of_nat 16) dividend divisor 0).
  rewrite (div_loop_spec 16 17 dividend divisor 0).
  - rewrite Z.mul_0_l, Z.add_0_l. reflexivity.
  - lia.
  - lia.
  - exact Hd.
  - change (2 ^ Z.of_nat 16) with 65536. exact Hr.
  - change (2 ^ (16 - Z.of_nat 16)) with 1. lia.
Qed.

(** For two normal operands the quotient of the significands has 15 or 16
    bits; what follows the long division in [bf16_div], in terms of it. *)
Lemma bf16_div_normal_run a b :
  0 < bf16_exp a < 255 -> 0 < bf16_exp b < 255 ->
  let quotient := (bf16_mant a + 128) * 32768 / (bf16_mant b + 128) in
  let result_exp := bf16_exp a - bf16_exp b + 127 in
  let result_sign := Z.lxor (bf16_sign a) (bf16_sign b) in
  16384 <= quotient < 65536
  /\ (32768 <= quotient <-> bf16_mant b <= bf16_mant a)
  /\ bf16_div a b
     = ('(quotient, result_exp) <-
          (if negb (Z.land quotient 0x8000 =? 0)
           then Some (Z.shiftr quotient 8, result_exp)
           else
             '(q, e) <- div_norm_loop 512 quotient result_exp ;;
             Some (Z.shiftr q 8, e)) ;;
        if result_exp >=? 0xFF then Some (bf16_signed_inf result_sign)
        else if result_exp <=? 0 then Some (bf16_signed_zero result_sign)
        else Some (bf16_pack result_sign result_exp (Z.land quotient 0x7F))).
Proof.
  intros Ha Hb quotient result_exp result_sign. field_ranges a b.
  assert (Hq : 16384 <= quotient < 65536).
  { unfold quotient. split.
    - apply Z.div_le_lower_bound; lia.
    - apply Z.div_lt_upper_bound; lia. }
  split; [exact Hq|]. split.
  { unfold quotient. split; intros Hc.
    - destruct (Z.le_gt_cases (bf16_mant b) (bf16_mant a)) as [Hle|Hgt]; [exact Hle|].
      exfalso.
      assert ((bf16_mant a + 128) * 32768 / (bf16_mant b + 128) < 32768)
        by (apply Z.div_lt_upper_bound; lia).
      lia.
    - apply Z.div_le_lower_bound; lia. }
  unfold bf16_div.
  destruct (Z.eqb_spec (bf16_exp a) 255); [lia|].
  destruct (Z.eqb_spec (bf16_exp b) 255); [lia|].
  destruct (Z.eqb_spec (bf16_exp a) 0); [lia|].
  destruct (Z.eqb_spec (bf16_exp b) 0); [lia|].
  cbn [andb]. rewrite !lor_0x80, !u16_small by lia.
  rewrite Z.shiftl_mul_pow2 by lia. change (2 ^ 15) with 32768.
  rewrite u32_small by lia.
  rewrite div_loop_quotient_remainder by lia. cbn [bind].
  unfold BF16_EXP_BIAS. rewrite s32_small by lia.
  rewrite (proj2 (result_sign_range a b)). reflexivity.
Qed.

Lemma div_norm_loop_stop fuel quotient result_exp :
  (Z.land quotient 0x8000 =? 0) && (result_exp >? 1) = false ->
  div_norm_loop (S fuel) quotient result_exp = Some (quotient, result_exp).
Proof. intros H. cbn [div_norm_loop]. rewrite H. reflexivity. Qed.

Lemma div_norm_loop_step fuel quotient result_exp :
  (Z.land quotient 0x8000 =? 0) && (result_exp >? 1) = true ->
  div_norm_loop (S fuel) quotient result_exp
  = div_norm_loop fuel (u32 (Z.shiftl quotient 1)) (s32 (result_exp - 1)).
Proof. intros H. cbn [div_norm_loop]. rewrite H. reflexivity. Qed.

Lemma land_0x8000_set q : 32768 <= q < 65536 -> (Z.land q 0x8000 =? 0) = false.
Proof. intros H. rewrite land_0x8000. apply Z.eqb_neq. zdivmod. Qed.

Lemma land_0x8000_clear q : 0 <= q < 32768 -> (Z.land q 0x8000 =? 0) = true.
Proof. intros H. rewrite land_0x8000. apply Z.eqb_eq. zdivmod. Qed.

(** X21: division of normal operands in closed form.  With [q] the integer
    quotient of the significand of [a] times 2^15 by the significand of [b]
    (significand: mantissa field plus 128) and [e = exp_a - exp_b + 127]: if
    the mantissa field of [b] is not the larger one, or [e <= 1], the result
    has exponent [e] and mantissa field [q / 256]; otherwise exponent [e - 1]
    and mantissa field [q / 128]; in both cases cut to 7 bits, with infinity
    from exponent 255 up and zero from exponent 0 down, signed by the XOR of
    the signs.  The quotient is truncated, not rounded. *)
Theorem bf16_div_normal (a b : bf16_t) :
  0 < bf16_exp a < 255 -> 0 < bf16_exp b < 255 ->
  let q := (bf16_mant a + 128) * 32768 / (bf16_mant b + 128) in
  let e := bf16_exp a - bf16_exp b + 127 in
  let s := Z.lxor (bf16_sign a) (bf16_sign b) in
  let e' := if (bf16_mant b <=? bf16_mant a) || (e <=? 1) then e else e - 1 in
  let m' := if (bf16_mant b <=? bf16_mant a) || (e <=? 1) then q / 256 else q / 128 in
  bf16_div a b
  = Some (if e' >=? 255 then bf16_signed_inf s
          else if e' <=? 0 then bf16_signed_zero s
          else bf16_pack s e' m').
Proof.
  intros Ha Hb q e s e' m'.
  destruct (bf16_div_normal_run a b Ha Hb) as (Hq & Htop & ->).
  fold q e s in Hq, Htop |- *. field_ranges a b.
  assert (He : -126 <= e <= 380) by (unfold e; lia).
  destruct (Z.leb_spec (bf16_mant b) (bf16_mant a)) as [Hle|Hgt].
  - apply Htop in Hle. rewrite land_0x8000_set by lia. cbn [negb bind orb] in *.
    subst e' m'. cbn [orb].
    destruct (e >=? 255); [reflexivity|]. destruct (e <=? 0); [reflexivity|].
    f_equal. apply bf16_pack_mant_mod.
    rewrite land_0x7F, Z.shiftr_div_pow2 by lia. change (2 ^ 8) with 256.
    apply Z.mod_mod. lia.
  - assert (Hlow : q < 32768).
    { destruct (Z.lt_ge_cases q 32768) as [Hl|Hg]; [exact Hl|].
      apply Htop in Hg. lia. }
    rewrite land_0x8000_clear by lia. cbn [negb orb] in *. subst e' m'. cbn [orb].
    destruct (Z.leb_spec e 1) as [He1|He1].
    + rewrite (div_norm_loop_stop 511).
      2:{ rewrite land_0x8000_clear by lia. cbn [andb].
          destruct (Z.gtb_spec e 1); [lia|reflexivity]. }
      cbn [bind].
      destruct (e >=? 255); [reflexivity|]. destruct (e <=? 0); [reflexivity|].
      f_equal. apply bf16_pack_mant_mod.
      rewrite land_0x7F, Z.shiftr_div_pow2 by lia. change (2 ^ 8) with 256.
      apply Z.mod_mod. lia.
    + rewrite (div_norm_loop_step 511).
      2:{ rewrite land_0x8000_clear by lia. cbn [andb].
          destruct (Z.gtb_spec e 1); [reflexivity|lia]. }
      rewrite Z.shiftl_mul_pow2 by lia. change (2 ^ 1) with 2.
      rewrite u32_small, s32_small by lia.
      rewrite (div_norm_loop_stop 510)
        by (rewrite land_0x8000_set by lia; reflexivity).
      cbn [bind].
      destruct (e - 1 >=? 255); [reflexivity|]. destruct (e - 1 <=? 0); [reflexivity|].
      f_equal. apply bf16_pack_mant_mod.
      rewrite land_0x7F, Z.shiftr_div_pow2 by lia. change (2 ^ 8) with 256.
      rewrite Z.mod_mod by lia. f_equal. zdivmod.
Qed.

Lemma bf16_div_normal_witness :
  bf16_div {| bits := 0x40C0 |} {| bits := 0x4000 |} = Some {| bits := 0x4040 |}
  /\ bf16_div {| bits := 0x3F80 |} {| bits := 0xC040 |} = Some {| bits := 0xBEAA |}.
Proof.
  split.
  - apply (bf16_div_normal {| bits := 0x40C0 |} {| bits := 0x4000 |});
      vm_compute; split; reflexivity.
  - apply (bf16_div_normal {| bits := 0x3F80 |} {| bits := 0xC040 |});
      vm_compute; split; reflexivity.
Defined.

(** X22: 1.0 is a right unit of division on every 16-bit pattern that is
    not denormal: zeros, normal values, infinities and NaNs divided by 1.0
    are returned unchanged. *)
Theorem bf16_div_one (x : bf16_t) :
  bf16_wf x ->
  (bf16_exp x = 0 -> bf16_mant x = 0) ->
  bf16_div x bf16_one = Some x.
Proof.
  intros Wx Hden. field_ranges x x.
  assert (Hone : bf16_exp bf16_one = 127 /\ bf16_mant bf16_one = 0
                 /\ bf16_sign bf16_one = 0) by (repeat split; reflexivity).
  destruct Hone as (E1 & M1 & S1).
  destruct (Z.eq_dec (bf16_exp x) 255) as [Einf|Efin].
  - unfold bf16_div. rewrite Einf, E1, M1, S1, Z.lxor_0_r.
    cbn [Z.eqb Pos.eqb andb].
    destruct (Z.eqb_spec (bf16_mant x) 0) as [M0|Mnz]; cbn [negb]; [|reflexivity].
    rewrite u16_small by lia. f_equal.
    destruct (bf16_signed_inf_fields (bf16_sign x)) as (A & B & C); [lia|].
    apply bf16_eq_of_fields; try lia; [apply bf16_signed_inf_wf|exact Wx].
  - destruct (Z.eq_dec (bf16_exp x) 0) as [E0|Enz].
    + specialize (Hden E0).
      unfold bf16_div. rewrite E0, Hden, E1, M1, S1, Z.lxor_0_r.
      cbn [Z.eqb Pos.eqb andb]. rewrite u16_small by lia. f_equal.
      destruct (bf16_signed_zero_fields (bf16_sign x)) as (A & B & C); [lia|].
      apply bf16_eq_of_fields; try lia; [apply bf16_signed_zero_wf|exact Wx].
    + destruct (bf16_div_normal_run x bf16_one) as (_ & _ & ->);
        [lia|rewrite E1; lia|].
      rewrite E1, M1, S1, Z.lxor_0_r. change (0 + 128) with 128.
      replace ((bf16_mant x + 128) * 32768 / 128) with ((bf16_mant x + 128) * 256)
        by (apply Z.div_unique_exact; lia).
      rewrite land_0x8000_set by lia. cbn [negb bind].
      replace (bf16_exp x - 127 + 127) with (bf16_exp x) by lia.
      destruct (Z.geb_spec (bf16_exp x) 255); [lia|].
      destruct (Z.leb_spec (bf16_exp x) 0); [lia|].
      f_equal.
      destruct (bf16_pack_fields (bf16_sign x) (bf16_exp x)
                  (Z.land (Z.shiftr ((bf16_mant x + 128) * 256) 8) 127))
        as (A & B & C); [lia|].
      rewrite Z.mod_small in B by lia.
      apply bf16_eq_of_fields; try assumption; [apply bf16_pack_wf|].
      rewrite C, land_0x7F, Z.shiftr_div_pow2 by lia. change (2 ^ 8) with 256.
      zdivmod.
Qed.

Lemma bf16_div_one_witness :
  bf16_div {| bits := 0xC2F7 |} bf16_one = Some {| bits := 0xC2F7 |}.
Proof.
  apply bf16_div_one.
  - unfold bf16_wf. cbn. lia.
  - intros E. discriminate E.
Defined.

(** The shape of every quotient of finite nonzero operands. *)
Lemma bf16_div_finite_nonzero_form a b :
  bf16_exp a <> 0xFF -> bf16_exp b <> 0xFF ->
  (bf16_exp a =? 0) && (bf16_mant a =? 0) = false ->
  (bf16_exp b =? 0) && (bf16_mant b =? 0) = false ->
  exists quotient result_exp,
    bf16_div a b
    = Some (if result_exp >=? 0xFF
            then bf16_signed_inf (Z.lxor (bf16_sign a) (bf16_sign b))
            else if result_exp <=? 0
                 then bf16_signed_zero (Z.lxor (bf16_sign a) (bf16_sign b))
                 else bf16_pack (Z.lxor (bf16_sign a) (bf16_sign b))
                        result_exp quotient).
Proof.
  intros Fa Fb Za Zb. field_ranges a b. unfold bf16_div.
  destruct (Z.eqb_spec (bf16_exp a) 255); [contradiction|].
  destruct (Z.eqb_spec (bf16_exp b) 255); [contradiction|].
  rewrite Za, Zb, (proj2 (result_sign_range a b)).
  edestruct div_loop_total as [[dividend quotient] ->]; [| |cbn [bind]].
  - lia.
  - change (Z.of_nat 17) with 17. lia.
  - unfold BF16_EXP_BIAS. rewrite (s32_small (_ - _ + 127)) by lia.
    set (e0 := bf16_exp a - bf16_exp b + 127).
    assert (He0 : -128 <= e0 <= 382) by (unfold e0; lia).
    set (e1 := if bf16_exp a =? 0 then s32 (e0 - 1) else e0).
    assert (He1 : -129 <= e1 <= 382).
    { unfold e1. destruct (bf16_exp a =? 0); [rewrite s32_small|]; lia. }
    set (e2 := if bf16_exp b =? 0 then s32 (e1 + 1) else e1).
    assert (He2 : -129 <= e2 <= 383).
    { unfold e2. destruct (bf16_exp b =? 0); [rewrite s32_small|]; lia. }
    destruct (negb (Z.land quotient 32768 =? 0)); cbn [bind].
    + exists (Z.land (Z.shiftr quotient 8) 127), e2.
      destruct (e2 >=? 255); [reflexivity|]. destruct (e2 <=? 0); reflexivity.
    + edestruct (div_norm_loop_total 512 quotient e2) as [[q e] ->];
        [lia|change (Z.of_nat 512) with 512; lia|lia|cbn [bind]].
      exists (Z.land (Z.shiftr q 8) 127), e.
      destruct (e >=? 255); [reflexivity|]. destruct (e <=? 0); reflexivity.
Qed.

(** X23: the quotient of a finite pattern by a finite nonzero pattern is
    never a NaN, and its sign bit is the XOR of the sign bits of the
    operands.  It is never a denormal either: its exponent field is 0 only
    when its mantissa field is 0. *)
Theorem bf16_div_finite_sign (a b : bf16_t) :
  bf16_finite a -> bf16_finite b -> bf16_iszero b = false ->
  exists r,
    bf16_div a b = Some r
    /\ bf16_isnan r = false
    /\ bf16_sign r = Z.lxor (bf16_sign a) (bf16_sign b)
    /\ (bf16_exp r = 0 -> bf16_mant r = 0).
Proof.
  intros Fa Fb Zb. apply bf16_finite_exp in Fa, Fb.
  apply bf16_nonzero_fields in Zb.
  destruct (result_sign_range a b) as [Hs Hu]. rewrite Hu in Hs.
  destruct (bf16_signed_zero_fields _ Hs) as (Z1 & Z2 & Z3).
  destruct (bf16_signed_inf_fields _ Hs) as (I1 & I2 & I3).
  destruct ((bf16_exp a =? 0) && (bf16_mant a =? 0)) eqn:Za.
  - exists (bf16_signed_zero (Z.lxor (bf16_sign a) (bf16_sign b))).
    rewrite bf16_isnan_fields, Z1, Z2, Z3. split; [|repeat split].
    unfold bf16_div. apply Z.eqb_neq in Fa, Fb. rewrite Fa, Fb, Za, Zb, Hu.
    reflexivity.
  - destruct (bf16_div_finite_nonzero_form a b Fa Fb Za Zb) as (q & e & ->).
    eexists. split; [reflexivity|].
    destruct (Z.geb_spec e 255).
    { rewrite bf16_isnan_fields, I1, I2, I3. repeat split. }
    destruct (Z.leb_spec e 0).
    { rewrite bf16_isnan_fields, Z1, Z2, Z3. repeat split. }
    destruct (bf16_pack_fields (Z.lxor (bf16_sign a) (bf16_sign b)) e q Hs)
      as (P1 & P2 & P3).
    rewrite bf16_isnan_fields, P1, P2, Z.mod_small by lia.
    destruct (Z.eqb_spec e 255); [lia|]. repeat split. lia.
Qed.

Lemma bf16_div_finite_sign_witness :
  exists r,
    bf16_div {| bits := 0x807F |} {| bits := 0x7F7F |} = Some r
    /\ bf16_isnan r = false
    /\ bf16_sign r = Z.lxor (bf16_sign {| bits := 0x807F |})
                            (bf16_sign {| bits := 0x7F7F |})
    /\ (bf16_exp r = 0 -> bf16_mant r = 0).
Proof. apply bf16_div_finite_sign; [split|split|]; reflexivity. Defined.

(** ** Addition: the opposite-sign difference in closed form *)

(** The normalization loop on a mantissa that needs [k] left shifts to reach
    bit 7: zero as soon as the exponent falls to 0, else the shifted mantissa. *)
Lemma add_norm_loop_run (k : nat) :
  forall fuel m e,
    (k < fuel)%nat ->
    128 <= m * 2 ^ Z.of_nat k < 256 -> 0 < m ->
    -32767 <= e < 32768 ->
    add_norm_loop fuel m e
    = Some (if (0 <? Z.of_nat k) && (e - Z.of_nat k <=? 0)
            then Return BF16_ZERO
            else Next (m * 2 ^ Z.of_nat k, e - Z.of_nat k)).
Proof.
  induction k as [|k IH]; intros fuel m e Hfuel Hm Hpos He;
    (destruct fuel as [|fuel]; [lia|]); cbn [add_norm_loop].
  - change (2 ^ Z.of_nat 0) with 1 in *. rewrite Z.mul_1_r in *.
    rewrite land_0x80_set by lia. cbn [Z.of_nat Z.ltb Z.compare andb].
    rewrite Z.sub_0_r. reflexivity.
  - assert (Hpow : 2 ^ Z.of_nat (S k) = 2 * 2 ^ Z.of_nat k).
    { rewrite Nat2Z.inj_succ, Z.pow_succ_r by lia. reflexivity. }
    assert (Hpk : 0 < 2 ^ Z.of_nat k) by (apply Z.pow_pos_nonneg; lia).
    rewrite Hpow in Hm |- *.
    rewrite land_0x80_clear by nia.
    rewrite Z.shiftl_mul_pow2 by lia. change (2 ^ 1) with 2.
    rewrite u32_small by nia. rewrite s16_small by lia.
    destruct (Z.ltb_spec 0 (Z.of_nat (S k))); [|lia]. cbn [andb].
    destruct (Z.leb_spec (e - 1) 0) as [Hz|Hnz].
    + destruct (Z.leb_spec (e - Z.of_nat (S k)) 0); [reflexivity|lia].
    + rewrite IH by (try lia; nia).
      replace (e - 1 - Z.of_nat k) with (e - Z.of_nat (S k)) by lia.
      replace (m * 2 * 2 ^ Z.of_nat k) with (m * (2 * 2 ^ Z.of_nat k)) by ring.
      destruct (Z.ltb_spec 0 (Z.of_nat k)); cbn [andb]; [reflexivity|].
      destruct (Z.leb_spec (e - Z.of_nat (S k)) 0); [lia|reflexivity].
Qed.

(** Lines 171-199 for mantissas of different sign, in terms of their
    difference. *)
Lemma add_aligned_opposite_sign sign_a sign_b mant_a mant_b result_exp :
  sign_a <> sign_b ->
  0 <= mant_a < 4294967296 -> 0 <= mant_b < 4294967296 ->
  0 <= result_exp < 255 ->
  let D := Z.abs (mant_a - mant_b) in
  let s := if mant_b <=? mant_a then sign_a else sign_b in
  add_aligned sign_a sign_b mant_a mant_b result_exp
  = Some (if D =? 0 then BF16_ZERO
          else if D <? 128 then
            if result_exp - (7 - Z.log2 D) <=? 0 then BF16_ZERO
            else bf16_pack s (result_exp - (7 - Z.log2 D)) (D * 2 ^ (7 - Z.log2 D))
          else if result_exp + (Z.log2 D - 7) <? 255 then
            bf16_pack s (result_exp + (Z.log2 D - 7)) (Z.shiftr D (Z.log2 D - 7))
          else BF16_NAN).
Proof.
  intros Hs Ha Hb He D s. unfold add_aligned.
  destruct (Z.eqb_spec sign_a sign_b) as [E|_]; [contradiction|].
  assert (HD : (if mant_a >=? mant_b then u32 (mant_a - mant_b)
                else u32 (mant_b - mant_a)) = D).
  { unfold D. destruct (Z.geb_spec mant_a mant_b); rewrite u32_small by lia; lia. }
  assert (Hsign : (if mant_a >=? mant_b then sign_a else sign_b) = s).
  { unfold s. destruct (Z.geb_spec mant_a mant_b), (Z.leb_spec mant_b mant_a);
      try reflexivity; lia. }
  rewrite HD, Hsign.
  assert (HDr : 0 <= D < 4294967296) by (unfold D; lia).
  destruct (Z.eqb_spec D 0) as [E0|Enz]; [reflexivity|].
  assert (Hlog : 0 <= Z.log2 D < 32).
  { split; [apply Z.log2_nonneg|]. apply Z.log2_lt_pow2; [lia|].
    change (2 ^ 32) with 4294967296. lia. }
  destruct (Z.log2_spec D ltac:(lia)) as [Hlo Hhi].
  destruct (Z.ltb_spec D 128) as [Hsmall|Hbig].
  - assert (Hl7 : Z.log2 D < 7).
    { apply Z.log2_lt_pow2; [lia|]. change (2 ^ 7) with 128. exact Hsmall. }
    set (l := Z.log2 D) in *.
    assert (Hsplit : 2 ^ l * 2 ^ (7 - l) = 128).
    { rewrite <- Z.pow_add_r by lia. replace (l + (7 - l)) with 7 by lia. reflexivity. }
    assert (Hsplit' : 2 ^ Z.succ l * 2 ^ (7 - l) = 256).
    { rewrite <- Z.pow_add_r by lia. replace (Z.succ l + (7 - l)) with 8 by lia.
      reflexivity. }
    assert (Hp : 0 < 2 ^ (7 - l)) by (apply Z.pow_pos_nonneg; lia).
    rewrite (add_norm_loop_run (Z.to_nat (7 - l)) 256 D result_exp);
      rewrite ?Z2Nat.id by lia; try lia; [|nia].
    destruct (Z.ltb_spec 0 (7 - l)); [|lia]. cbn [andb bind].
    destruct (result_exp - (7 - l) <=? 0); reflexivity.
  - assert (Hl7 : 7 <= Z.log2 D).
    { apply (proj1 (Z.log2_le_pow2 D 7 ltac:(lia))). change (2 ^ 7) with 128. lia. }
    rewrite clz_value by (change (2 ^ 32) with 4294967296; lia).
    destruct (Z.eqb_spec D 0); [lia|]. cbn [bind].
    set (l := Z.log2 D) in *.
    rewrite (add_shift_loop_run (Z.to_nat (l - 7)) 256 0 (31 - l)).
    + rewrite Z2Nat.id by lia. cbn [bind].
      destruct (result_exp + (l - 7) <? 255); reflexivity.
    + lia.
    + lia.
    + rewrite Z2Nat.id by lia.
      rewrite (u32_small (32 - (31 - l))) by lia. rewrite u32_small by lia. lia.
    + exact He.
Qed.

(** Opposite-sign addition when the first operand has the larger (or the
    same) exponent: lines 149-153 and 159-160 for the alignment. *)
Lemma bf16_add_opposite_sign_ordered (a b : bf16_t) :
  bf16_finite a -> bf16_finite b ->
  bf16_iszero a = false -> bf16_iszero b = false ->
  bf16_sign a <> bf16_sign b ->
  0 <= bf16_exp a - bf16_exp b <= 8 ->
  let A := (if bf16_exp a =? 0 then bf16_mant a else bf16_mant a + 128)
           * 2 ^ (bf16_exp a - bf16_exp b) in
  let B := if bf16_exp b =? 0 then bf16_mant b else bf16_mant b + 128 in
  let D := Z.abs (A - B) in
  let s := if B <=? A then bf16_sign a else bf16_sign b in
  bf16_add a b
  = Some (if D =? 0 then BF16_ZERO
          else if D <? 128 then
            if bf16_exp b - (7 - Z.log2 D) <=? 0 then BF16_ZERO
            else bf16_pack s (bf16_exp b - (7 - Z.log2 D)) (D * 2 ^ (7 - Z.log2 D))
          else bf16_pack s (bf16_exp b + (Z.log2 D - 7)) (Z.shiftr D (Z.log2 D - 7)))
  /\ (128 <= D -> bf16_exp b + (Z.log2 D - 7) <= bf16_exp a).
Proof.
  intros Fa Fb Za Zb Hs Hd A B D s.
  apply bf16_finite_exp in Fa, Fb. apply bf16_nonzero_fields in Za, Zb.
  field_ranges a b.
  set (d := bf16_exp a - bf16_exp b) in *.
  assert (Hpow : 0 < 2 ^ d <= 256).
  { change 256 with (2 ^ 8). apply pow2_le_mono. lia. }
  set (Ma := if bf16_exp a =? 0 then bf16_mant a else bf16_mant a + 128) in *.
  assert (HMa : 0 <= Ma < 256) by (unfold Ma; destruct (bf16_exp a =? 0); lia).
  assert (HB : 0 <= B < 256) by (unfold B; destruct (bf16_exp b =? 0); lia).
  assert (HA : 0 <= A < 65536) by (unfold A; nia).
  assert (Ea : (if bf16_exp a =? 0 then bf16_mant a
                else u16 (Z.lor (bf16_mant a) 128)) = Ma).
  { unfold Ma. destruct (bf16_exp a =? 0); [reflexivity|].
    rewrite lor_0x80, u16_small by lia. reflexivity. }
  assert (Eb : (if bf16_exp b =? 0 then bf16_mant b
                else u16 (Z.lor (bf16_mant b) 128)) = B).
  { unfold B. destruct (bf16_exp b =? 0); [reflexivity|].
    rewrite lor_0x80, u16_small by lia. reflexivity. }
  (* the raised exponent stays below the larger one *)
  assert (Hraise : 128 <= D -> bf16_exp b + (Z.log2 D - 7) <= bf16_exp a).
  { intros HD.
    assert (Z.log2 D < 8 + d); [|unfold d in *; lia].
    apply Z.log2_lt_pow2; [lia|].
    rewrite Z.pow_add_r by lia. change (2 ^ 8) with 256. unfold D. nia. }
  split; [|exact Hraise].
  assert (Haligned :
    add_aligned (bf16_sign a) (bf16_sign b) A B (bf16_exp b)
    = Some (if D =? 0 then BF16_ZERO
            else if D <? 128 then
              if bf16_exp b - (7 - Z.log2 D) <=? 0 then BF16_ZERO
              else bf16_pack s (bf16_exp b - (7 - Z.log2 D)) (D * 2 ^ (7 - Z.log2 D))
            else bf16_pack s (bf16_exp b + (Z.log2 D - 7))
                   (Z.shiftr D (Z.log2 D - 7)))).
  { rewrite add_aligned_opposite_sign by lia. fold D s.
    destruct (D =? 0); [reflexivity|].
    destruct (Z.ltb_spec D 128); [reflexivity|].
    specialize (Hraise ltac:(lia)).
    destruct (Z.ltb_spec (bf16_exp b + (Z.log2 D - 7)) 255); [reflexivity|lia]. }
  rewrite <- Haligned. unfold bf16_add.
  destruct (Z.eqb_spec (bf16_exp a) 255) as [E|_]; [contradiction|].
  destruct (Z.eqb_spec (bf16_exp b) 255) as [E|_]; [contradiction|].
  rewrite Za, Zb, Ea, Eb, s16_small by lia. fold d.
  destruct (Z.gtb_spec d 0) as [Hgt|Hle].
  - destruct (Z.gtb_spec d 8); [lia|].
    rewrite Z.shiftl_mul_pow2 by lia. fold A. rewrite u16_small by lia.
    reflexivity.
  - destruct (Z.ltb_spec d 0); [lia|].
    assert (E0 : d = 0) by lia.
    assert (EA : A = Ma) by (unfold A; rewrite E0; change (2 ^ 0) with 1; lia).
    assert (Eab : bf16_exp a = bf16_exp b) by (unfold d in E0; lia).
    rewrite EA, Eab. reflexivity.
Qed.

(** X24: opposite-sign addition in closed form, in either operand order.
    For finite nonzero operands of different signs whose exponents differ by
    [d] at most 8, with [A] and [B] the mantissas of the first and the second
    operand, leading bits restored and the one of the larger exponent shifted
    left by [d], and [D = |A - B|]: equal magnitudes give [+0]; otherwise the
    sign is that of the larger magnitude; a difference below bit 7 is shifted
    left to bit 7 with the smaller exponent lowered by as much, and flushed to
    [+0] when that exponent is not positive; a difference from bit 7 up is
    shifted right and the exponent raised, never beyond the larger exponent,
    so that the result is never a NaN. *)
Theorem bf16_add_opposite_sign (a b : bf16_t) :
  bf16_finite a -> bf16_finite b ->
  bf16_iszero a = false -> bf16_iszero b = false ->
  bf16_sign a <> bf16_sign b ->
  -8 <= bf16_exp a - bf16_exp b <= 8 ->
  let Ma := if bf16_exp a =? 0 then bf16_mant a else bf16_mant a + 128 in
  let Mb := if bf16_exp b =? 0 then bf16_mant b else bf16_mant b + 128 in
  let d := Z.abs (bf16_exp a - bf16_exp b) in
  let A := if bf16_exp b <=? bf16_exp a then Ma * 2 ^ d else Ma in
  let B := if bf16_exp b <=? bf16_exp a then Mb else Mb * 2 ^ d in
  let D := Z.abs (A - B) in
  let s := if B <=? A then bf16_sign a else bf16_sign b in
  let e := Z.min (bf16_exp a) (bf16_exp b) in
  bf16_add a b
  = Some (if D =? 0 then BF16_ZERO
          else if D <? 128 then
            if e - (7 - Z.log2 D) <=? 0 then BF16_ZERO
            else bf16_pack s (e - (7 - Z.log2 D)) (D * 2 ^ (7 - Z.log2 D))
          else bf16_pack s (e + (Z.log2 D - 7)) (Z.shiftr D (Z.log2 D - 7)))
  /\ (128 <= D -> e + (Z.log2 D - 7) <= Z.max (bf16_exp a) (bf16_exp b)).
Proof.
  intros Fa Fb Za Zb Hs Hd Ma Mb d A B D s e.
  destruct (Z.leb_spec (bf16_exp b) (bf16_exp a)) as [Hle|Hgt].
  - assert (Ed : d = bf16_exp a - bf16_exp b) by (unfold d; lia).
    assert (Ee : e = bf16_exp b) by (unfold e; lia).
    assert (Emax : Z.max (bf16_exp a) (bf16_exp b) = bf16_exp a) by lia.
    subst s D A B. rewrite Ee, Ed, Emax in *.
    apply bf16_add_opposite_sign_ordered; try assumption. lia.
  - assert (Ed : d = bf16_exp b - bf16_exp a) by (unfold d; lia).
    assert (Ee : e = bf16_exp a) by (unfold e; lia).
    assert (Emax : Z.max (bf16_exp a) (bf16_exp b) = bf16_exp b) by lia.
    destruct (bf16_add_opposite_sign_ordered b a) as [Hadd Hraise];
      try assumption; [congruence|lia|].
    cbv zeta in Hadd, Hraise. fold Ma Mb in Hadd, Hraise.
    rewrite <- Ed in Hadd, Hraise.
    assert (ED : Z.abs (Mb * 2 ^ d - Ma) = D) by (unfold D, A, B; lia).
    rewrite ED in Hadd, Hraise.
    rewrite Ee, Emax. split; [|exact Hraise].
    rewrite bf16_add_comm_finite, Hadd.
    + destruct (Z.eqb_spec D 0) as [E0|Enz]; [reflexivity|].
      assert (Esign : (if Ma <=? Mb * 2 ^ d then bf16_sign b else bf16_sign a) = s).
      { unfold s, A, B. unfold D, A, B in Enz.
        destruct (Z.leb_spec Ma (Mb * 2 ^ d)), (Z.leb_spec (Mb * 2 ^ d) Ma);
          try reflexivity; lia. }
      rewrite Esign. reflexivity.
    + apply bf16_finite_exp. exact Fa.
    + apply bf16_finite_exp. exact Fb.
    + intros Ha. rewrite Ha in Za. discriminate.
Qed.

Lemma bf16_add_opposite_sign_witness :
  bf16_add {| bits := 0x4040 |} {| bits := 0xC000 |} = Some {| bits := 0x3F80 |}
  /\ bf16_add {| bits := 0xBFC0 |} {| bits := 0x40C0 |} = Some {| bits := 0x4090 |}
  /\ bf16_add {| bits := 0x0081 |} {| bits := 0x8080 |} = Some BF16_ZERO.
Proof.
  split; [|split].
  - apply (bf16_add_opposite_sign {| bits := 0x4040 |} {| bits := 0xC000 |}).
    + split; reflexivity.
    + split; reflexivity.
    + reflexivity.
    + reflexivity.
    + vm_compute. discriminate.
    + vm_compute. split; discriminate.
  - apply (bf16_add_opposite_sign {| bits := 0xBFC0 |} {| bits := 0x40C0 |}).
    + split; reflexivity.
    + split; reflexivity.
    + reflexivity.
    + reflexivity.
    + vm_compute. discriminate.
    + vm_compute. split; discriminate.
  - apply (bf16_add_opposite_sign {| bits := 0x0081 |} {| bits := 0x8080 |}).
    + split; reflexivity.
    + split; reflexivity.
    + reflexivity.
    + reflexivity.
    + vm_compute. discriminate.
    + vm_compute. split; discriminate.
Defined.

(** ** [singleNumber] *)

Lemma u32_testbit x i :
  0 <= i -> Z.testbit (u32 x) i = (i <? 32) && Z.testbit x i.
Proof.
  intros Hi. unfold u32. change 4294967296 with (2 ^ 32).
  apply Z.testbit_mod_pow2; lia.
Qed.

Lemma u32_lxor a b : u32 (Z.lxor a b) = Z.lxor (u32 a) (u32 b).
Proof.
  apply Z.bits_inj'. intros i Hi.
  rewrite Z.lxor_spec, !u32_testbit, Z.lxor_spec by exact Hi.
  destruct (i <? 32); reflexivity.
Qed.

Lemma u32_idem x : u32 (u32 x) = u32 x.
Proof. apply u32_small, u32_range. Qed.

Lemma lxor_below a b n :
  0 <= n -> 0 <= a < 2 ^ n -> 0 <= b < 2 ^ n -> 0 <= Z.lxor a b < 2 ^ n.
Proof.
  intros Hn Ha Hb.
  assert (Hnn : 0 <= Z.lxor a b) by (apply Z.lxor_nonneg; lia).
  split; [exact Hnn|].
  destruct (Z.eq_dec (Z.lxor a b) 0) as [->|Hnz]; [apply Z.pow_pos_nonneg; lia|].
  assert (Hn0 : 0 < n).
  { destruct (Z.eq_dec n 0) as [->|]; [|lia]. exfalso. apply Hnz.
    change (2 ^ 0) with 1 in *.
    replace a with 0 by lia. replace b with 0 by lia. reflexivity. }
  apply Z.log2_lt_pow2; [lia|].
  apply Z.le_lt_trans with (Z.max (Z.log2 a) (Z.log2 b)).
  - apply Z.log2_lxor; lia.
  - apply Z.max_lub_lt.
    + destruct (Z.eq_dec a 0) as [->|]; [cbn; lia|apply Z.log2_lt_pow2; lia].
    + destruct (Z.eq_dec b 0) as [->|]; [cbn; lia|apply Z.log2_lt_pow2; lia].
Qed.

(** The XOR of two [int]s is an [int]. *)
Lemma lxor_int_range a b : int_range a -> int_range b -> int_range (Z.lxor a b).
Proof.
  unfold int_range. intros Ha Hb.
  destruct (Z.lt_ge_cases a 0) as [Han|Hap]; destruct (Z.lt_ge_cases b 0) as [Hbn|Hbp].
  - rewrite <- Z.lxor_lnot_lnot.
    pose proof (lxor_below (Z.lnot a) (Z.lnot b) 31) as H.
    change (2 ^ 31) with 2147483648 in H.
    rewrite !Z.lnot_eq_pred_opp in H. rewrite !Z.lnot_eq_pred_opp.
    specialize (H ltac:(lia) ltac:(lia) ltac:(lia)). lia.
  - replace (Z.lxor a b) with (Z.lnot (Z.lxor (Z.lnot a) b))
      by (rewrite Z.lnot_lxor_l, Z.lnot_involutive; reflexivity).
    pose proof (lxor_below (Z.lnot a) b 31) as H.
    change (2 ^ 31) with 2147483648 in H.
    rewrite Z.lnot_eq_pred_opp in H.
    specialize (H ltac:(lia) ltac:(lia) ltac:(lia)).
    rewrite (Z.lnot_eq_pred_opp (Z.lxor _ _)), (Z.lnot_eq_pred_opp a). lia.
  - replace (Z.lxor a b) with (Z.lnot (Z.lxor a (Z.lnot b)))
      by (rewrite Z.lnot_lxor_r, Z.lnot_involutive; reflexivity).
    pose proof (lxor_below a (Z.lnot b) 31) as H.
    change (2 ^ 31) with 2147483648 in H.
    rewrite Z.lnot_eq_pred_opp in H.
    specialize (H ltac:(lia) ltac:(lia) ltac:(lia)).
    rewrite (Z.lnot_eq_pred_opp (Z.lxor _ _)), (Z.lnot_eq_pred_opp b). lia.
  - pose proof (lxor_below a b 31) as H.
    change (2 ^ 31) with 2147483648 in H.
    specialize (H ltac:(lia) ltac:(lia) ltac:(lia)). lia.
Qed.

Lemma xor_all_int_range l : Forall int_range l -> int_range (xor_all l).
Proof.
  induction 1 as [|x l Hx Hl IH]; cbn.
  - unfold int_range. lia.
  - apply lxor_int_range; assumption.
Qed.

Lemma xor_all_app l1 l2 : xor_all (l1 ++ l2) = Z.lxor (xor_all l1) (xor_all l2).
Proof.
  induction l1 as [|x l1 IH]; cbn [app xor_all fold_right].
  - rewrite Z.lxor_0_l. reflexivity.
  - fold (xor_all (l1 ++ l2)). fold (xor_all l1). rewrite IH, Z.lxor_assoc.
    reflexivity.
Qed.

(** Both loops visit the elements of [nums] in order. *)
Lemma xor_sum_loop_run (rest : list Z) :
  forall fuel pre xor_sum,
    (length rest < fuel)%nat ->
    Z.of_nat (length (pre ++ rest)) < 2147483648 ->
    xor_sum_loop fuel (Z.of_nat (length pre)) (pre ++ rest)
      (Z.of_nat (length (pre ++ rest))) (u32 xor_sum)
    = Some (u32 (Z.lxor xor_sum (xor_all rest))).
Proof.
  induction rest as [|x rest IH]; intros fuel pre xor_sum Hfuel Hlen;
    (destruct fuel as [|fuel]; [cbn in Hfuel; lia|]); cbn [xor_sum_loop].
  - rewrite app_nil_r, Z.ltb_irrefl. cbn. rewrite Z.lxor_0_r. reflexivity.
  - rewrite length_app in *. cbn [length] in *.
    destruct (Z.ltb_spec (Z.of_nat (length pre))
                (Z.of_nat (length pre + S (length rest)))); [|lia].
    rewrite Nat2Z.id, nth_error_app2, Nat.sub_diag by lia. cbn [nth_error bind].
    rewrite s32_small by lia.
    replace (Z.of_nat (length pre) + 1) with (Z.of_nat (length (pre ++ [x])))
      by (rewrite length_app; cbn; lia).
    replace (length pre + S (length rest))%nat with (length ((pre ++ [x]) ++ rest))
      by (rewrite !length_app; cbn; lia).
    replace (pre ++ x :: rest) with ((pre ++ [x]) ++ rest)
      by (rewrite <- app_assoc; reflexivity).
    rewrite <- u32_lxor, u32_idem.
    rewrite IH.
    + cbn [xor_all fold_right]. rewrite Z.lxor_assoc. reflexivity.
    + cbn in Hfuel. lia.
    + rewrite !length_app in *. cbn [length] in *. lia.
Qed.

Lemma partition_loop_run (rest : list Z) :
  forall fuel pre diff result0 result1,
    (length rest < fuel)%nat ->
    Z.of_nat (length (pre ++ rest)) < 2147483648 ->
    Forall int_range rest -> int_range result0 -> int_range result1 ->
    partition_loop fuel (Z.of_nat (length pre)) (pre ++ rest)
      (Z.of_nat (length (pre ++ rest))) diff result0 result1
    = Some (Z.lxor result0 (xor_all (filter (in_bucket0 diff) rest)),
            Z.lxor result1
              (xor_all (filter (fun x => negb (in_bucket0 diff x)) rest))).
Proof.
  induction rest as [|x rest IH];
    intros fuel pre diff result0 result1 Hfuel Hlen Hall H0 H1;
    (destruct fuel as [|fuel]; [cbn in Hfuel; lia|]); cbn [partition_loop].
  - rewrite app_nil_r, Z.ltb_irrefl. cbn. rewrite !Z.lxor_0_r. reflexivity.
  - rewrite length_app in *. cbn [length] in *.
    destruct (Z.ltb_spec (Z.of_nat (length pre))
                (Z.of_nat (length pre + S (length rest)))); [|lia].
    rewrite Nat2Z.id, nth_error_app2, Nat.sub_diag by lia. cbn [nth_error bind].
    rewrite s32_small by lia.
    inversion Hall as [|x' rest' Hx Hrest]; subst.
    replace (Z.of_nat (length pre) + 1) with (Z.of_nat (length (pre ++ [x])))
      by (rewrite length_app; cbn; lia).
    replace (length pre + S (length rest))%nat with (length ((pre ++ [x]) ++ rest))
      by (rewrite !length_app; cbn; lia).
    replace (pre ++ x :: rest) with ((pre ++ [x]) ++ rest)
      by (rewrite <- app_assoc; reflexivity).
    assert (Hlen' : Z.of_nat (length ((pre ++ [x]) ++ rest)) < 2147483648)
      by (rewrite !length_app in *; cbn [length] in *; lia).
    cbn [filter]. fold (in_bucket0 diff x).
    destruct (in_bucket0 diff x); cbn [negb].
    + rewrite s32_small by (apply lxor_int_range; assumption).
      rewrite IH; try assumption; [|cbn in Hfuel; lia|apply lxor_int_range; assumption].
      cbn [xor_all fold_right]. rewrite Z.lxor_assoc. reflexivity.
    + rewrite s32_small by (apply lxor_int_range; assumption).
      rewrite IH; try assumption; [|cbn in Hfuel; lia|apply lxor_int_range; assumption].
      cbn [xor_all fold_right]. rewrite Z.lxor_assoc. reflexivity.
Qed.

(** What [singleNumber] returns on an array of [int]s with its length. *)
Lemma singleNumber_run nums :
  Forall int_range nums -> Z.of_nat (length nums) < 2147483648 ->
  let diff := Z.land (u32 (xor_all nums)) (u32 (- u32 (xor_all nums))) in
  singleNumber nums (Z.of_nat (length nums))
  = Some (xor_all (filter (in_bucket0 diff) nums),
          xor_all (filter (fun x => negb (in_bucket0 diff x)) nums), 2).
Proof.
  intros Hall Hlen diff. unfold singleNumber. rewrite Nat2Z.id.
  pose proof (xor_sum_loop_run nums (S (length nums)) [] 0) as Hx.
  cbn [app length Z.of_nat] in Hx. change (u32 0) with 0 in Hx.
  rewrite Hx by lia. cbn [bind]. rewrite Z.lxor_0_l. fold diff.
  pose proof (partition_loop_run nums (S (length nums)) [] diff 0 0) as Hp.
  cbn [app length Z.of_nat] in Hp.
  rewrite Hp; try assumption; try lia; try (unfold int_range; lia).
  cbn [bind]. rewrite !Z.lxor_0_l. reflexivity.
Qed.

Lemma xor_all_filter_split (p : Z -> bool) l :
  Z.lxor (xor_all (filter p l)) (xor_all (filter (fun x => negb (p x)) l))
  = xor_all l.
Proof.
  induction l as [|x l IH]; [reflexivity|].
  cbn [filter]. destruct (p x); cbn [negb xor_all fold_right];
    fold (xor_all (filter p l)); fold (xor_all (filter (fun x => negb (p x)) l));
    fold (xor_all l); rewrite <- IH.
  - rewrite Z.lxor_assoc. reflexivity.
  - rewrite (Z.lxor_comm (xor_all (filter p l))), !Z.lxor_assoc.
    f_equal. apply Z.lxor_comm.
Qed.

(** X25: on every array of [int]s, [singleNumber] returns two values whose
    XOR is the XOR of all elements, and sets [*returnSize] to 2: each
    element is folded into exactly one of the two results. *)
Theorem singleNumber_xor_of_results (nums : list Z) :
  Forall int_range nums -> Z.of_nat (length nums) < 2147483648 ->
  exists result0 result1,
    singleNumber nums (Z.of_nat (length nums)) = Some (result0, result1, 2)
    /\ Z.lxor result0 result1 = xor_all nums
    /\ int_range result0 /\ int_range result1.
Proof.
  intros Hall Hlen. rewrite singleNumber_run by assumption.
  do 2 eexists. split; [reflexivity|]. split; [apply xor_all_filter_split|].
  split; apply xor_all_int_range, incl_Forall with (l1 := nums);
    try assumption; intros x Hx; apply filter_In in Hx; apply Hx.
Qed.

Lemma singleNumber_xor_of_results_witness :
  exists result0 result1,
    singleNumber [5; -7; 5; 12; 9; -7] (Z.of_nat (length [5; -7; 5; 12; 9; -7]))
    = Some (result0, result1, 2)
    /\ Z.lxor result0 result1 = xor_all [5; -7; 5; 12; 9; -7]
    /\ int_range result0 /\ int_range result1.
Proof.
  apply singleNumber_xor_of_results.
  - repeat constructor; unfold int_range; lia.
  - cbn. lia.
Defined.

(** X26: when the XOR of all elements is 0, as for an empty array or for an
    array in which every value occurs an even number of times,
    [singleNumber] returns [(0, 0)]: the mask [diff] is then 0 and the
    second result is never touched. *)
Theorem singleNumber_all_cancel (nums : list Z) :
  Forall int_range nums -> Z.of_nat (length nums) < 2147483648 ->
  xor_all nums = 0 ->
  singleNumber nums (Z.of_nat (length nums)) = Some (0, 0, 2).
Proof.
  intros Hall Hlen Hx. rewrite singleNumber_run by assumption.
  rewrite Hx. change (Z.land (u32 0) (u32 (- u32 0))) with 0.
  assert (Hin : forall l, filter (in_bucket0 0) l = l).
  { induction l as [|x l IH]; [reflexivity|]. cbn [filter].
    unfold in_bucket0 at 1. rewrite Z.land_0_r. cbn. rewrite IH. reflexivity. }
  assert (Hout : forall l, filter (fun x => negb (in_bucket0 0 x)) l = []).
  { induction l as [|x l IH]; [reflexivity|]. cbn [filter].
    unfold in_bucket0 at 1. rewrite Z.land_0_r. cbn. exact IH. }
  rewrite Hin, Hout, Hx. reflexivity.
Qed.

Lemma singleNumber_all_cancel_witness :
  singleNumber [] (Z.of_nat (length (@nil Z))) = Some (0, 0, 2)
  /\ singleNumber [3; -4; 3; -4] (Z.of_nat (length [3; -4; 3; -4])) = Some (0, 0, 2).
Proof.
  split.
  - apply (singleNumber_all_cancel []); [constructor|cbn; lia|reflexivity].
  - apply (singleNumber_all_cancel [3; -4; 3; -4]);
      [repeat constructor; unfold int_range; lia|cbn; lia|reflexivity].
Defined.

(** *** The lowest set bit *)

Lemma land_double a b : Z.land (2 * a) (2 * b) = 2 * Z.land a b.
Proof.
  apply Z.bits_inj'. intros n Hn. rewrite Z.land_spec.
  destruct (Z.eq_dec n 0) as [->|Hnz].
  - rewrite !Z.testbit_even_0. reflexivity.
  - replace n with (Z.succ (n - 1)) by lia.
    rewrite !Z.testbit_even_succ, Z.land_spec by lia. reflexivity.
Qed.

Lemma land_double_succ a b : Z.land (2 * a + 1) (2 * b + 1) = 2 * Z.land a b + 1.
Proof.
  apply Z.bits_inj'. intros n Hn. rewrite Z.land_spec.
  destruct (Z.eq_dec n 0) as [->|Hnz].
  - rewrite !Z.testbit_odd_0. reflexivity.
  - replace n with (Z.succ (n - 1)) by lia.
    rewrite !Z.testbit_odd_succ, Z.land_spec by lia. reflexivity.
Qed.

(** [s & -s] is one bit, and it is a bit of [s]. *)
Lemma land_opp_pos (p : positive) :
  exists k, 0 <= k /\ Z.land (Z.pos p) (- Z.pos p) = 2 ^ k
            /\ Z.testbit (Z.pos p) k = true.
Proof.
  induction p as [p IH|p IH|].
  - exists 0. split; [lia|]. split; [|apply (Z.testbit_odd_0 (Z.pos p))].
    rewrite Pos2Z.inj_xI.
    replace (- (2 * Z.pos p + 1)) with (2 * Z.lnot (Z.pos p) + 1)
      by (rewrite Z.lnot_eq_pred_opp; lia).
    rewrite land_double_succ, Z.land_lnot_diag. reflexivity.
  - destruct IH as (k & Hk & Hland & Hbit). exists (Z.succ k).
    split; [lia|]. rewrite Pos2Z.inj_xO.
    replace (- (2 * Z.pos p)) with (2 * (- Z.pos p)) by lia.
    rewrite land_double, Hland, Z.pow_succ_r by lia. split; [reflexivity|].
    rewrite Z.testbit_even_succ by lia. exact Hbit.
  - exists 0. repeat split. lia.
Qed.

Lemma land_pow2_eqb a k :
  0 <= k -> (Z.land a (2 ^ k) =? 0) = negb (Z.testbit a k).
Proof.
  intros Hk. rewrite land_bit, Z.testbit_eqb by lia.
  assert (Hp : 0 < 2 ^ k) by (apply Z.pow_pos_nonneg; lia).
  assert (Hb : (a / 2 ^ k) mod 2 = 0 \/ (a / 2 ^ k) mod 2 = 1) by zdivmod.
  destruct Hb as [-> | ->].
  - rewrite Z.mul_0_r. reflexivity.
  - rewrite Z.mul_1_r. cbn [Z.eqb Pos.eqb negb]. apply Z.eqb_neq. lia.
Qed.

(** The mask [diff] of [singleNumber] for a nonzero [xor_sum]: the bucket
    test reads one bit, and [xor_sum] has that bit set. *)
Lemma diff_is_one_bit X :
  int_range X -> X <> 0 ->
  exists k,
    0 <= k < 32
    /\ Z.testbit X k = true
    /\ forall x, in_bucket0 (Z.land (u32 X) (u32 (- u32 X))) x = negb (Z.testbit x k).
Proof.
  intros HX Hnz.
  pose proof (u32_range X) as Hr.
  assert (Hs : u32 X <> 0) by (unfold int_range in HX; unfold u32 in *; zdivmod).
  destruct (u32 X) as [|p|p] eqn:Es; [contradiction| |lia].
  destruct (land_opp_pos p) as (k & Hk & Hland & Hbit).
  assert (Hk32 : k < 32).
  { destruct (Z.lt_ge_cases k 32) as [Hl|Hg]; [exact Hl|]. exfalso.
    rewrite Z.bits_above_log2 in Hbit; [discriminate|lia|].
    apply Z.lt_le_trans with 32; [|exact Hg].
    apply Z.log2_lt_pow2; [lia|]. change (2 ^ 32) with 4294967296. lia. }
  assert (Hdiff : Z.land (Z.pos p) (u32 (- Z.pos p)) = 2 ^ k).
  { unfold u32. change 4294967296 with (2 ^ 32).
    rewrite <- Z.land_ones, Z.land_assoc, Hland, Z.land_ones by lia.
    apply Z.mod_small. split; [apply Z.pow_nonneg; lia|].
    apply Z.pow_lt_mono_r; lia. }
  exists k. split; [lia|]. split.
  - rewrite <- Es, u32_testbit in Hbit by lia.
    apply andb_true_iff in Hbit. apply Hbit.
  - intros x. unfold in_bucket0. rewrite Hdiff, land_pow2_eqb, u32_testbit by lia.
    destruct (Z.ltb_spec k 32); [reflexivity|lia].
Qed.

(** *** Two single values among pairs *)

Lemma xor_all_filter_perm (p : Z -> bool) l l' :
  Permutation l l' -> xor_all (filter p l) = xor_all (filter p l').
Proof.
  induction 1 as [|x l l' _ IH|x y l|l l' l'' _ IH1 _ IH2].
  - reflexivity.
  - cbn [filter]. destruct (p x); [|exact IH].
    cbn [xor_all fold_right]. fold (xor_all (filter p l)).
    fold (xor_all (filter p l')). rewrite IH. reflexivity.
  - cbn [filter]. destruct (p x), (p y); try reflexivity.
    cbn [xor_all fold_right]. rewrite <- !Z.lxor_assoc.
    f_equal. apply Z.lxor_comm.
  - rewrite IH1. exact IH2.
Qed.

Lemma xor_all_perm l l' : Permutation l l' -> xor_all l = xor_all l'.
Proof.
  intros H. rewrite <- (xor_all_filter_split (fun _ => true) l).
  rewrite <- (xor_all_filter_split (fun _ => true) l').
  rewrite (xor_all_filter_perm _ l l' H).
  rewrite (xor_all_filter_perm (fun x => negb ((fun _ => true) x)) l l' H).
  reflexivity.
Qed.

Lemma xor_all_filter_twice (p : Z -> bool) l :
  xor_all (filter p (l ++ l)) = 0.
Proof. rewrite filter_app, xor_all_app. apply Z.lxor_nilpotent. Qed.

(** X27: the purpose of [singleNumber].  When the array of [int]s is, in some
    order, two different values [x] and [y] and a collection of values each
    written twice, the two results are [x] and [y]: the second result is the
    one of the two that has the lowest bit in which they differ. *)
Theorem singleNumber_finds_the_two_singles (nums l : list Z) (x y : Z) :
  Forall int_range nums -> Z.of_nat (length nums) < 2147483648 ->
  Permutation nums (x :: y :: l ++ l) -> x <> y ->
  singleNumber nums (Z.of_nat (length nums)) = Some (x, y, 2)
  \/ singleNumber nums (Z.of_nat (length nums)) = Some (y, x, 2).
Proof.
  intros Hall Hlen Hperm Hxy.
  rewrite singleNumber_run by assumption.
  assert (HX : xor_all nums = Z.lxor x y).
  { rewrite (xor_all_perm _ _ Hperm). cbn [xor_all fold_right].
    fold (xor_all (l ++ l)). rewrite xor_all_app, Z.lxor_nilpotent, Z.lxor_0_r.
    reflexivity. }
  assert (Hnz : xor_all nums <> 0).
  { rewrite HX. intros E. apply Z.lxor_eq in E. contradiction. }
  destruct (diff_is_one_bit (xor_all nums) (xor_all_int_range _ Hall) Hnz)
    as (k & Hk & Hbit & Hbucket).
  set (diff := Z.land (u32 (xor_all nums)) (u32 (- u32 (xor_all nums)))) in *.
  rewrite HX, Z.lxor_spec in Hbit.
  rewrite (xor_all_filter_perm (in_bucket0 diff) _ _ Hperm).
  rewrite (xor_all_filter_perm (fun v => negb (in_bucket0 diff v)) _ _ Hperm).
  cbn [filter]. rewrite !Hbucket.
  destruct (Z.testbit x k) eqn:Bx, (Z.testbit y k) eqn:By; try discriminate;
    cbn [negb xor_all fold_right]; rewrite !xor_all_filter_twice, !Z.lxor_0_r;
    [right|left]; reflexivity.
Qed.

Lemma singleNumber_finds_the_two_singles_witness :
  singleNumber [5; 7; 5; -3] (Z.of_nat (length [5; 7; 5; -3])) = Some (7, -3, 2)
  \/ singleNumber [5; 7; 5; -3] (Z.of_nat (length [5; 7; 5; -3])) = Some (-3, 7, 2).
Proof.
  apply (singleNumber_finds_the_two_singles _ [5]).
  - repeat constructor; unfold int_range; lia.
  - cbn. lia.
  - cbn [app].
    apply Permutation_trans with (l' := [7; 5; 5; -3]); [apply perm_swap|].
    apply perm_skip. apply Permutation_sym.
    apply (Permutation_cons_append [5; 5] (-3)).
  - lia.
Defined.
